(** * ECS150-FS: a shallow embedding of [libfs/fs.c]

    The file system keeps four process-wide images (superblock, FAT, root
    directory, open-file table) and talks to a block device.  The embedding
    threads one [fs_state] record through every operation; loops over the
    fixed-size tables become recursive searches, the two I/O loops of
    [fs_read] and [fs_write] become fuelled recursions whose fuel is shown
    to suffice.

    Integer conventions (LP64, little-endian, as on the x86-64 target of the
    project): [uint8_t], [uint16_t], [uint32_t] and [size_t] are [Z] reduced
    modulo 2^8, 2^16, 2^32 and 2^64; [int] results are wrapped to 32 signed
    bits. *)

From Stdlib Require Import ZArith List Lia String Ascii Bool.
From stdpp Require Import base tactics option list.

Open Scope Z_scope.

(** ** Constants *)

(** Modelled from the spec: the macros of [fs.h] and [disk.h], which are not
    part of the sources at hand.  The spec fixes 4096-byte blocks, 16-byte
    file names, 128 directory entries and 32 open-file slots. *)
Definition BLOCK_SIZE : Z := 4096.
Definition FS_FILENAME_LEN : Z := 16.
Definition FS_FILE_MAX_COUNT : Z := 128.
Definition FS_OPEN_MAX_COUNT : Z := 32.

(** ** Machine integers *)

Definition uint8_t (z : Z) : Z := z mod 2 ^ 8.
Definition uint16_t (z : Z) : Z := z mod 2 ^ 16.
Definition uint32_t (z : Z) : Z := z mod 2 ^ 32.
Definition size_t (z : Z) : Z := z mod 2 ^ 64.

(** Conversion to [int], as done by [return count;] in a function whose
    result type is [int]. *)
Definition to_int (z : Z) : Z := (z + 2 ^ 31) mod 2 ^ 32 - 2 ^ 31.

(** ** Bytes, C strings and raw memory

    A byte is a [Z] in [0, 256).  A pointer argument is modelled by the
    bytes found at the pointer; bytes past the end of the list read as NUL,
    so a shorter list stands for a buffer followed by zeroes. *)

Definition peek (m : list Z) : Z := hd 0 m.

Fixpoint memcmp (a b : list Z) (n : nat) : Z :=
  match n with
  | O => 0
  | S n' =>
      if peek a =? peek b then memcmp (tl a) (tl b) n'
      else peek a - peek b
  end.

Fixpoint strlen (s : list Z) : Z :=
  match s with
  | [] => 0
  | c :: r => if c =? 0 then 0 else 1 + strlen r
  end.

(** [strncpy dst src n] overwrites the [n] bytes of [dst]: the characters of
    [src] up to its terminator, then NUL padding.  The result is the new
    content of the [n]-byte destination. *)
Fixpoint strncpy (src : list Z) (n : nat) : list Z :=
  match n with
  | O => []
  | S n' =>
      match src with
      | [] => repeat 0 n
      | c :: r => if c =? 0 then repeat 0 n else c :: strncpy r n'
      end
  end.

(** [memcpy_at dst off src n]: the content of [dst] after
    [memcpy(dst + off, src, n)]. *)
Definition read_bytes (src : list Z) (n : nat) : list Z :=
  take n (src ++ repeat 0 n).

Definition memcpy_at (dst : list Z) (off : Z) (src : list Z) (n : Z) : list Z :=
  take (Z.to_nat off) dst ++ read_bytes src (Z.to_nat n)
    ++ drop (Z.to_nat (off + n)) dst.

(** Little-endian integers. *)
Fixpoint le_uint (bs : list Z) : Z :=
  match bs with
  | [] => 0
  | b :: r => b + 256 * le_uint r
  end.

Fixpoint le_bytes (n : nat) (z : Z) : list Z :=
  match n with
  | O => []
  | S n' => z mod 256 :: le_bytes n' (z / 256)
  end.

Definition bytes_of_string (s : string) : list Z :=
  map (fun c => Z.of_N (N_of_ascii c)) (list_ascii_of_string s).

(** Array cell [a[i]] for an index already known to be non-negative. *)
Definition cell {A} (d : A) (a : list A) (i : Z) : A :=
  default d (a !! Z.to_nat i).

Definition store {A} (a : list A) (i : Z) (x : A) : list A :=
  <[Z.to_nat i := x]> a.

(** First index in [0, length l) whose element satisfies [p]: the shape of
    every [for (i = 0; i < N; i++) if (p(a[i])) ...] search of the source. *)
Fixpoint find_from {A} (p : A -> bool) (l : list A) (i : Z) : option Z :=
  match l with
  | [] => None
  | x :: r => if p x then Some i else find_from p r (i + 1)
  end.

Definition find_first {A} (p : A -> bool) (l : list A) : option Z :=
  find_from p l 0.

(** Number of elements satisfying [p]: the counting loops of [fs_info]. *)
Fixpoint count_if {A} (p : A -> bool) (l : list A) : Z :=
  match l with
  | [] => 0
  | x :: r => (if p x then 1 else 0) + count_if p r
  end.

(** ** In-memory images *)

Module SuperBlock.
Record t := mk {
  signature : list Z;
  total_blocks : Z;
  root_index : Z;
  data_index : Z;
  data_blocks : Z;
  fat_blocks : Z;
  unused_padding : list Z
}.

(** The zero-initialised global. *)
Definition zero : t := mk (repeat 0 8) 0 0 0 0 0 (repeat 0 4079).

(** The packed struct read from a raw block. *)
Definition decode (b : list Z) : t :=
  mk (read_bytes b 8)
     (le_uint (read_bytes (drop 8 b) 2))
     (le_uint (read_bytes (drop 10 b) 2))
     (le_uint (read_bytes (drop 12 b) 2))
     (le_uint (read_bytes (drop 14 b) 2))
     (le_uint (read_bytes (drop 16 b) 1))
     (read_bytes (drop 17 b) 4079).

Definition encode (s : t) : list Z :=
  read_bytes (signature s) 8 ++ le_bytes 2 (total_blocks s)
    ++ le_bytes 2 (root_index s) ++ le_bytes 2 (data_index s)
    ++ le_bytes 2 (data_blocks s) ++ le_bytes 1 (fat_blocks s)
    ++ read_bytes (unused_padding s) 4079.
End SuperBlock.

Module Entry.
Record t := mk {
  filename : list Z;
  file_size : Z;
  data_index : Z;
  unused_padding : list Z
}.

(** [memset(&entry, 0, sizeof(struct Entry))] *)
Definition zero : t := mk (repeat 0 16) 0 0 (repeat 0 10).

Definition decode (b : list Z) : t :=
  mk (read_bytes b 16)
     (le_uint (read_bytes (drop 16 b) 4))
     (le_uint (read_bytes (drop 20 b) 2))
     (read_bytes (drop 22 b) 10).

Definition encode (e : t) : list Z :=
  read_bytes (filename e) 16 ++ le_bytes 4 (file_size e)
    ++ le_bytes 2 (data_index e) ++ read_bytes (unused_padding e) 10.

Definition set_filename (n : list Z) (e : t) : t :=
  mk n (file_size e) (data_index e) (unused_padding e).
Definition set_file_size (z : Z) (e : t) : t :=
  mk (filename e) z (data_index e) (unused_padding e).
Definition set_data_index (z : Z) (e : t) : t :=
  mk (filename e) (file_size e) z (unused_padding e).
End Entry.

Module File.
Record t := mk {
  filename : list Z;
  offset : Z
}.

(** [memset(&file, 0, sizeof(struct File))] *)
Definition zero : t := mk (repeat 0 16) 0.

Definition set_offset (z : Z) (f : t) : t := mk (filename f) z.
End File.

Module Files.
Record t := mk {
  open : Z;
  file : list File.t
}.

Definition zero : t := mk 0 (repeat File.zero 32).
End Files.

(** [struct RootDirectory]: the 128 entries of the root block, 32 bytes
    each. *)
Fixpoint decode_entries (n : nat) (b : list Z) : list Entry.t :=
  match n with
  | O => []
  | S n' => Entry.decode b :: decode_entries n' (drop 32 b)
  end.

Definition decode_root (b : list Z) : list Entry.t := decode_entries 128 b.

(** The FAT is a stream of little-endian 16-bit words. *)
Fixpoint decode_words (n : nat) (b : list Z) : list Z :=
  match n with
  | O => []
  | S n' => le_uint (read_bytes b 2) :: decode_words n' (drop 2 b)
  end.

(** ** The block device *)

(** Modelled from the spec: the block layer ([disk.c]) is an external
    collaborator of the file system.  The spec gives its contract only:
    [open(path)], [count()], [read(index, buf4096)] and
    [write(index, buf4096)], each reporting success or failure.  [None] is
    the failure indicator [-1]; a failed read leaves the caller's buffer as
    it was. *)
Class BlockDevice (D : Type) := {
  block_disk_open : string -> D -> option D;
  block_disk_count : D -> Z;
  block_read : Z -> D -> option (list Z);
  block_write : Z -> list Z -> D -> option D
}.

(** Calls made to the device, in program order. *)
Inductive io_event :=
| EvRead (block : Z)
| EvWrite (block : Z).

(** ** Global state and operations *)

Section FS.

Context {D : Type} `{BlockDevice D}.

(** The globals [super], [fat], [root] and [files] of the source, the device
    they are mounted on, and the log of device calls. *)
Record fs_state := mk_state {
  super : SuperBlock.t;
  fat_flat : list Z;
  root_entry : list Entry.t;
  files : Files.t;
  disk : D;
  io_log : list io_event
}.

Definition set_super (x : SuperBlock.t) (s : fs_state) : fs_state :=
  mk_state x (fat_flat s) (root_entry s) (files s) (disk s) (io_log s).
Definition set_fat_flat (x : list Z) (s : fs_state) : fs_state :=
  mk_state (super s) x (root_entry s) (files s) (disk s) (io_log s).
Definition set_root_entry (x : list Entry.t) (s : fs_state) : fs_state :=
  mk_state (super s) (fat_flat s) x (files s) (disk s) (io_log s).
Definition set_files (x : Files.t) (s : fs_state) : fs_state :=
  mk_state (super s) (fat_flat s) (root_entry s) x (disk s) (io_log s).
Definition set_disk (x : D) (s : fs_state) : fs_state :=
  mk_state (super s) (fat_flat s) (root_entry s) (files s) x (io_log s).
Definition set_io_log (x : list io_event) (s : fs_state) : fs_state :=
  mk_state (super s) (fat_flat s) (root_entry s) (files s) (disk s) x.

(** The state of a process that has not mounted anything yet: every global
    is zero-initialised and [fat.flat] is a null pointer (an array of no
    cells). *)
Definition boot (d : D) : fs_state :=
  mk_state SuperBlock.zero [] (repeat Entry.zero 128) Files.zero d [].

(** What a call does: it returns, or it accesses a cell outside the array it
    indexes, which is undefined behaviour in C. *)
Inductive outcome :=
| Returns (r : Z) (s : fs_state)
| OutOfBounds (index size : Z).

(** [memcmp(root.entry[i].filename, filename, FS_FILENAME_LEN) == 0] *)
Definition same_name (filename : list Z) (e : Entry.t) : bool :=
  memcmp (Entry.filename e) filename (Z.to_nat FS_FILENAME_LEN) =? 0.

(** [root.entry[i].filename[0] == '\0'] *)
Definition entry_free (e : Entry.t) : bool := peek (Entry.filename e) =? 0.

(** [files.file[j].filename[0] == '\0'] *)
Definition slot_free (f : File.t) : bool := peek (File.filename f) =? 0.

Definition entries (s : fs_state) : list Entry.t :=
  take (Z.to_nat FS_FILE_MAX_COUNT) (root_entry s).

Definition slots (s : fs_state) : list File.t :=
  take (Z.to_nat FS_OPEN_MAX_COUNT) (Files.file (files s)).

Definition slot (s : fs_state) (fd : Z) : File.t :=
  cell File.zero (Files.file (files s)) fd.

Definition entry (s : fs_state) (i : Z) : Entry.t :=
  cell Entry.zero (root_entry s) i.

(** [fd < 0 || fd >= FS_OPEN_MAX_COUNT], then
    [files.file[fd].filename[0] == '\0']. *)
Definition bad_fd (s : fs_state) (fd : Z) : bool :=
  (fd <? 0) || (fd >=? FS_OPEN_MAX_COUNT) || slot_free (slot s fd).

(** *** fs_create *)

Definition fs_create (filename : list Z) (s : fs_state) : Z * fs_state :=
  if strlen filename >=? FS_FILENAME_LEN then (-1, s)
  else if Files.open (files s) =? FS_FILE_MAX_COUNT then (-1, s)
  else
    match find_first (same_name filename) (entries s) with
    | Some _ => (-1, s)
    | None =>
        match find_first entry_free (entries s) with
        | None => (-1, s)
        | Some i =>
            let e1 :=
              Entry.set_file_size 0
                (Entry.set_filename
                   (strncpy filename (Z.to_nat FS_FILENAME_LEN)) (entry s i)) in
            let scan :=
              find_first (Z.eqb 0)
                (take (Z.to_nat (SuperBlock.data_blocks (super s))) (fat_flat s)) in
            let fat' :=
              match scan with
              | Some k => store (fat_flat s) k 65535
              | None => fat_flat s
              end in
            let e2 :=
              match scan with
              | Some _ => Entry.set_data_index 65535 e1
              | None => e1
              end in
            (0,
             set_files
               (Files.mk (to_int (Files.open (files s) + 1))
                  (Files.file (files s)))
               (set_fat_flat fat'
                  (set_root_entry (store (root_entry s) i e2) s)))
        end
    end.

(** *** fs_delete *)

Definition fs_delete (filename : list Z) (s : fs_state) : outcome :=
  match find_first (same_name filename) (entries s) with
  | Some i =>
      if Files.open (files s) =? 0 then
        let k := Entry.data_index (entry s i) in
        if k <? Z.of_nat (length (fat_flat s)) then
          Returns 0
            (set_root_entry (store (root_entry s) i Entry.zero)
               (set_fat_flat (store (fat_flat s) k 0) s))
        else OutOfBounds k (Z.of_nat (length (fat_flat s)))
      else Returns (-1) s
  | None => Returns (-1) s
  end.

(** *** fs_open

    [None] is the null pointer. *)
Definition fs_open (filename : option (list Z)) (s : fs_state) : Z * fs_state :=
  if Files.open (files s) =? FS_OPEN_MAX_COUNT then (-1, s)
  else
    match filename with
    | None => (-1, s)
    | Some name =>
        match find_first (same_name name) (entries s) with
        | None => (-1, s)
        | Some _ =>
            match find_first slot_free (slots s) with
            | None => (-1, s)
            | Some j =>
                let new_file :=
                  File.mk (strncpy name (Z.to_nat FS_FILENAME_LEN)) 0 in
                (0,
                 set_files
                   (Files.mk (to_int (Files.open (files s) + 1))
                      (store (Files.file (files s)) j new_file)) s)
            end
        end
    end.

(** *** fs_close *)

Definition fs_close (fd : Z) (s : fs_state) : Z * fs_state :=
  if bad_fd s fd then (-1, s)
  else
    (0,
     set_files
       (Files.mk (to_int (Files.open (files s) - 1))
          (store (Files.file (files s)) fd File.zero)) s).

(** *** fs_stat *)

Definition fs_stat (fd : Z) (s : fs_state) : Z :=
  if bad_fd s fd then -1
  else
    match find_first (same_name (File.filename (slot s fd))) (entries s) with
    | Some i => to_int (Entry.file_size (entry s i))
    | None => -1
    end.

(** *** fs_lseek *)

Definition fs_lseek (fd : Z) (offset : Z) (s : fs_state) : Z * fs_state :=
  if bad_fd s fd then (-1, s)
  else if offset >? Entry.file_size (entry s fd) then (-1, s)
  else
    (0,
     set_files
       (Files.mk (Files.open (files s))
          (store (Files.file (files s)) fd (File.set_offset offset (slot s fd))))
       s).

(** *** The I/O loops

    Both loops run [while (remaining > 0)] and consume at least one byte per
    round, so [remaining] rounds of fuel are enough; [None] means that the
    fuel ran out. *)

Inductive loop_exit :=
| LoopFail
| LoopDone (remaining offset : Z).

(** The data block the loops address for the byte at [offset]:
    [super.data_index + (entry->data_index + offset / BLOCK_SIZE)]. *)
Definition block_at (sdi edi p : Z) : Z := size_t (sdi + size_t (edi + p)).

Definition block_of (sdi edi offset : Z) : Z :=
  block_at sdi edi (offset / BLOCK_SIZE).

(** Bytes moved in one round: [BLOCK_SIZE - block_offset], cut down to what
    remains. *)
Definition chunk (remaining offset : Z) : Z :=
  let size := BLOCK_SIZE - offset mod BLOCK_SIZE in
  if size >? remaining then remaining else size.

Fixpoint write_loop (fuel : nat) (sdi edi writing offset : Z) (buf : list Z)
    (d : D) (log : list io_event) : option (loop_exit * D * list io_event) :=
  match fuel with
  | O => None
  | S fuel' =>
      if writing >? 0 then
        let block_offset := offset mod BLOCK_SIZE in
        let write_size := chunk writing offset in
        let blk := block_of sdi edi offset in
        match block_read blk d with
        | None => Some (LoopFail, d, log ++ [EvRead blk])
        | Some buffer =>
            let buffer' := memcpy_at buffer block_offset buf write_size in
            match block_write blk buffer' d with
            | None => Some (LoopFail, d, log ++ [EvRead blk; EvWrite blk])
            | Some d' =>
                write_loop fuel' sdi edi (writing - write_size)
                  (size_t (offset + write_size))
                  (drop (Z.to_nat write_size) buf) d'
                  (log ++ [EvRead blk; EvWrite blk])
            end
        end
      else Some (LoopDone writing offset, d, log)
  end.

Fixpoint read_loop (fuel : nat) (sdi edi reading offset : Z) (d : D)
    (out : list Z) (log : list io_event)
    : option (loop_exit * list Z * list io_event) :=
  match fuel with
  | O => None
  | S fuel' =>
      if reading >? 0 then
        let block_offset := offset mod BLOCK_SIZE in
        let read_size := chunk reading offset in
        let blk := block_of sdi edi offset in
        match block_read blk d with
        | None => Some (LoopFail, out, log ++ [EvRead blk])
        | Some buffer =>
            read_loop fuel' sdi edi (reading - read_size)
              (size_t (offset + read_size)) d
              (out ++ read_bytes (drop (Z.to_nat block_offset) buffer)
                        (Z.to_nat read_size))
              (log ++ [EvRead blk])
        end
      else Some (LoopDone reading offset, out, log)
  end.

(** *** fs_write

    [buf] holds the caller's bytes.  The result is the returned [int] and
    the new state. *)
Definition fs_write (fd : Z) (buf : list Z) (count : Z) (s : fs_state)
    : option (Z * fs_state) :=
  if bad_fd s fd then Some (-1, s)
  else
    match find_first (same_name (File.filename (slot s fd))) (entries s) with
    | None => Some (-1, s)
    | Some i =>
        match
          write_loop (S (Z.to_nat count))
            (SuperBlock.data_index (super s)) (Entry.data_index (entry s i))
            count (File.offset (slot s fd)) buf (disk s) (io_log s)
        with
        | None => None
        | Some (LoopFail, d, log) => Some (-1, set_io_log log (set_disk d s))
        | Some (LoopDone _ offset, d, log) =>
            let s1 :=
              set_files
                (Files.mk (Files.open (files s))
                   (store (Files.file (files s)) fd
                      (File.set_offset offset (slot s fd))))
                (set_io_log log (set_disk d s)) in
            let s2 :=
              if offset >? Entry.file_size (entry s i) then
                set_root_entry
                  (store (root_entry s) i
                     (Entry.set_file_size (uint32_t offset) (entry s i))) s1
              else s1 in
            Some (to_int count, s2)
        end
    end.

(** *** fs_read

    The result is the returned [int], the bytes copied to the caller's
    buffer (in order, from its start) and the new state. *)
Definition fs_read (fd : Z) (count : Z) (s : fs_state)
    : option (Z * list Z * fs_state) :=
  if bad_fd s fd then Some (-1, [], s)
  else
    match find_first (same_name (File.filename (slot s fd))) (entries s) with
    | None => Some (-1, [], s)
    | Some i =>
        let offset := File.offset (slot s fd) in
        let file_size := Entry.file_size (entry s i) in
        if offset >=? file_size then Some (0, [], s)
        else
          let reading :=
            if size_t (offset + count) >? file_size then file_size - offset
            else count in
          match
            read_loop (S (Z.to_nat reading))
              (SuperBlock.data_index (super s)) (Entry.data_index (entry s i))
              reading offset (disk s) [] (io_log s)
          with
          | None => None
          | Some (LoopFail, out, log) => Some (-1, out, set_io_log log s)
          | Some (LoopDone reading' offset', out, log) =>
              Some (to_int (size_t (count - reading')), out,
                    set_files
                      (Files.mk (Files.open (files s))
                         (store (Files.file (files s)) fd
                            (File.set_offset offset' (slot s fd))))
                      (set_io_log log s))
          end
    end.

(** *** fs_mount *)

(** The loop that copies the FAT blocks [1 .. fat_blocks] into [fat.flat],
    2048 entries per block.  The boolean tells whether every read
    succeeded. *)
Fixpoint load_fat (n : nat) (i : Z) (d : D) (words : list Z)
    (log : list io_event) : bool * list Z * list io_event :=
  match n with
  | O => (true, words, log)
  | S n' =>
      match block_read (i + 1) d with
      | None => (false, words, log ++ [EvRead (i + 1)])
      | Some buffer =>
          load_fat n' (i + 1) d (words ++ decode_words 2048 buffer)
            (log ++ [EvRead (i + 1)])
      end
  end.

(** The five tests on the superblock image, in source order; [true] when one
    of them rejects. *)
Definition super_rejected (sb : SuperBlock.t) (d : D) : bool :=
  let fat_min :=
    uint8_t ((SuperBlock.data_blocks sb * 2 + BLOCK_SIZE - 1) / BLOCK_SIZE) in
  negb (memcmp (bytes_of_string "ECS150FS") (SuperBlock.signature sb) 8 =? 0)
  || negb (SuperBlock.fat_blocks sb + SuperBlock.data_blocks sb
           =? SuperBlock.total_blocks sb - 2)
  || negb (SuperBlock.total_blocks sb =? block_disk_count d)
  || (negb (SuperBlock.fat_blocks sb + 1 =? SuperBlock.root_index sb)
      || negb (SuperBlock.root_index sb + 1 =? SuperBlock.data_index sb))
  || negb (SuperBlock.fat_blocks sb =? fat_min).

(** [fat.flat] is the array of [data_blocks] entries that [malloc] returned;
    of the whole blocks that [memcpy] copies, the model keeps the entries
    that fall inside that array.  After a failed FAT read the array holds
    the entries copied so far (the rest of the allocation is indeterminate
    and not represented).  The results of the reads of block 0 and of the
    root block are not inspected by the source: when such a read fails the
    image keeps its previous content. *)
Definition fs_mount (diskname : string) (s : fs_state) : outcome :=
  match block_disk_open diskname (disk s) with
  | None => Returns (-1) s
  | Some d =>
      let sb :=
        match block_read 0 d with
        | Some b => SuperBlock.decode b
        | None => super s
        end in
      let s1 :=
        set_io_log (io_log s ++ [EvRead 0]) (set_super sb (set_disk d s)) in
      if super_rejected sb d then Returns (-1) s1
      else
        match
          load_fat (Z.to_nat (SuperBlock.fat_blocks sb)) 0 d [] (io_log s1)
        with
        | (ok, words, log) =>
            let s2 :=
              set_io_log log
                (set_fat_flat
                   (take (Z.to_nat (SuperBlock.data_blocks sb)) words) s1) in
            if negb ok then Returns (-1) s2
            else
              match fat_flat s2 !! 0%nat with
              | None => OutOfBounds 0 0
              | Some v =>
                  if negb (v =? 65535) then Returns (-1) s2
                  else
                    let root' :=
                      match block_read (SuperBlock.root_index sb) d with
                      | Some b => decode_root b
                      | None => root_entry s2
                      end in
                    Returns 0
                      (set_io_log
                         (io_log s2 ++ [EvRead (SuperBlock.root_index sb)])
                         (set_root_entry root' s2))
              end
        end
  end.

(** *** Client programs

    A program is the list of the calls it makes, in order.  [perform] gives
    the state after a call, or [None] when the call has no defined outcome
    (an access outside an array). *)

Inductive call :=
| CallMount (diskname : string)
| CallCreate (filename : list Z)
| CallDelete (filename : list Z)
| CallOpen (filename : option (list Z))
| CallClose (fd : Z)
| CallLseek (fd offset : Z)
| CallWrite (fd : Z) (buf : list Z) (count : Z)
| CallRead (fd count : Z).

Definition is_close (c : call) : bool :=
  match c with
  | CallClose _ => true
  | _ => false
  end.

Definition perform (c : call) (s : fs_state) : option fs_state :=
  match c with
  | CallMount diskname =>
      match fs_mount diskname s with
      | Returns _ s' => Some s'
      | OutOfBounds _ _ => None
      end
  | CallCreate filename => Some (snd (fs_create filename s))
  | CallDelete filename =>
      match fs_delete filename s with
      | Returns _ s' => Some s'
      | OutOfBounds _ _ => None
      end
  | CallOpen filename => Some (snd (fs_open filename s))
  | CallClose fd => Some (snd (fs_close fd s))
  | CallLseek fd offset => Some (snd (fs_lseek fd offset s))
  | CallWrite fd buf count => option_map snd (fs_write fd buf count s)
  | CallRead fd count => option_map snd (fs_read fd count s)
  end.

Fixpoint perform_all (calls : list call) (s : fs_state) : option fs_state :=
  match calls with
  | [] => Some s
  | c :: rest =>
      match perform c s with
      | Some s' => perform_all rest s'
      | None => None
      end
  end.

(** *** fs_info: the two free counts it prints *)

Definition fat_free (s : fs_state) : Z :=
  count_if (Z.eqb 0)
    (take (Z.to_nat (SuperBlock.data_blocks (super s))) (fat_flat s)).

Definition rdir_free (s : fs_state) : Z := count_if entry_free (entries s).

End FS.

Arguments fs_state D : clear implicits.
Arguments outcome D : clear implicits.

(** ** Unmounting and listing *)

(** Modelled from the spec: closing the block device ([block_disk_close] of
    [disk.c]), which reports success or failure.  [None] is the failure
    indicator [-1]. *)
Class DiskClose (D : Type) := {
  block_disk_close : D -> option D
}.

(** A C string read from memory: the bytes before the first NUL. *)
Definition c_string (m : list Z) : list Z := take (Z.to_nat (strlen m)) m.

Section Unmount.

Context {D : Type} `{BlockDevice D} `{DiskClose D}.

(** The 4096 bytes at [&super]. *)
Definition super_image (s : fs_state D) : list Z := SuperBlock.encode (super s).

(** The 4096 bytes at [&root]: the 128 entries, 32 bytes each. *)
Definition root_memory (es : list Entry.t) : list Z :=
  concat (map Entry.encode es).

Definition root_image (s : fs_state D) : list Z :=
  read_bytes (root_memory (entries s)) 4096.

(** The 4096 bytes at [fat.flat + i * BLOCK_SIZE / 2].  The array ends after
    its last entry; [memcpy] goes on reading what follows it in memory,
    which the caller of the model supplies as [beyond]. *)
Definition fat_memory (beyond : list Z) (s : fs_state D) : list Z :=
  concat (map (le_bytes 2) (fat_flat s)) ++ beyond.

Definition fat_block (beyond : list Z) (s : fs_state D) (i : Z) : list Z :=
  read_bytes (drop (Z.to_nat (i * BLOCK_SIZE)) (fat_memory beyond s)) 4096.

(** The loop that writes the FAT blocks [1 .. fat_blocks].  The boolean
    tells whether every write succeeded. *)
Fixpoint store_fat (n : nat) (i : Z) (image : Z -> list Z) (d : D)
    (log : list io_event) : bool * D * list io_event :=
  match n with
  | O => (true, d, log)
  | S n' =>
      match block_write (i + 1) (image i) d with
      | None => (false, d, log ++ [EvWrite (i + 1)])
      | Some d' => store_fat n' (i + 1) image d' (log ++ [EvWrite (i + 1)])
      end
  end.

(** *** fs_umount *)

Definition fs_umount (beyond : list Z) (s : fs_state D) : Z * fs_state D :=
  match block_write 0 (super_image s) (disk s) with
  | None => (-1, set_io_log (io_log s ++ [EvWrite 0]) s)
  | Some d0 =>
      match
        store_fat (Z.to_nat (SuperBlock.fat_blocks (super s))) 0
          (fat_block beyond s) d0 (io_log s ++ [EvWrite 0])
      with
      | (false, d1, log1) => (-1, set_io_log log1 (set_disk d1 s))
      | (true, d1, log1) =>
          let log2 := log1 ++ [EvWrite (SuperBlock.root_index (super s))] in
          match
            block_write (SuperBlock.root_index (super s)) (root_image s) d1
          with
          | None => (-1, set_io_log log2 (set_disk d1 s))
          | Some d2 =>
              match block_disk_close d2 with
              | None => (-1, set_io_log log2 (set_disk d2 s))
              | Some d3 => (0, set_io_log log2 (set_disk d3 s))
              end
          end
      end
  end.

(** *** fs_ls

    One line per entry whose name does not start with NUL; a line is given
    by the three values that [printf] formats: the name as [%s] reads it
    from the entry onwards, the size and the first data block. *)
Fixpoint ls_lines (es : list Entry.t) : list (list Z * Z * Z) :=
  match es with
  | [] => []
  | e :: rest =>
      if entry_free e then ls_lines rest
      else
        (c_string (root_memory (e :: rest)), Entry.file_size e,
         Entry.data_index e) :: ls_lines rest
  end.

Definition fs_ls (s : fs_state D) : list (list Z * Z * Z) :=
  ls_lines (entries s).

End Unmount.

(** ** Conditions on states *)

Section Conditions.

Context {D : Type} `{BlockDevice D}.

(** The two tables have their declared sizes. *)
Definition tables_shaped (s : fs_state D) : Prop :=
  length (root_entry s) = 128%nat /\ length (Files.file (files s)) = 32%nat.

(** Number of occupied slots of the open-file table. *)
Definition occupied (s : fs_state D) : Z :=
  count_if (fun f => negb (slot_free f)) (slots s).

(** A name buffer holding nothing but NULs after its terminator, within
    the 16 bytes that [memcmp] looks at. *)
Definition clean_name (name : list Z) : Prop :=
  read_bytes name 16 = strncpy name 16.

(** No two directory entries hold the same name, free slots apart. *)
Definition names_unique (s : fs_state D) : Prop :=
  forall (i j : nat) (ei ej : Entry.t),
    entries s !! i = Some ei ->
    entries s !! j = Some ej ->
    i <> j ->
    entry_free ei = false ->
    read_bytes (Entry.filename ei) 16 <> read_bytes (Entry.filename ej) 16.

(** The byte of a file at position [pos], as the I/O loops address it. *)
Definition file_byte (d : D) (sdi edi pos : Z) : Z :=
  match block_read (block_of sdi edi pos) d with
  | Some b => nth (Z.to_nat (pos mod BLOCK_SIZE)) b 0
  | None => 0
  end.

(** Every block that holds a byte of [offset .. offset + n - 1] reads. *)
Definition readable (d : D) (sdi edi offset n : Z) : Prop :=
  forall pos : Z,
    offset <= pos < offset + n ->
    is_Some (block_read (block_of sdi edi pos) d).

End Conditions.

(** ** What the library expects of a device *)

(** Modelled from the spec: a block device stores what is written to it.
    [dev_sound] singles out the device states whose blocks all have 4096
    bytes; a block written is the block read back, and writing one block
    leaves the others alone. *)
Class StoreLaws (D : Type) `{BlockDevice D} := {
  dev_sound : D -> Prop;
  read_length :
    forall (d : D) (i : Z) (b : list Z),
      dev_sound d -> block_read i d = Some b -> length b = 4096%nat;
  write_sound :
    forall (d d' : D) (i : Z) (b : list Z),
      dev_sound d -> length b = 4096%nat -> block_write i b d = Some d' ->
      dev_sound d';
  read_written :
    forall (d d' : D) (i : Z) (b : list Z),
      block_write i b d = Some d' -> block_read i d' = Some b;
  read_other :
    forall (d d' : D) (i j : Z) (b : list Z),
      block_write i b d = Some d' -> j <> i -> block_read j d' = block_read j d
}.

(** Modelled from the spec: closing a device and opening it again shows the
    blocks it held when it was closed. *)
Class ReopenLaws (D : Type) `{BlockDevice D} `{DiskClose D} := {
  reopen_same :
    forall (d d' d'' : D) (name : string) (i : Z),
      block_disk_close d = Some d' ->
      block_disk_open name d' = Some d'' ->
      block_read i d'' = block_read i d
}.

(** Images that the packed structs can hold: fields within the range of
    their integer types, arrays of their declared lengths. *)
Definition super_fits (sb : SuperBlock.t) : Prop :=
  length (SuperBlock.signature sb) = 8%nat
  /\ 0 <= SuperBlock.total_blocks sb < 2 ^ 16
  /\ 0 <= SuperBlock.root_index sb < 2 ^ 16
  /\ 0 <= SuperBlock.data_index sb < 2 ^ 16
  /\ 0 <= SuperBlock.data_blocks sb < 2 ^ 16
  /\ 0 <= SuperBlock.fat_blocks sb < 2 ^ 8
  /\ length (SuperBlock.unused_padding sb) = 4079%nat.

Definition entry_fits (e : Entry.t) : Prop :=
  length (Entry.filename e) = 16%nat
  /\ 0 <= Entry.file_size e < 2 ^ 32
  /\ 0 <= Entry.data_index e < 2 ^ 16
  /\ length (Entry.unused_padding e) = 10%nat.

Definition images_fit {D} (s : fs_state D) : Prop :=
  super_fits (super s)
  /\ Forall (fun w => 0 <= w < 2 ^ 16) (fat_flat s)
  /\ length (fat_flat s) = Z.to_nat (SuperBlock.data_blocks (super s))
  /\ length (root_entry s) = 128%nat
  /\ Forall entry_fits (root_entry s).

(** ** The spec's notions

    Definitions that follow the words of the specification rather than the
    source; the properties below compare the two. *)

(** Following the spec's words (no function of the source walks a chain):
    the chain of a file starts at its first_data_index; the FAT entry of a
    block names its successor; 0xFFFF ends the chain.  [chain_from] lists
    the data blocks of the chain, [chain_nth] is the block found after [p]
    hops. *)

Fixpoint chain_from (fuel : nat) (fat : list Z) (i : Z) : list Z :=
  match fuel with
  | O => []
  | S fuel' =>
      if i =? 65535 then []
      else i :: chain_from fuel' fat (cell 65535 fat i)
  end.

Definition file_chain {D} (s : fs_state D) (e : Entry.t) : list Z :=
  chain_from (length (fat_flat s)) (fat_flat s) (Entry.data_index e).

Definition chain_nth {D} (s : fs_state D) (e : Entry.t) (p : Z) : option Z :=
  file_chain s e !! Z.to_nat p.

Section SuperblockInvariants.

Context {D : Type} `{BlockDevice D}.

(** Following the spec's words: the five superblock invariants checked on
    mount -- the signature, the block count, the device's block count, the
    contiguous layout, and a FAT of exactly ceil(data_blocks * 2 / 4096)
    blocks. *)
Definition super_valid (sb : SuperBlock.t) (d : D) : Prop :=
  SuperBlock.signature sb = bytes_of_string "ECS150FS"
  /\ SuperBlock.fat_blocks sb + SuperBlock.data_blocks sb
     = SuperBlock.total_blocks sb - 2
  /\ SuperBlock.total_blocks sb = block_disk_count d
  /\ (SuperBlock.root_index sb = SuperBlock.fat_blocks sb + 1
      /\ SuperBlock.data_index sb = SuperBlock.root_index sb + 1)
  /\ SuperBlock.fat_blocks sb
     = (SuperBlock.data_blocks sb * 2 + (BLOCK_SIZE - 1)) / BLOCK_SIZE.

End SuperblockInvariants.

(** ** Traces of device calls *)

(** [k] consecutive chain positions from [p]. *)
Fixpoint consecutive (p : Z) (k : nat) : list Z :=
  match k with
  | O => []
  | S k' => p :: consecutive (p + 1) k'
  end.

(** Number of blocks that the bytes [offset .. offset + remaining - 1]
    touch. *)
Definition span (remaining offset : Z) : Z :=
  if remaining >? 0 then
    (offset + remaining - 1) / BLOCK_SIZE - offset / BLOCK_SIZE + 1
  else 0.

(** Device calls of [k] rounds of [fs_read], resp. [fs_write], from chain
    position [p]. *)
Definition reads (sdi edi p : Z) (k : nat) : list io_event :=
  map (fun q => EvRead (block_at sdi edi q)) (consecutive p k).

Definition updates (sdi edi p : Z) (k : nat) : list io_event :=
  flat_map (fun q => [EvRead (block_at sdi edi q); EvWrite (block_at sdi edi q)])
    (consecutive p k).

(** The device calls of a complete [fs_umount]: block 0, the FAT blocks in
    order, the root block. *)
Definition umount_writes (sb : SuperBlock.t) : list io_event :=
  EvWrite 0
    :: map (fun k => EvWrite (k + 1))
         (consecutive 0 (Z.to_nat (SuperBlock.fat_blocks sb)))
    ++ [EvWrite (SuperBlock.root_index sb)].

(** The device calls that a call added to the log. *)
Definition calls_since {D} (s s' : fs_state D) : list io_event :=
  drop (length (io_log s)) (io_log s').

(** ** Runs of block transfers

    What a sequence of device calls did to the device, told without the
    loops of the source. *)

(** The block of chain position [p] after a write of the [count] bytes of
    [buf] at offset [o]: the old block with the bytes of the file positions
    that fall into it replaced by the caller's. *)
Definition patch_of (o count : Z) (buf : list Z) (p : Z) (old : list Z)
    : list Z :=
  let start := Z.max o (BLOCK_SIZE * p) in
  let stop := Z.min (o + count) (BLOCK_SIZE * (p + 1)) in
  memcpy_at old (start mod BLOCK_SIZE) (drop (Z.to_nat (start - o)) buf)
    (stop - start).

Section Transfers.

Context {D : Type} `{BlockDevice D}.

(** The blocks of the [k] consecutive chain positions from [p] were, in
    order and each in the device state left by the one before, read and
    then written back as [patch] makes them, every call succeeding; [d']
    is the device after the last of them. *)
Fixpoint rewritten (patch : Z -> list Z -> list Z) (sdi edi p : Z) (k : nat)
    (d d' : D) : Prop :=
  match k with
  | O => d' = d
  | S k' =>
      exists (old : list Z) (d1 : D),
        block_read (block_at sdi edi p) d = Some old
        /\ block_write (block_at sdi edi p) (patch p old) d = Some d1
        /\ rewritten patch sdi edi (p + 1) k' d1 d'
  end.

(** The FAT entries held by the blocks [i + 1 .. i + n] of the device, up
    to the first block that does not read. *)
Fixpoint fat_on_volume (n : nat) (i : Z) (d : D) : list Z :=
  match n with
  | O => []
  | S n' =>
      match block_read (i + 1) d with
      | None => []
      | Some b => decode_words 2048 b ++ fat_on_volume n' (i + 1) d
      end
  end.

(** Writing block images in order, up to the first write that fails: the
    number of calls made, the device they leave, and whether all of them
    succeeded. *)
Fixpoint write_each (ws : list (Z * list Z)) (d : D) : nat * D * bool :=
  match ws with
  | [] => (O, d, true)
  | (i, b) :: rest =>
      match block_write i b d with
      | None => (1%nat, d, false)
      | Some d' =>
          match write_each rest d' with
          | (n, d'', ok) => (S n, d'', ok)
          end
      end
  end.

End Transfers.

(** The blocks that a complete [fs_umount] writes, with their images: the
    superblock, the FAT blocks, the root directory. *)
Definition umount_images {D} (beyond : list Z) (s : fs_state D)
    : list (Z * list Z) :=
  (0, super_image s)
    :: map (fun k => (k + 1, fat_block beyond s k))
         (consecutive 0 (Z.to_nat (SuperBlock.fat_blocks (super s))))
    ++ [(SuperBlock.root_index (super s), root_image s)].

(** ** A device in memory, and volumes to mount

    The device used by the examples, one instance of the contract above: a
    list of blocks, a flag telling whether it is open, and a list of blocks
    whose sectors no longer read or write (an I/O error of the medium).
    Transfers fail on a closed device, on an index past the last block and
    on a bad block. *)

Record RamDisk := mk_ram {
  rd_open : bool;
  rd_blocks : list (list Z);
  rd_bad : list Z
}.

Definition ram_usable (i : Z) (d : RamDisk) : bool :=
  rd_open d && (0 <=? i) && (i <? Z.of_nat (length (rd_blocks d)))
  && negb (existsb (Z.eqb i) (rd_bad d)).

#[export] Instance RamDisk_device : BlockDevice RamDisk := {
  block_disk_open _ d :=
    if rd_open d then None else Some (mk_ram true (rd_blocks d) (rd_bad d));
  block_disk_count d := Z.of_nat (length (rd_blocks d));
  block_read i d :=
    if ram_usable i d then rd_blocks d !! Z.to_nat i else None;
  block_write i b d :=
    if ram_usable i d then
      Some (mk_ram (rd_open d) (<[Z.to_nat i := b]> (rd_blocks d)) (rd_bad d))
    else None
}.

(** Closing succeeds on an open device and fails on a closed one. *)
#[export] Instance RamDisk_close : DiskClose RamDisk := {
  block_disk_close d :=
    if rd_open d then Some (mk_ram false (rd_blocks d) (rd_bad d)) else None
}.

(** The device states whose blocks all have 4096 bytes. *)
Definition ram_sound (d : RamDisk) : Prop :=
  Forall (fun b => length b = 4096%nat) (rd_blocks d).

(** A formatter: the volume whose FAT is [fat] (one data block per entry)
    and whose root directory starts with [dir]. *)
Definition pad_block (b : list Z) : list Z := read_bytes b 4096.

Fixpoint fat_image (k : nat) (words : list Z) : list (list Z) :=
  match k with
  | O => []
  | S k' =>
      pad_block (concat (map (le_bytes 2) (take 2048 words)))
        :: fat_image k' (drop 2048 words)
  end.

Definition mkfs (fat : list Z) (dir : list Entry.t) : list (list Z) :=
  let data_blocks := Z.of_nat (length fat) in
  let fat_blocks := (data_blocks * 2 + 4095) / 4096 in
  pad_block
    (SuperBlock.encode
       (SuperBlock.mk (bytes_of_string "ECS150FS")
          (2 + fat_blocks + data_blocks) (fat_blocks + 1) (fat_blocks + 2)
          data_blocks fat_blocks []))
    :: fat_image (Z.to_nat fat_blocks) fat
    ++ [pad_block (concat (map Entry.encode dir))]
    ++ repeat (repeat 0 4096) (length fat).

Definition volume (fat : list Z) (dir : list Entry.t) : RamDisk :=
  mk_ram false (mkfs fat dir) [].

(** A directory entry as the reference layout stores it. *)
Definition file_entry (name : string) (size first : Z) : Entry.t :=
  Entry.mk (strncpy (bytes_of_string name) 16) size first (repeat 0 10).

(** Plumbing for scripted scenarios. *)
Definition after {D} (o : outcome D) (s : fs_state D) : fs_state D :=
  match o with
  | Returns _ s' => s'
  | OutOfBounds _ _ => s
  end.

Definition result {D} (o : outcome D) : option Z :=
  match o with
  | Returns r _ => Some r
  | OutOfBounds _ _ => None
  end.

(** ** Scenarios

    Volumes and call sequences used by the examples below.  A volume made
    by [volume fat dir] has one FAT block, so its root directory is block 2
    and its data blocks start at block 3. *)

Definition cstr (s : string) : list Z := bytes_of_string s.

Definition mount_fresh (d : RamDisk) : outcome RamDisk :=
  fs_mount "disk"%string (boot d).

Definition mounted (d : RamDisk) : fs_state RamDisk :=
  after (mount_fresh d) (boot d).

(** S1 of the spec: an empty volume of seven data blocks. *)
Definition s1_volume : RamDisk := volume [65535; 0; 0; 0; 0; 0; 0] [].

(** An empty volume of four data blocks. *)
Definition empty_volume : RamDisk := volume [65535; 0; 0; 0] [].

(** S6 of the spec: create("x"), open, delete, close, delete. *)
Definition s6_created := fs_create (cstr "x") (mounted empty_volume).
Definition s6_opened := fs_open (Some (cstr "x")) (snd s6_created).
Definition s6_delete_open := fs_delete (cstr "x") (snd s6_opened).
Definition s6_closed :=
  fs_close (fst s6_opened) (after s6_delete_open (snd s6_opened)).
Definition s6_delete_closed := fs_delete (cstr "x") (snd s6_closed).

(** Two opens of the same file in a row. *)
Definition twice_first := fs_open (Some (cstr "x")) (snd s6_created).
Definition twice_second := fs_open (Some (cstr "x")) (snd twice_first).

(** A volume written by a complete implementation: "a" is empty, "b" holds
    100 bytes in data block 1. *)
Definition ab_volume : RamDisk :=
  volume [65535; 65535; 0; 0]
    [file_entry "a" 0 65535; file_entry "b" 100 1].

Definition ab_opened := fs_open (Some (cstr "b")) (mounted ab_volume).

(** A volume holding the empty file "x", as [fs_create] leaves it. *)
Definition x_volume : RamDisk :=
  volume [65535; 65535; 0; 0] [file_entry "x" 0 65535].

(** A volume whose file "f" holds 5 bytes in data block 1. *)
Definition f_volume : RamDisk :=
  volume [65535; 65535; 0; 0] [file_entry "f" 5 1].

Definition f_opened := fs_open (Some (cstr "f")) (mounted f_volume).

(** A volume whose file "f" holds 8192 bytes in the chain 1 -> 2. *)
Definition chained_volume : RamDisk :=
  volume [65535; 2; 65535; 0] [file_entry "f" 8192 1].

Definition chained_deleted : outcome RamDisk :=
  fs_delete (cstr "f") (mounted chained_volume).

(** S4 of the spec, twice: on the empty volume after create("x") and
    open("x"), and on a volume where "f" already owns data block 1.  Both
    have exactly two free data blocks. *)
Definition s4_first_write :=
  fs_write 0 (repeat 7 (Z.to_nat 10000)) 10000 (snd s6_opened).

Definition owner_volume : RamDisk :=
  volume [65535; 65535; 0; 0] [file_entry "f" 0 1].

Definition owner_opened := fs_open (Some (cstr "f")) (mounted owner_volume).

Definition s4_owner_write :=
  fs_write 0 (repeat 7 (Z.to_nat 10000)) 10000 (snd owner_opened).

(** "Hello" written to "f", then read back from offset 0. *)
Definition hello_written :=
  fs_write 0 [72; 101; 108; 108; 111] 5 (snd owner_opened).

Definition hello_seeked :=
  fs_lseek 0 0
    (match hello_written with
     | Some (_, s') => s'
     | None => snd owner_opened
     end).

Definition hello_read := fs_read 0 5 (snd hello_seeked).

(** A volume where the chain of "g" is 1 -> 3 and block 2 belongs to
    "h"; "g" is open and its offset is 4096, the start of chain position
    1. *)
Definition gh_volume : RamDisk :=
  volume [65535; 3; 65535; 65535]
    [file_entry "g" 8192 1; file_entry "h" 10 2].

Definition gh_opened := fs_open (Some (cstr "g")) (mounted gh_volume).
Definition gh_seeked := fs_lseek 0 4096 (snd gh_opened).

Definition gh_after_read : fs_state RamDisk :=
  match fs_read 0 1 (snd gh_seeked) with
  | Some (_, _, s') => s'
  | None => snd gh_seeked
  end.

(** A volume whose FAT does not start with the 0xFFFF sentinel. *)
Definition unmarked_volume : RamDisk := volume [0; 0; 0; 0] [].

(** A sound volume whose root-directory block (block 2) has gone bad. *)
Definition bad_root_volume : RamDisk :=
  mk_ram false (mkfs [65535; 0; 0; 0] [file_entry "x" 0 65535]) [2].

(** The state after "Hello" was written. *)
Definition hello_stored : fs_state RamDisk :=
  match hello_written with
  | Some (_, s') => s'
  | None => snd owner_opened
  end.

(** create("x") on the empty volume, then [fs_umount], then [fs_mount] in a
    fresh process; nothing but zeros follows the FAT array in memory. *)
Definition x_unmounted := fs_umount [] (snd s6_created).

Definition x_remounted : outcome RamDisk :=
  fs_mount "disk"%string (boot (disk (snd x_unmounted))).

(** ** Properties *)

(** S1 of the spec, where code and spec agree: on an empty volume of 10
    blocks (one FAT block, 7 data blocks) [fs_info] counts 6 free FAT
    entries out of 7 and 128 free directory slots. *)
Example s1_empty_volume_info :
  result (mount_fresh s1_volume) = Some 0
  /\ SuperBlock.total_blocks (super (mounted s1_volume)) = 10
  /\ SuperBlock.fat_blocks (super (mounted s1_volume)) = 1
  /\ SuperBlock.data_blocks (super (mounted s1_volume)) = 7
  /\ fat_free (mounted s1_volume) = 6
  /\ rdir_free (mounted s1_volume) = 128.
Proof. vm_compute. repeat split; reflexivity. Qed.

(** A write inside the block that the file owns reads back: "Hello" written
    at offset 0 of "f" (data block 1, block 4 of the volume) is returned by
    a read after seeking to 0. *)
Example hello_round_trip :
  option_map fst hello_written = Some 5
  /\ fst hello_seeked = 0
  /\ option_map (fun x => (fst (fst x), snd (fst x))) hello_read
     = Some (5, [72; 101; 108; 108; 111])
  /\ option_map (fun x => calls_since (snd owner_opened) (snd x)) hello_read
     = Some [EvRead 4; EvWrite 4; EvRead 4].
Proof. vm_compute. repeat split; reflexivity. Qed.

(** *** Generic facts about the helpers *)

Lemma to_int_small (z : Z) : - 2 ^ 31 <= z < 2 ^ 31 -> to_int z = z.
Proof. intros Hz. unfold to_int. rewrite Z.mod_small; lia. Qed.

Lemma to_int_succ_nonzero (z : Z) : 0 <= z < 2 ^ 31 -> to_int (z + 1) <> 0.
Proof.
  intros Hz. unfold to_int.
  destruct (Z.eq_dec z (2 ^ 31 - 1)) as [-> | Hne].
  - vm_compute. discriminate.
  - rewrite Z.mod_small; lia.
Qed.

Lemma count_if_insert {A} (p : A -> bool) (l : list A) (n : nat) (x y : A) :
  l !! n = Some y ->
  count_if p (<[n := x]> l)
  = count_if p l - (if p y then 1 else 0) + (if p x then 1 else 0).
Proof.
  revert n. induction l as [| a l IH]; intros [| n] Hy; simpl in *;
    try discriminate.
  - injection Hy as ->. lia.
  - rewrite (IH n Hy). lia.
Qed.

Lemma cell_lookup {A} (d : A) (l : list A) (i : Z) (x : A) :
  l !! Z.to_nat i = Some x -> cell d l i = x.
Proof. intros Hx. unfold cell. now rewrite Hx. Qed.

Lemma cell_store {A} (d : A) (l : list A) (i : Z) (x : A) :
  (Z.to_nat i < length l)%nat -> cell d (store l i x) i = x.
Proof.
  intros Hi. unfold cell, store. now rewrite list_lookup_insert_eq.
Qed.

(** Rewriting one cell with a value that [f] cannot tell from the old one
    leaves the [f]-image of the array as it was. *)
Lemma map_store_same {A B} (f : A -> B) (g : A -> A) (d : A) (l : list A)
    (i : Z) :
  (forall x, f (g x) = f x) ->
  map f (store l i (g (cell d l i))) = map f l.
Proof.
  intros Hfg. unfold store, cell.
  destruct (l !! Z.to_nat i) as [x |] eqn:Hx; simpl.
  - change (map f) with (fmap (M:=list) f).
    rewrite list_fmap_insert, Hfg.
    apply list_insert_id. now rewrite list_lookup_fmap, Hx.
  - rewrite list_insert_ge; [reflexivity |].
    now apply lookup_ge_None.
Qed.

Lemma find_from_bounds {A} (p : A -> bool) (l : list A) (i k : Z) :
  find_from p l i = Some k -> i <= k < i + Z.of_nat (length l).
Proof.
  revert i. induction l as [| x l IH]; intros i Hk; simpl in *;
    [discriminate |].
  destruct (p x).
  - injection Hk as <-. lia.
  - apply IH in Hk. lia.
Qed.

Lemma find_first_bounds {A} (p : A -> bool) (l : list A) (k : Z) :
  find_first p l = Some k -> 0 <= k < Z.of_nat (length l).
Proof. intros Hk. apply find_from_bounds in Hk. lia. Qed.

(** *** C9: [fs_create] and the open-file counter *)

Section Counter.

Context {D : Type} `{BlockDevice D}.

Lemma fs_delete_blocked (name : list Z) (s : fs_state D) :
  Files.open (files s) <> 0 -> fs_delete name s = Returns (-1) s.
Proof.
  intros Hopen. unfold fs_delete.
  destruct (find_first _ _); [| reflexivity].
  destruct (Z.eqb_spec (Files.open (files s)) 0); [contradiction | reflexivity].
Qed.

Lemma fs_create_success (name : list Z) (s s' : fs_state D) :
  fs_create name s = (0, s') ->
  Files.open (files s') = to_int (Files.open (files s) + 1)
  /\ Files.file (files s') = Files.file (files s)
  /\ disk s' = disk s /\ super s' = super s /\ io_log s' = io_log s.
Proof.
  unfold fs_create. intros Hc.
  destruct (strlen name >=? FS_FILENAME_LEN); [discriminate |].
  destruct (Files.open (files s) =? FS_FILE_MAX_COUNT); [discriminate |].
  destruct (find_first (same_name name) (entries s)); [discriminate |].
  destruct (find_first entry_free (entries s)); [| discriminate].
  injection Hc as <-. simpl. repeat split; reflexivity.
Qed.

(** Only [fs_close] lowers the counter: any other call leaves it or adds
    one. *)
Lemma perform_counter (c : call) (s s' : fs_state D) :
  is_close c = false ->
  perform c s = Some s' ->
  Files.open (files s') = Files.open (files s)
  \/ Files.open (files s') = to_int (Files.open (files s) + 1).
Proof.
  intros Hc Hrun. destruct c; simpl in Hrun; try discriminate.
  - unfold fs_mount in Hrun.
    destruct (block_disk_open _ _); [| injection Hrun as <-; now left].
    destruct (super_rejected _ _); [injection Hrun as <-; now left |].
    destruct (load_fat _ _ _ _ _) as [[ok words] log].
    destruct ok; cbn [negb] in Hrun; [| injection Hrun as <-; now left].
    destruct (_ !! 0%nat); [| discriminate].
    destruct (negb _); injection Hrun as <-; now left.
  - injection Hrun as <-. unfold fs_create.
    destruct (strlen _ >=? _); [now left |].
    destruct (_ =? FS_FILE_MAX_COUNT); [now left |].
    destruct (find_first (same_name _) _); [now left |].
    destruct (find_first entry_free _); [now right | now left].
  - unfold fs_delete in Hrun.
    destruct (find_first _ _); [| injection Hrun as <-; now left].
    destruct (_ =? 0); [| injection Hrun as <-; now left].
    destruct (_ <? _); [injection Hrun as <-; now left | discriminate].
  - injection Hrun as <-. unfold fs_open.
    destruct (_ =? FS_OPEN_MAX_COUNT); [now left |].
    destruct filename as [name |]; [| now left].
    destruct (find_first (same_name _) _); [| now left].
    destruct (find_first slot_free _); [now right | now left].
  - injection Hrun as <-. unfold fs_lseek.
    destruct (bad_fd s fd); [now left |].
    destruct (_ >? _); now left.
  - unfold fs_write in Hrun.
    destruct (bad_fd s fd); [injection Hrun as <-; now left |].
    destruct (find_first _ _); [| injection Hrun as <-; now left].
    destruct (write_loop _ _ _ _ _ _ _ _) as [[[[| w' o'] d'] log'] |];
      simpl in Hrun; try discriminate; injection Hrun as <-; [now left |].
    destruct (_ >? _); now left.
  - unfold fs_read in Hrun.
    destruct (bad_fd s fd); [injection Hrun as <-; now left |].
    destruct (find_first _ _); [| injection Hrun as <-; now left].
    destruct (_ >=? _); [injection Hrun as <-; now left |].
    destruct (read_loop _ _ _ _ _ _ _ _) as [[[[| r' o'] out'] log'] |];
      simpl in Hrun; try discriminate; injection Hrun as <-; now left.
Qed.

Lemma perform_all_counter (calls : list call) :
  forall s s' : fs_state D,
    existsb is_close calls = false ->
    perform_all calls s = Some s' ->
    1 <= Files.open (files s) ->
    Files.open (files s) + Z.of_nat (length calls) < 2 ^ 31 ->
    1 <= Files.open (files s').
Proof.
  induction calls as [| c calls IH]; intros s s' Hnone Hrun Hpos Hroom;
    simpl in *.
  - injection Hrun as <-. exact Hpos.
  - apply orb_false_iff in Hnone as [Hc Hrest].
    destruct (perform c s) as [s1 |] eqn:Hstep; [| discriminate].
    apply (IH s1 s' Hrest Hrun).
    + destruct (perform_counter c s s1 Hc Hstep) as [-> | ->];
        [exact Hpos |].
      rewrite to_int_small; lia.
    + destruct (perform_counter c s s1 Hc Hstep) as [-> | ->]; [lia |].
      rewrite to_int_small; lia.
Qed.

(** C9.  A successful [fs_create] adds one to [files.open] (as an [int])
    and leaves every slot of the open-file table as it was, whether free or
    occupied.  From a counter that is a non-negative [int], the counter is
    then non-zero, and it stays so through any further calls other than
    [fs_close] (as long as it does not overflow): [fs_delete] returns -1
    for every file name, changing nothing.  And [fs_create] returns -1,
    changing nothing, whenever the counter is 128. *)
Theorem fs_create_counts_as_open :
  (forall (name : list Z) (s s' : fs_state D),
      fs_create name s = (0, s') ->
      Files.open (files s') = to_int (Files.open (files s) + 1)
      /\ Files.file (files s') = Files.file (files s)
      /\ (0 <= Files.open (files s) ->
          forall (calls : list call) (s'' : fs_state D),
            existsb is_close calls = false ->
            perform_all calls s' = Some s'' ->
            Files.open (files s) + 1 + Z.of_nat (length calls) < 2 ^ 31 ->
            forall name' : list Z, fs_delete name' s'' = Returns (-1) s''))
  /\ (forall (name : list Z) (s : fs_state D),
        Files.open (files s) = FS_FILE_MAX_COUNT ->
        fs_create name s = (-1, s)).
Proof.
  split.
  - intros name s s' Hc.
    destruct (fs_create_success name s s' Hc) as (Hopen & Hfile & _).
    split; [exact Hopen |]. split; [exact Hfile |].
    intros Hrange calls s'' Hnone Hrun Hroom name'.
    apply fs_delete_blocked.
    rewrite to_int_small in Hopen by lia.
    pose proof (perform_all_counter calls s' s'' Hnone Hrun) as Hkeep.
    rewrite Hopen in Hkeep. lia.
  - intros name s Hfull. unfold fs_create.
    destruct (strlen name >=? FS_FILENAME_LEN); [reflexivity |].
    rewrite Hfull, Z.eqb_refl. reflexivity.
Qed.

End Counter.

(** On an empty volume: create("x") succeeds from a counter of 0 and makes
    it 1 without touching the slots; delete("x") is then refused, also
    after create("y") and a seek; a counter of 128 makes create fail. *)
Lemma fs_create_counts_as_open_witness :
  Files.open (files (snd s6_created)) = 1
  /\ fs_delete (cstr "x") (snd s6_created) = Returns (-1) (snd s6_created)
  /\ (forall s'' : fs_state RamDisk,
        perform_all [CallCreate (cstr "y"); CallLseek 0 0] (snd s6_created)
        = Some s'' ->
        fs_delete (cstr "x") s'' = Returns (-1) s'')
  /\ fs_create (cstr "y")
       (set_files (Files.mk 128 (Files.file Files.zero)) (mounted empty_volume))
     = (-1, set_files (Files.mk 128 (Files.file Files.zero))
              (mounted empty_volume)).
Proof.
  destruct (@fs_create_counts_as_open RamDisk _) as [Hcreate Hfull].
  destruct (Hcreate (cstr "x") (mounted empty_volume) (snd s6_created))
    as (Hopen & _ & Hdelete).
  { vm_compute. reflexivity. }
  assert (Hzero : 0 <= Files.open (files (mounted empty_volume)))
    by (vm_compute; discriminate).
  split; [| split; [| split]].
  - rewrite Hopen. vm_compute. reflexivity.
  - apply (Hdelete Hzero [] (snd s6_created)); [reflexivity .. |].
    vm_compute. reflexivity.
  - intros s'' Hrun.
    apply (Hdelete Hzero [CallCreate (cstr "y"); CallLseek 0 0] s'');
      [reflexivity | exact Hrun | vm_compute; reflexivity].
  - apply Hfull. vm_compute. reflexivity.
Defined.

(** *** C4: what [fs_delete] frees *)

(** C4, refuted as stated.  The chain of "f" has two blocks, 1 and 2; a
    successful delete("f") raises the number of free FAT entries from 1 to
    2 only, and entry 2 still reads 0xFFFF. *)
Lemma fs_delete_leaves_chain_tail :
  file_chain (mounted chained_volume) (entry (mounted chained_volume) 0)
  = [1; 2]
  /\ result chained_deleted = Some 0
  /\ fat_free (mounted chained_volume) = 1
  /\ fat_free (after chained_deleted (mounted chained_volume)) = 2
  /\ fat_flat (after chained_deleted (mounted chained_volume))
     = [65535; 0; 65535; 0].
Proof. vm_compute. repeat split; reflexivity. Qed.

Section Delete.

Context {D : Type} `{BlockDevice D}.

(** C4, as the code has it.  When a directory entry matches [name], no file
    is counted open and the entry's first_data_index [k] lies inside the
    FAT, [fs_delete] returns 0 having set FAT entry [k] alone to 0x0000 and
    zeroed the directory entry; the number of free FAT entries grows by one
    when entry [k] was in use and stays the same when it was already
    0x0000. *)
Theorem fs_delete_frees_first_entry_only :
  forall (name : list Z) (s : fs_state D) (i : Z),
    find_first (same_name name) (entries s) = Some i ->
    Files.open (files s) = 0 ->
    length (fat_flat s) = Z.to_nat (SuperBlock.data_blocks (super s)) ->
    0 <= Entry.data_index (entry s i) < SuperBlock.data_blocks (super s) ->
    exists s' : fs_state D,
      fs_delete name s = Returns 0 s'
      /\ fat_flat s'
         = <[Z.to_nat (Entry.data_index (entry s i)) := 0]> (fat_flat s)
      /\ entry s' i = Entry.zero
      /\ fat_free s'
         = fat_free s
           + (if cell 0 (fat_flat s) (Entry.data_index (entry s i)) =? 0
              then 0 else 1).
Proof.
  intros name s i Hfind Hopen Hlen Hk.
  remember (Entry.data_index (entry s i)) as k eqn:Ek.
  assert (Hkn : (Z.to_nat k < length (fat_flat s))%nat) by lia.
  eexists. unfold fs_delete. rewrite Hfind, Hopen. simpl.
  rewrite <- Ek. destruct (Z.ltb_spec k (Z.of_nat (length (fat_flat s)))); [| lia].
  split; [reflexivity |]. simpl. split; [reflexivity |]. split.
  - unfold entry. simpl. apply cell_store.
    apply find_first_bounds in Hfind. unfold entries in Hfind.
    rewrite length_take in Hfind. lia.
  - unfold fat_free, store. simpl. rewrite <- Hlen.
    rewrite !firstn_all2 by (rewrite ?length_insert; lia).
    destruct (lookup_lt_is_Some_2 _ _ Hkn) as [v Hv].
    rewrite (count_if_insert _ _ _ _ v Hv).
    rewrite (cell_lookup 0 _ _ v Hv), (Z.eqb_sym 0 v).
    change (0 =? 0) with true. cbv iota.
    destruct (v =? 0); lia.
Qed.

End Delete.

(** On the volume of the chain 1 -> 2: the entry matched is entry 0, FAT
    entry 1 was in use, and one entry is gained. *)
Lemma fs_delete_frees_first_entry_only_witness :
  exists s' : fs_state RamDisk,
    fs_delete (cstr "f") (mounted chained_volume) = Returns 0 s'
    /\ fat_flat s' = <[1%nat := 0]> (fat_flat (mounted chained_volume))
    /\ entry s' 0 = Entry.zero
    /\ fat_free s' = fat_free (mounted chained_volume) + 1.
Proof.
  apply (fs_delete_frees_first_entry_only (cstr "f") (mounted chained_volume) 0).
  - vm_compute. reflexivity.
  - vm_compute. reflexivity.
  - vm_compute. reflexivity.
  - vm_compute. split; [discriminate | reflexivity].
Defined.

(** *** The I/O loops: termination and final offset *)

Lemma chunk_bounds (remaining offset : Z) :
  0 < remaining ->
  1 <= chunk remaining offset <= remaining
  /\ chunk remaining offset <= BLOCK_SIZE - offset mod BLOCK_SIZE.
Proof.
  intros Hpos. unfold chunk, BLOCK_SIZE.
  pose proof (Z.mod_pos_bound offset 4096 ltac:(lia)) as Hmod.
  destruct (Z.gtb_spec (4096 - offset mod 4096) remaining); lia.
Qed.

Lemma size_t_small (z : Z) : 0 <= z < 2 ^ 64 -> size_t z = z.
Proof. intros Hz. unfold size_t. now apply Z.mod_small. Qed.

Section Loops.

Context {D : Type} `{BlockDevice D}.

Variables sdi edi : Z.

(** Enough fuel: the loops return. *)
Lemma write_loop_returns (fuel : nat) :
  forall (writing offset : Z) (buf : list Z) (d : D) (log : list io_event),
    (Z.to_nat writing < fuel)%nat ->
    exists res, write_loop fuel sdi edi writing offset buf d log = Some res.
Proof.
  induction fuel as [| fuel IH]; intros writing offset buf d log Hfuel;
    [lia |].
  simpl. destruct (Z.gtb_spec writing 0) as [Hpos |]; [| eauto].
  destruct (block_read _ d) as [buffer |]; [| eauto].
  destruct (block_write _ _ d) as [d' |]; [| eauto].
  apply IH. pose proof (chunk_bounds writing offset). lia.
Qed.

Lemma read_loop_returns (fuel : nat) :
  forall (reading offset : Z) (d : D) (out : list Z) (log : list io_event),
    (Z.to_nat reading < fuel)%nat ->
    exists res, read_loop fuel sdi edi reading offset d out log = Some res.
Proof.
  induction fuel as [| fuel IH]; intros reading offset d out log Hfuel;
    [lia |].
  simpl. destruct (Z.gtb_spec reading 0) as [Hpos |]; [| eauto].
  destruct (block_read _ d) as [buffer |]; [| eauto].
  apply IH. pose proof (chunk_bounds reading offset). lia.
Qed.

(** A loop that runs to its end has consumed everything and moved the
    offset by as much. *)
Lemma write_loop_done (fuel : nat) :
  forall (writing offset : Z) (buf : list Z) (d : D) (log : list io_event)
         (w' o' : Z) (d' : D) (log' : list io_event),
    write_loop fuel sdi edi writing offset buf d log
    = Some (LoopDone w' o', d', log') ->
    0 <= writing -> 0 <= offset -> offset + writing < 2 ^ 64 ->
    w' = 0 /\ o' = offset + writing.
Proof.
  induction fuel as [| fuel IH];
    intros writing offset buf d log w' o' d' log' Hrun Hw Ho Hsum;
    [discriminate |].
  simpl in Hrun. destruct (Z.gtb_spec writing 0) as [Hpos | Hzero].
  - destruct (block_read _ d) as [buffer |]; [| discriminate].
    destruct (block_write _ _ d) as [d1 |]; [| discriminate].
    pose proof (chunk_bounds writing offset Hpos) as [Hc _].
    rewrite size_t_small in Hrun by lia.
    apply IH in Hrun; lia.
  - injection Hrun as <- <- _ _. lia.
Qed.

Lemma read_loop_done (fuel : nat) :
  forall (reading offset : Z) (d : D) (out : list Z) (log : list io_event)
         (r' o' : Z) (out' : list Z) (log' : list io_event),
    read_loop fuel sdi edi reading offset d out log
    = Some (LoopDone r' o', out', log') ->
    0 <= reading -> 0 <= offset -> offset + reading < 2 ^ 64 ->
    r' = 0 /\ o' = offset + reading
    /\ length out' = (length out + Z.to_nat reading)%nat.
Proof.
  induction fuel as [| fuel IH];
    intros reading offset d out log r' o' out' log' Hrun Hr Ho Hsum;
    [discriminate |].
  simpl in Hrun. destruct (Z.gtb_spec reading 0) as [Hpos | Hzero].
  - destruct (block_read _ d) as [buffer |]; [| discriminate].
    pose proof (chunk_bounds reading offset Hpos) as [Hc _].
    rewrite size_t_small in Hrun by lia.
    apply IH in Hrun; try lia.
    destruct Hrun as (-> & -> & ->).
    unfold read_bytes.
    rewrite length_app, length_take, length_app, repeat_length. lia.
  - injection Hrun as <- <- <- _. lia.
Qed.

End Loops.

(** *** C1: [fs_write] and allocation *)

(** C1, refuted as stated.  With exactly two free data blocks, writing
    10000 bytes to the freshly created file returns -1 and leaves file_size
    at 0 (the first block addressed is 65535 blocks past the data region);
    writing them to a file that owns block 1 returns 10000 with file_size
    10000, and the FAT still shows two free blocks.  Neither result is
    8192. *)
Lemma fs_write_is_never_short :
  fat_free (snd s6_opened) = 2
  /\ option_map fst s4_first_write = Some (-1)
  /\ option_map (fun x => Entry.file_size (entry (snd x) 0)) s4_first_write
     = Some 0
  /\ fat_free (snd owner_opened) = 2
  /\ option_map fst s4_owner_write = Some 10000
  /\ option_map (fun x => Entry.file_size (entry (snd x) 0)) s4_owner_write
     = Some 10000
  /\ option_map (fun x => fat_flat (snd x)) s4_owner_write
     = Some [65535; 65535; 0; 0].
Proof. vm_compute. repeat split; reflexivity. Qed.

(** *** C2: which block holds a byte *)

Lemma div_block (a q : Z) :
  BLOCK_SIZE * q <= a < BLOCK_SIZE * (q + 1) -> a / BLOCK_SIZE = q.
Proof.
  unfold BLOCK_SIZE. intros Ha. symmetry.
  apply (Z.div_unique a 4096 q (a - 4096 * q)); lia.
Qed.

(** A round that leaves bytes to move ends on the next block boundary. *)
Lemma next_block (remaining offset : Z) :
  0 < remaining ->
  chunk remaining offset < remaining ->
  (offset + chunk remaining offset) / BLOCK_SIZE = offset / BLOCK_SIZE + 1.
Proof.
  intros Hpos Hless. apply div_block. revert Hless.
  unfold chunk, BLOCK_SIZE.
  pose proof (Z.div_mod offset 4096 ltac:(lia)) as Hdiv.
  pose proof (Z.mod_pos_bound offset 4096 ltac:(lia)) as Hmod.
  destruct (Z.gtb_spec (4096 - offset mod 4096) remaining); lia.
Qed.

(** A round that moves everything that remains stays inside its block. *)
Lemma span_last (remaining offset : Z) :
  0 < remaining ->
  chunk remaining offset = remaining ->
  span remaining offset = 1.
Proof.
  intros Hpos Hall. unfold span.
  destruct (Z.gtb_spec remaining 0); [| lia].
  pose proof (chunk_bounds remaining offset Hpos) as [_ Hfit].
  rewrite Hall in Hfit.
  rewrite (div_block (offset + remaining - 1) (offset / BLOCK_SIZE));
    [lia |].
  unfold BLOCK_SIZE in *.
  pose proof (Z.div_mod offset 4096 ltac:(lia)) as Hdiv.
  pose proof (Z.mod_pos_bound offset 4096 ltac:(lia)) as Hmod.
  lia.
Qed.

Lemma span_next (remaining offset : Z) :
  0 < remaining ->
  chunk remaining offset < remaining ->
  span remaining offset
  = span (remaining - chunk remaining offset)
      (offset + chunk remaining offset) + 1.
Proof.
  intros Hpos Hless. unfold span.
  rewrite (next_block remaining offset Hpos Hless).
  destruct (Z.gtb_spec remaining 0); [| lia].
  destruct (Z.gtb_spec (remaining - chunk remaining offset) 0); [| lia].
  replace (offset + chunk remaining offset
           + (remaining - chunk remaining offset) - 1)
    with (offset + remaining - 1) by lia.
  lia.
Qed.

Lemma span_pos (remaining offset : Z) : 0 < remaining -> 1 <= span remaining offset.
Proof.
  intros Hpos. unfold span. destruct (Z.gtb_spec remaining 0); [| lia].
  pose proof (Z.div_le_mono offset (offset + remaining - 1) BLOCK_SIZE
                ltac:(unfold BLOCK_SIZE; lia) ltac:(lia)).
  lia.
Qed.

Lemma span_none (remaining offset : Z) : remaining <= 0 -> span remaining offset = 0.
Proof.
  intros Hle. unfold span. destruct (Z.gtb_spec remaining 0); [lia | reflexivity].
Qed.

Section Addressing.

Context {D : Type} `{BlockDevice D}.

Variables sdi edi : Z.

(** The rounds of the read loop address consecutive chain positions, one
    block transfer each, starting at the position of [offset]; a loop that
    runs to its end has made one round per block touched. *)
Lemma read_loop_trace (fuel : nat) :
  forall (reading offset : Z) (d : D) (out : list Z) (log : list io_event)
         (ex : loop_exit) (out' : list Z) (log' : list io_event),
    read_loop fuel sdi edi reading offset d out log = Some (ex, out', log') ->
    0 <= offset -> offset + reading < 2 ^ 64 ->
    exists k : nat,
      log' = log ++ reads sdi edi (offset / BLOCK_SIZE) k
      /\ Z.of_nat k <= span reading offset
      /\ (ex <> LoopFail -> Z.of_nat k = span reading offset).
Proof.
  induction fuel as [| fuel IH];
    intros reading offset d out log ex out' log' Hrun Ho Hsum;
    [discriminate |].
  simpl in Hrun. destruct (Z.gtb_spec reading 0) as [Hpos | Hzero].
  - destruct (block_read _ d) as [buffer |].
    + pose proof (chunk_bounds reading offset Hpos) as [Hc _].
      rewrite size_t_small in Hrun by lia.
      apply IH in Hrun as (k & Hlog & Hle & Hex); try lia.
      destruct (Z.eq_dec (chunk reading offset) reading) as [Hall | Hless].
      * rewrite span_none in Hle, Hex by lia.
        assert (k = 0%nat) as -> by lia.
        exists 1%nat. rewrite (span_last _ _ Hpos Hall).
        unfold reads, block_of in *. simpl in *. rewrite app_nil_r in Hlog.
        split; [exact Hlog |]. split; [lia |]. intros _. lia.
      * assert (Hlt : chunk reading offset < reading) by lia.
        rewrite (next_block _ _ Hpos Hlt) in Hlog.
        rewrite (span_next _ _ Hpos Hlt).
        exists (S k). unfold reads, block_of in *. simpl.
        rewrite <- app_assoc in Hlog. split; [exact Hlog |].
        split; [lia |]. intros Hne. specialize (Hex Hne). lia.
    + injection Hrun as <- _ <-. exists 1%nat.
      pose proof (span_pos reading offset Hpos).
      unfold reads, block_of. simpl.
      split; [reflexivity |]. split; [lia | congruence].
  - injection Hrun as <- _ <-. exists 0%nat.
    rewrite span_none by lia. unfold reads. simpl.
    rewrite app_nil_r. split; [reflexivity |]. split; [lia |]. intros _. lia.
Qed.

(** The rounds of the write loop do the same with a read and a write of the
    block per round; a failed read ends the trace with that read alone. *)
Lemma write_loop_trace (fuel : nat) :
  forall (writing offset : Z) (buf : list Z) (d : D) (log : list io_event)
         (ex : loop_exit) (d' : D) (log' : list io_event),
    write_loop fuel sdi edi writing offset buf d log = Some (ex, d', log') ->
    0 <= offset -> offset + writing < 2 ^ 64 ->
    exists (k : nat) (last : list io_event),
      log' = log ++ updates sdi edi (offset / BLOCK_SIZE) k ++ last
      /\ (last = []
          \/ last = [EvRead (block_at sdi edi (offset / BLOCK_SIZE + Z.of_nat k))])
      /\ Z.of_nat (k + length last) <= span writing offset
      /\ (ex <> LoopFail -> Z.of_nat k = span writing offset /\ last = []).
Proof.
  induction fuel as [| fuel IH];
    intros writing offset buf d log ex d' log' Hrun Ho Hsum;
    [discriminate |].
  simpl in Hrun. destruct (Z.gtb_spec writing 0) as [Hpos | Hzero].
  - pose proof (span_pos writing offset Hpos) as Hspan.
    destruct (block_read _ d) as [buffer |].
    + destruct (block_write _ _ d) as [d1 |].
      * pose proof (chunk_bounds writing offset Hpos) as [Hc _].
        rewrite size_t_small in Hrun by lia.
        apply IH in Hrun as (k & last & Hlog & Hlast & Hle & Hex); try lia.
        destruct (Z.eq_dec (chunk writing offset) writing) as [Hall | Hless].
        -- rewrite span_none in Hle, Hex by lia.
           assert (k = 0%nat) as -> by lia.
           assert (last = []) as ->
               by (destruct last; [reflexivity | simpl in Hle; lia]).
           exists 1%nat, []. rewrite (span_last _ _ Hpos Hall).
           unfold updates, block_of in *. simpl in *.
           rewrite <- app_assoc in Hlog.
           split; [exact Hlog |]. split; [now left |].
           split; [lia |]. intros _. split; [lia | reflexivity].
        -- assert (Hlt : chunk writing offset < writing) by lia.
           rewrite (next_block _ _ Hpos Hlt) in Hlog, Hlast.
           rewrite (span_next _ _ Hpos Hlt).
           exists (S k), last. unfold updates, block_of in *. simpl.
           rewrite <- app_assoc in Hlog. split; [exact Hlog |].
           split.
           { destruct Hlast as [-> | ->]; [now left | right].
             do 3 f_equal. lia. }
           split; [lia |]. intros Hne. destruct (Hex Hne).
           split; [lia | assumption].
      * injection Hrun as <- _ <-. exists 1%nat, [].
        unfold updates, block_of. simpl.
        split; [reflexivity |]. split; [now left |].
        split; [lia | congruence].
    + injection Hrun as <- _ <-.
      exists 0%nat, [EvRead (block_of sdi edi offset)].
      unfold updates, block_of. simpl. rewrite Z.add_0_r.
      split; [reflexivity |]. split; [now right |].
      split; [lia | congruence].
  - injection Hrun as <- _ <-. exists 0%nat, [].
    rewrite span_none by lia. unfold updates. simpl.
    rewrite app_nil_r. split; [reflexivity |]. split; [now left |].
    split; [lia |]. intros _. split; [lia | reflexivity].
Qed.

End Addressing.

Lemma span_nonneg (remaining offset : Z) : 0 <= span remaining offset.
Proof.
  destruct (Z_lt_le_dec 0 remaining) as [Hpos | Hle].
  - pose proof (span_pos remaining offset Hpos). lia.
  - rewrite span_none; lia.
Qed.

Lemma span_mono (r1 r2 offset : Z) : r1 <= r2 -> span r1 offset <= span r2 offset.
Proof.
  intros Hle. destruct (Z_lt_le_dec 0 r1) as [Hpos | Hnone].
  - unfold span.
    destruct (Z.gtb_spec r1 0); [| lia]. destruct (Z.gtb_spec r2 0); [| lia].
    pose proof
      (Z.div_le_mono (offset + r1 - 1) (offset + r2 - 1) BLOCK_SIZE
         ltac:(unfold BLOCK_SIZE; lia) ltac:(lia)).
    lia.
  - rewrite (span_none r1) by lia. apply span_nonneg.
Qed.

(** *** What the rounds of [fs_write] do to the device *)

(** The first round of a write patches the block of the offset with the
    bytes of one chunk. *)
Lemma patch_of_first (writing offset : Z) (buf old : list Z) :
  0 < writing -> 0 <= offset ->
  patch_of offset writing buf (offset / BLOCK_SIZE) old
  = memcpy_at old (offset mod BLOCK_SIZE) buf (chunk writing offset).
Proof.
  intros Hpos Ho. unfold patch_of, chunk, BLOCK_SIZE.
  pose proof (Z.div_mod offset 4096 ltac:(lia)) as Hdiv.
  pose proof (Z.mod_pos_bound offset 4096 ltac:(lia)) as Hmod.
  rewrite Z.max_l by lia. rewrite Z.sub_diag. cbn [Z.to_nat drop].
  f_equal. destruct (Z.gtb_spec (4096 - offset mod 4096) writing); lia.
Qed.

(** The later rounds patch their blocks as the rest of the write would. *)
Lemma patch_of_next (writing offset : Z) (buf old : list Z) (q : Z) :
  0 < writing -> 0 <= offset ->
  chunk writing offset < writing ->
  offset / BLOCK_SIZE + 1 <= q ->
  patch_of (offset + chunk writing offset) (writing - chunk writing offset)
    (drop (Z.to_nat (chunk writing offset)) buf) q old
  = patch_of offset writing buf q old.
Proof.
  intros Hpos Ho Hless Hq.
  assert (Hend :
      offset + chunk writing offset = BLOCK_SIZE * (offset / BLOCK_SIZE + 1)).
  { revert Hless. unfold chunk, BLOCK_SIZE.
    pose proof (Z.div_mod offset 4096 ltac:(lia)) as Hdiv.
    destruct (Z.gtb_spec (4096 - offset mod 4096) writing); lia. }
  pose proof (chunk_bounds writing offset Hpos) as [Hc _].
  unfold patch_of.
  replace (offset + chunk writing offset + (writing - chunk writing offset))
    with (offset + writing) by lia.
  assert (Hq' : offset + chunk writing offset <= BLOCK_SIZE * q)
    by (rewrite Hend; unfold BLOCK_SIZE in *; lia).
  rewrite !Z.max_r by lia. rewrite drop_drop. do 2 f_equal. lia.
Qed.

Section WriteRun.

Context {D : Type} `{BlockDevice D}.

Variables sdi edi : Z.

Lemma rewritten_ext (f g : Z -> list Z -> list Z) (k : nat) :
  forall (p : Z) (d d' : D),
    (forall (q : Z) (old : list Z), p <= q -> f q old = g q old) ->
    rewritten f sdi edi p k d d' -> rewritten g sdi edi p k d d'.
Proof.
  induction k as [| k IH]; intros p d d' Hext Hrun; [exact Hrun |].
  cbn [rewritten] in *. destruct Hrun as (old & d1 & Hr & Hw & Hrest).
  exists old, d1. split; [exact Hr |].
  split; [now rewrite <- Hext by lia |].
  apply (IH (p + 1) d1 d'); [| exact Hrest].
  intros q old' Hq. apply Hext. lia.
Qed.

(** A write loop that runs to its end has read and written back, patched
    with the caller's bytes, the block of every chain position that the
    bytes touch, in order; one that fails has done so for the positions
    before the one whose read or write failed, and the device is as that
    failed call found it. *)
Lemma write_loop_run (fuel : nat) :
  forall (writing offset : Z) (buf : list Z) (d : D) (log : list io_event)
         (ex : loop_exit) (d' : D) (log' : list io_event),
    write_loop fuel sdi edi writing offset buf d log = Some (ex, d', log') ->
    0 <= offset -> offset + writing < 2 ^ 64 ->
    match ex with
    | LoopDone _ _ =>
        exists k : nat,
          Z.of_nat k = span writing offset
          /\ rewritten (patch_of offset writing buf) sdi edi
               (offset / BLOCK_SIZE) k d d'
          /\ log' = log ++ updates sdi edi (offset / BLOCK_SIZE) k
    | LoopFail =>
        exists k : nat,
          Z.of_nat k < span writing offset
          /\ rewritten (patch_of offset writing buf) sdi edi
               (offset / BLOCK_SIZE) k d d'
          /\ ((block_read
                 (block_at sdi edi (offset / BLOCK_SIZE + Z.of_nat k)) d'
               = None
               /\ log'
                  = log ++ updates sdi edi (offset / BLOCK_SIZE) k
                      ++ [EvRead
                            (block_at sdi edi
                               (offset / BLOCK_SIZE + Z.of_nat k))])
              \/ (exists old : list Z,
                    block_read
                      (block_at sdi edi (offset / BLOCK_SIZE + Z.of_nat k)) d'
                    = Some old
                    /\ block_write
                         (block_at sdi edi (offset / BLOCK_SIZE + Z.of_nat k))
                         (patch_of offset writing buf
                            (offset / BLOCK_SIZE + Z.of_nat k) old)
                         d'
                       = None
                    /\ log'
                       = log ++ updates sdi edi (offset / BLOCK_SIZE) (S k)))
    end.
Proof.
  induction fuel as [| fuel IH];
    intros writing offset buf d log ex d' log' Hrun Ho Hsum;
    [discriminate |].
  simpl in Hrun. destruct (Z.gtb_spec writing 0) as [Hpos | Hzero].
  - pose proof (span_pos writing offset Hpos) as Hspan.
    destruct (block_read (block_of sdi edi offset) d) as [buffer |] eqn:Hr.
    + rewrite <- (patch_of_first writing offset buf buffer Hpos Ho) in Hrun.
      destruct (block_write (block_of sdi edi offset) _ d) as [d1 |] eqn:Hw.
      * pose proof (chunk_bounds writing offset Hpos) as [Hc _].
        rewrite size_t_small in Hrun by lia.
        apply IH in Hrun; try lia.
        destruct (Z.eq_dec (chunk writing offset) writing) as [Hall | Hless].
        -- rewrite span_none in Hrun by lia.
           destruct ex as [| w' o'].
           ++ destruct Hrun as (k & Hk & _). lia.
           ++ destruct Hrun as (k & Hk & Hrw & Hlog).
              assert (k = 0%nat) as -> by lia.
              exists 1%nat. rewrite (span_last _ _ Hpos Hall).
              split; [reflexivity |]. split.
              ** cbn [rewritten] in *. exists buffer, d1.
                 split; [exact Hr |]. split; [exact Hw | exact Hrw].
              ** unfold updates in *. simpl in *.
                 rewrite app_nil_r in Hlog. exact Hlog.
        -- assert (Hlt : chunk writing offset < writing) by lia.
           rewrite (next_block _ _ Hpos Hlt) in Hrun.
           rewrite (span_next _ _ Hpos Hlt).
           assert (Hstep :
               forall k : nat,
                 rewritten
                   (patch_of (offset + chunk writing offset)
                      (writing - chunk writing offset)
                      (drop (Z.to_nat (chunk writing offset)) buf))
                   sdi edi (offset / BLOCK_SIZE + 1) k d1 d' ->
                 rewritten (patch_of offset writing buf) sdi edi
                   (offset / BLOCK_SIZE) (S k) d d').
           { intros k Hk. cbn [rewritten]. exists buffer, d1.
             split; [exact Hr |]. split; [exact Hw |].
             revert Hk. apply rewritten_ext. intros q old Hq.
             now apply patch_of_next. }
           destruct ex as [| w' o'].
           ++ destruct Hrun as (k & Hk & Hrw & Hcase).
              exists (S k). split; [lia |]. split; [now apply Hstep |].
              replace (offset / BLOCK_SIZE + Z.of_nat (S k))
                with (offset / BLOCK_SIZE + 1 + Z.of_nat k) by lia.
              destruct Hcase as [[Hfail ->] | (old & Hold & Hfail & ->)].
              ** left. split; [exact Hfail |].
                 unfold updates. simpl. now rewrite <- !app_assoc.
              ** right. exists old. split; [exact Hold |].
                 rewrite patch_of_next in Hfail by lia.
                 split; [exact Hfail |].
                 unfold updates. simpl. now rewrite <- !app_assoc.
           ++ destruct Hrun as (k & Hk & Hrw & ->).
              exists (S k). split; [lia |]. split; [now apply Hstep |].
              unfold updates. simpl. now rewrite <- !app_assoc.
      * injection Hrun as <- <- <-. exists 0%nat.
        split; [lia |]. split; [reflexivity |]. right.
        rewrite Z.add_0_r. exists buffer.
        split; [exact Hr |]. split; [exact Hw |].
        unfold updates, block_of. simpl. reflexivity.
    + injection Hrun as <- <- <-. exists 0%nat.
      split; [lia |]. split; [reflexivity |]. left.
      rewrite Z.add_0_r. split; [exact Hr |].
      unfold updates, block_of. simpl. reflexivity.
  - injection Hrun as <- <- <-. exists 0%nat.
    rewrite span_none by lia. split; [reflexivity |].
    split; [reflexivity |]. unfold updates. simpl. now rewrite app_nil_r.
Qed.

End WriteRun.

Section Write.

Context {D : Type} `{BlockDevice D}.

(** C1, as the code has it.  [fs_write] always returns, and never
    allocates: the superblock, the FAT and the first_data_index of every
    directory entry are as before.  With a bad descriptor, or when no
    directory entry has the handle's name, it returns -1 and changes
    nothing.  Otherwise it reads and writes back, patched with the
    caller's bytes, in order, the blocks
    data_index + (first_data_index + p) of the chain positions
    p = offset / 4096, offset / 4096 + 1, ... that the bytes touch: either
    one of these transfers fails, and it returns -1 with the open-file
    table and the directory untouched, or all of them succeed, and it
    returns [count] itself -- never a smaller count -- with the handle's
    offset at offset + count and file_size raised to it when that is
    larger. *)
Theorem fs_write_never_allocates :
  forall (fd : Z) (buf : list Z) (count : Z) (s : fs_state D),
  exists (r : Z) (s' : fs_state D),
    fs_write fd buf count s = Some (r, s')
    /\ super s' = super s
    /\ fat_flat s' = fat_flat s
    /\ map Entry.data_index (root_entry s')
       = map Entry.data_index (root_entry s)
    /\ (bad_fd s fd = true
        \/ find_first (same_name (File.filename (slot s fd))) (entries s) = None ->
        r = -1 /\ s' = s)
    /\ (forall i : Z,
          bad_fd s fd = false ->
          find_first (same_name (File.filename (slot s fd))) (entries s)
          = Some i ->
          0 <= count ->
          0 <= File.offset (slot s fd) ->
          File.offset (slot s fd) + count < 2 ^ 64 ->
          (r = -1
           /\ files s' = files s
           /\ root_entry s' = root_entry s
           /\ exists k : nat,
               Z.of_nat k < span count (File.offset (slot s fd))
               /\ rewritten (patch_of (File.offset (slot s fd)) count buf)
                    (SuperBlock.data_index (super s))
                    (Entry.data_index (entry s i))
                    (File.offset (slot s fd) / BLOCK_SIZE) k (disk s) (disk s')
               /\ (block_read
                     (block_at (SuperBlock.data_index (super s))
                        (Entry.data_index (entry s i))
                        (File.offset (slot s fd) / BLOCK_SIZE + Z.of_nat k))
                     (disk s')
                   = None
                   \/ exists old : list Z,
                       block_read
                         (block_at (SuperBlock.data_index (super s))
                            (Entry.data_index (entry s i))
                            (File.offset (slot s fd) / BLOCK_SIZE + Z.of_nat k))
                         (disk s')
                       = Some old
                       /\ block_write
                            (block_at (SuperBlock.data_index (super s))
                               (Entry.data_index (entry s i))
                               (File.offset (slot s fd) / BLOCK_SIZE
                                + Z.of_nat k))
                            (patch_of (File.offset (slot s fd)) count buf
                               (File.offset (slot s fd) / BLOCK_SIZE
                                + Z.of_nat k)
                               old)
                            (disk s')
                          = None))
          \/ (r = to_int count
              /\ rewritten (patch_of (File.offset (slot s fd)) count buf)
                   (SuperBlock.data_index (super s))
                   (Entry.data_index (entry s i))
                   (File.offset (slot s fd) / BLOCK_SIZE)
                   (Z.to_nat (span count (File.offset (slot s fd))))
                   (disk s) (disk s')
              /\ files s'
                 = Files.mk (Files.open (files s))
                     (store (Files.file (files s)) fd
                        (File.set_offset (File.offset (slot s fd) + count)
                           (slot s fd)))
              /\ root_entry s'
                 = (if File.offset (slot s fd) + count
                       >? Entry.file_size (entry s i)
                    then store (root_entry s) i
                           (Entry.set_file_size
                              (uint32_t (File.offset (slot s fd) + count))
                              (entry s i))
                    else root_entry s)))
    /\ ((r = -1 /\ files s' = files s /\ root_entry s' = root_entry s)
        \/ (r = to_int count
            /\ exists i o' : Z,
                find_first (same_name (File.filename (slot s fd))) (entries s)
                = Some i
                /\ files s'
                   = Files.mk (Files.open (files s))
                       (store (Files.file (files s)) fd
                          (File.set_offset o' (slot s fd)))
                /\ root_entry s'
                   = (if o' >? Entry.file_size (entry s i)
                      then store (root_entry s) i
                             (Entry.set_file_size (uint32_t o') (entry s i))
                      else root_entry s))).
Proof.
  intros fd buf count s. unfold fs_write.
  destruct (bad_fd s fd) eqn:Hbad.
  { exists (-1), s. split; [reflexivity |]. do 3 (split; [reflexivity |]).
    split; [auto |]. split; [intros i Hb; discriminate | left; auto]. }
  destruct (find_first _ (entries s)) as [i |] eqn:Hfind.
  2: { exists (-1), s. split; [reflexivity |]. do 3 (split; [reflexivity |]).
       split; [auto |]. split; [intros i _ Hf; discriminate | left; auto]. }
  destruct
    (write_loop_returns (SuperBlock.data_index (super s))
       (Entry.data_index (entry s i)) (S (Z.to_nat count)) count
       (File.offset (slot s fd)) buf (disk s) (io_log s) ltac:(lia))
    as [[[ex d'] log'] Hrun].
  rewrite Hrun. destruct ex as [| w' o'].
  - eexists _, _. split; [reflexivity |]. do 3 (split; [reflexivity |]).
    split; [intros [Hc | Hc]; discriminate |].
    split; [| left; repeat split].
    intros i' _ Hf Hcount Ho Hsum. injection Hf as <-.
    left. do 3 (split; [reflexivity |]).
    apply write_loop_run in Hrun as (k & Hk & Hrw & Hcase); try lia.
    exists k. split; [exact Hk |]. split; [exact Hrw |].
    destruct Hcase as [[Hfail _] | (old & Hold & Hfail & _)];
      [left; exact Hfail | right; exists old; split; assumption].
  - eexists _, _. split; [reflexivity |].
    split; [destruct (o' >? Entry.file_size (entry s i)); reflexivity |].
    split; [destruct (o' >? Entry.file_size (entry s i)); reflexivity |].
    split.
    { destruct (o' >? Entry.file_size (entry s i)); simpl; [| reflexivity].
      apply (map_store_same Entry.data_index
               (Entry.set_file_size (uint32_t o')) Entry.zero).
      reflexivity. }
    split; [intros [Hc | Hc]; discriminate |].
    split.
    + intros i' _ Hf Hcount Ho Hsum. injection Hf as <-.
      right. split; [reflexivity |].
      destruct (write_loop_done _ _ _ _ _ _ _ _ _ _ _ _ Hrun Hcount Ho Hsum)
        as [_ ->].
      apply write_loop_run in Hrun as (k & Hk & Hrw & _); try lia.
      rewrite <- Hk, Nat2Z.id. split; [| split].
      * destruct (_ >? Entry.file_size (entry s i)); exact Hrw.
      * destruct (_ >? Entry.file_size (entry s i)); reflexivity.
      * destruct (_ >? Entry.file_size (entry s i)); reflexivity.
    + right. split; [reflexivity |]. exists i, o'.
      split; [reflexivity |]. split.
      * destruct (o' >? Entry.file_size (entry s i)); reflexivity.
      * destruct (o' >? Entry.file_size (entry s i)); reflexivity.
Qed.

End Write.

(** C2, refuted as stated.  Chain position 1 of "g" is data block 3, that
    is block 6 of the volume; reading or writing one byte at offset 4096
    transfers block 5 = data_index + first_data_index + 1, the block of
    "h". *)
Lemma chain_position_is_not_followed :
  fst gh_opened = 0 /\ fst gh_seeked = 0
  /\ SuperBlock.data_index (super (snd gh_seeked)) = 3
  /\ chain_nth (snd gh_seeked) (entry (snd gh_seeked) 0) 1 = Some 3
  /\ option_map (fun x => calls_since (snd gh_seeked) (snd x))
       (fs_read 0 1 (snd gh_seeked))
     = Some [EvRead 5]
  /\ option_map (fun x => calls_since (snd gh_seeked) (snd x))
       (fs_write 0 [9] 1 (snd gh_seeked))
     = Some [EvRead 5; EvWrite 5].
Proof. vm_compute. repeat split; reflexivity. Qed.

(** *** C8: when [fs_mount] fails *)

Lemma memcmp_zero_iff (n : nat) :
  forall a b : list Z,
    length a = n -> length b = n -> memcmp a b n = 0 <-> a = b.
Proof.
  induction n as [| n IH]; intros [| x a] [| y b] Ha Hb; simpl in *;
    try discriminate; [tauto |].
  destruct (Z.eqb_spec x y) as [-> | Hne].
  - rewrite IH by lia. split; congruence.
  - split; [lia | congruence].
Qed.

Lemma length_read_bytes (b : list Z) (n : nat) : length (read_bytes b n) = n.
Proof.
  unfold read_bytes. rewrite length_take, length_app, repeat_length. lia.
Qed.

Section Mount.

Context {D : Type} `{BlockDevice D}.

Lemma super_rejected_spec (sb : SuperBlock.t) (d : D) :
  length (SuperBlock.signature sb) = 8%nat ->
  0 <= SuperBlock.data_blocks sb < 2 ^ 16 ->
  super_rejected sb d = false <-> super_valid sb d.
Proof.
  intros Hsig Hdb. unfold super_rejected, super_valid.
  assert (Hmin :
      uint8_t ((SuperBlock.data_blocks sb * 2 + BLOCK_SIZE - 1) / BLOCK_SIZE)
      = (SuperBlock.data_blocks sb * 2 + (BLOCK_SIZE - 1)) / BLOCK_SIZE).
  { unfold uint8_t, BLOCK_SIZE.
    replace (SuperBlock.data_blocks sb * 2 + 4096 - 1)
      with (SuperBlock.data_blocks sb * 2 + (4096 - 1)) by lia.
    apply Z.mod_small. split.
    - apply Z.div_pos; lia.
    - apply Z.div_lt_upper_bound; lia. }
  rewrite Hmin.
  rewrite !orb_false_iff, !negb_false_iff, !Z.eqb_eq.
  rewrite (memcmp_zero_iff 8 (bytes_of_string "ECS150FS")
             (SuperBlock.signature sb) eq_refl Hsig).
  intuition congruence.
Qed.

(** The FAT loop fails as soon as one of its reads fails. *)
Lemma load_fat_fails (n : nat) :
  forall (i : Z) (d : D) (words : list Z) (log : list io_event) (k : Z),
    i + 1 <= k <= i + Z.of_nat n ->
    block_read k d = None ->
    fst (fst (load_fat n i d words log)) = false.
Proof.
  induction n as [| n IH]; intros i d words log k Hk Hread; [lia |].
  cbn [load_fat].
  destruct (block_read (i + 1) d) as [buffer |] eqn:Hfirst;
    [| reflexivity].
  apply (IH _ _ _ _ k); [| exact Hread].
  destruct (Z.eq_dec k (i + 1)) as [-> | Hne]; [congruence | lia].
Qed.

(** What the loop has loaded starts with what was there. *)
Lemma load_fat_extends (n : nat) :
  forall (i : Z) (d : D) (words : list Z) (log : list io_event),
    exists rest : list Z,
      snd (fst (load_fat n i d words log)) = words ++ rest.
Proof.
  induction n as [| n IH]; intros i d words log; cbn [load_fat].
  - exists []. now rewrite app_nil_r.
  - destruct (block_read (i + 1) d) as [buffer |].
    + destruct (IH (i + 1) d (words ++ decode_words 2048 buffer)
                  (log ++ [EvRead (i + 1)])) as [rest ->].
      exists (decode_words 2048 buffer ++ rest). now rewrite app_assoc.
    + exists []. now rewrite app_nil_r.
Qed.

Lemma decode_words_first (n : nat) (b rest : list Z) :
  (0 <? n)%nat = true ->
  (decode_words n b ++ rest) !! 0%nat = Some (le_uint (read_bytes b 2)).
Proof. destruct n as [| n]; [discriminate | reflexivity]. Qed.

(** When its first read succeeds, the first entry loaded is the first
    little-endian word of block 1. *)
Lemma load_fat_first (n : nat) (d : D) (log : list io_event) (b : list Z) :
  (0 < n)%nat ->
  block_read 1 d = Some b ->
  snd (fst (load_fat n 0 d [] log)) !! 0%nat = Some (le_uint (read_bytes b 2)).
Proof.
  intros Hn Hread. destruct n as [| n]; [lia |].
  cbn [load_fat]. change (0 + 1) with 1. rewrite Hread.
  destruct (load_fat_extends n 1 d ([] ++ decode_words 2048 b)
              (log ++ [EvRead 1])) as [rest ->].
  apply decode_words_first. vm_compute. reflexivity.
Qed.

(** What the loop has loaded is what the FAT blocks hold, up to the first
    one that does not read. *)
Lemma load_fat_words (n : nat) :
  forall (i : Z) (d : D) (words : list Z) (log : list io_event),
    snd (fst (load_fat n i d words log)) = words ++ fat_on_volume n i d.
Proof.
  induction n as [| n IH]; intros i d words log;
    cbn [load_fat fat_on_volume].
  - cbn [fst snd]. now rewrite app_nil_r.
  - destruct (block_read (i + 1) d) as [buffer |].
    + rewrite IH. now rewrite <- app_assoc.
    + cbn [fst snd]. now rewrite app_nil_r.
Qed.

(** C8, as the code has it.  [fs_mount] returns -1 and changes nothing when
    the device fails to open.  Once the device is open and block 0 has been
    read, it returns -1 when the superblock violates one of the five
    invariants, when the read of a FAT block fails, and when FAT entry 0
    (the first word of block 1) is not 0xFFFF.  The state it leaves is not
    the previous one: the device is open and the superblock image is the
    one just read; the FAT image is untouched when the superblock is
    rejected, and otherwise holds the entries of the FAT blocks read
    before the failure (cut to [data_blocks] entries); the root directory
    and the open-file table are untouched. *)
Theorem fs_mount_fails_when :
  forall (diskname : string) (s : fs_state D),
    (block_disk_open diskname (disk s) = None ->
     fs_mount diskname s = Returns (-1) s)
    /\ (forall (d : D) (b0 : list Z),
          block_disk_open diskname (disk s) = Some d ->
          block_read 0 d = Some b0 ->
          0 <= SuperBlock.data_blocks (SuperBlock.decode b0) < 2 ^ 16 ->
          ~ super_valid (SuperBlock.decode b0) d
          \/ (exists k : Z,
                1 <= k <= SuperBlock.fat_blocks (SuperBlock.decode b0)
                /\ block_read k d = None)
          \/ (exists b1 : list Z,
                block_read 1 d = Some b1
                /\ 1 <= SuperBlock.data_blocks (SuperBlock.decode b0)
                /\ le_uint (read_bytes b1 2) <> 65535) ->
          exists s' : fs_state D,
            fs_mount diskname s = Returns (-1) s'
            /\ super s' = SuperBlock.decode b0
            /\ disk s' = d
            /\ root_entry s' = root_entry s
            /\ files s' = files s
            /\ (~ super_valid (SuperBlock.decode b0) d ->
                fat_flat s' = fat_flat s)
            /\ (super_valid (SuperBlock.decode b0) d ->
                fat_flat s'
                = take (Z.to_nat (SuperBlock.data_blocks (SuperBlock.decode b0)))
                    (fat_on_volume
                       (Z.to_nat (SuperBlock.fat_blocks (SuperBlock.decode b0)))
                       0 d))).
Proof.
  intros diskname s. split.
  { intros Hopen. unfold fs_mount. now rewrite Hopen. }
  intros d b0 Hopen Hread0 Hdb Hcause.
  unfold fs_mount. rewrite Hopen, Hread0.
  set (sb := SuperBlock.decode b0) in *.
  pose proof (super_rejected_spec sb d (length_read_bytes _ _) Hdb) as Hspec.
  destruct (super_rejected sb d) eqn:Hrej.
  { eexists. split; [reflexivity |]. do 4 (split; [reflexivity |]).
    split; [reflexivity |]. intros Hvalid. apply Hspec in Hvalid.
    discriminate. }
  clear Hrej. assert (Hrej : super_valid sb d) by now apply Hspec.
  clear Hspec.
  destruct
    (load_fat (Z.to_nat (SuperBlock.fat_blocks sb)) 0 d []
       (io_log
          (set_io_log (io_log s ++ [EvRead 0]) (set_super sb (set_disk d s)))))
    as [[ok words] log] eqn:Hload.
  assert (Hwords :
      words = fat_on_volume (Z.to_nat (SuperBlock.fat_blocks sb)) 0 d).
  { pose proof (load_fat_words (Z.to_nat (SuperBlock.fat_blocks sb)) 0 d []
                  (io_log
                     (set_io_log (io_log s ++ [EvRead 0])
                        (set_super sb (set_disk d s))))) as Hw.
    rewrite Hload in Hw. exact Hw. }
  destruct ok; cbn [negb].
  2: { eexists. split; [reflexivity |]. do 4 (split; [reflexivity |]).
       split; [intros Hno; contradiction |]. intros _.
       cbn [fat_flat set_io_log set_fat_flat]. now rewrite Hwords. }
  destruct Hcause as [Hbad | [(k & Hk & Hfail) | (b1 & Hread1 & Hone & Hword)]].
  - contradiction.
  - pose proof (load_fat_fails (Z.to_nat (SuperBlock.fat_blocks sb)) 0 d []
                  (io_log
                     (set_io_log (io_log s ++ [EvRead 0])
                        (set_super sb (set_disk d s))))
                  k ltac:(lia) Hfail) as Hok.
    rewrite Hload in Hok. discriminate.
  - assert (Hfat : (0 < Z.to_nat (SuperBlock.fat_blocks sb))%nat).
    { destruct Hrej as (_ & _ & _ & _ & ->). unfold BLOCK_SIZE.
      pose proof (Z.div_le_mono 4096 (SuperBlock.data_blocks sb * 2 + (4096 - 1))
                    4096 ltac:(lia) ltac:(lia)) as Hdiv.
      rewrite Z.div_same in Hdiv by lia. lia. }
    pose proof (load_fat_first _ d
                  (io_log
                     (set_io_log (io_log s ++ [EvRead 0])
                        (set_super sb (set_disk d s))))
                  b1 Hfat Hread1) as Hfirst.
    rewrite Hload in Hfirst. cbn [fst snd] in Hfirst.
    cbn [fat_flat set_io_log set_fat_flat].
    rewrite lookup_take_lt by lia. rewrite Hfirst.
    destruct (Z.eqb_spec (le_uint (read_bytes b1 2)) 65535); [contradiction |].
    cbn [negb]. eexists. split; [reflexivity |].
    do 4 (split; [reflexivity |]).
    split; [intros Hno; contradiction |]. intros _.
    cbn [fat_flat set_io_log set_fat_flat]. now rewrite Hwords.
Qed.

End Mount.

(** C8, refuted as stated.  Mounting the unmarked volume in a fresh process
    fails, yet the superblock and FAT images of the process are no longer
    the initial ones: they hold what was read from the volume. *)
Lemma fs_mount_failure_keeps_images :
  result (mount_fresh unmarked_volume) = Some (-1)
  /\ SuperBlock.total_blocks (super (boot unmarked_volume)) = 0
  /\ SuperBlock.total_blocks (super (mounted unmarked_volume)) = 7
  /\ fat_flat (boot unmarked_volume) = []
  /\ fat_flat (mounted unmarked_volume) = [0; 0; 0; 0].
Proof. vm_compute. repeat split; reflexivity. Qed.

(** The result of reading the root-directory block is not inspected: with
    that block unreadable the mount succeeds and the directory image stays
    as it was, here the empty one although the volume holds "x". *)
Lemma fs_mount_ignores_root_read :
  block_read 2 (mk_ram true (rd_blocks bad_root_volume) [2]) = None
  /\ result (mount_fresh bad_root_volume) = Some 0
  /\ root_entry (mounted bad_root_volume) = repeat Entry.zero 128.
Proof. vm_compute. repeat split; reflexivity. Qed.

(** On the unmarked volume the first word of block 1 is 0: the mount
    fails and leaves the four FAT entries of the volume in memory. *)
Lemma fs_mount_fails_when_witness :
  exists s' : fs_state RamDisk,
    mount_fresh unmarked_volume = Returns (-1) s'
    /\ super s' = SuperBlock.decode (pad_block (hd [] (rd_blocks unmarked_volume)))
    /\ disk s' = mk_ram true (rd_blocks unmarked_volume) []
    /\ root_entry s' = repeat Entry.zero 128
    /\ files s' = Files.zero
    /\ fat_flat s' = [0; 0; 0; 0].
Proof.
  destruct (proj2 (fs_mount_fails_when "disk" (boot unmarked_volume))
              (mk_ram true (rd_blocks unmarked_volume) [])
              (pad_block (hd [] (rd_blocks unmarked_volume))))
    as (s' & Hmount & Hsuper & Hdisk & Hroot & Hfiles & _ & Hfat).
  - reflexivity.
  - vm_compute. reflexivity.
  - vm_compute. split; [discriminate | reflexivity].
  - right. right.
    exists (pad_block (hd [] (tl (rd_blocks unmarked_volume)))).
    split; [vm_compute; reflexivity |].
    split; vm_compute; discriminate.
  - exists s'. do 5 (split; [assumption |]).
    rewrite Hfat; [vm_compute; reflexivity |].
    vm_compute. repeat split; reflexivity.
Defined.

(** *** The departures of C3, C6, C7 and C10, on every state *)

Section Departures.

Context {D : Type} `{BlockDevice D}.

(** [fs_read] always returns. *)
Lemma fs_read_returns (fd count : Z) (s : fs_state D) :
  exists (r : Z) (out : list Z) (s' : fs_state D),
    fs_read fd count s = Some (r, out, s').
Proof.
  unfold fs_read.
  destruct (bad_fd s fd); [eauto |].
  destruct (find_first _ _) as [i |]; [| eauto].
  destruct (_ >=? _); [eauto |].
  match goal with
  | |- context [read_loop (S (Z.to_nat ?n)) ?a ?b ?n ?o ?d ?out ?log] =>
      destruct (read_loop_returns a b (S (Z.to_nat n)) n o d out log
                  ltac:(lia)) as [[[ex out'] log'] ->]
  end.
  destruct ex; eauto.
Qed.

(** The value returned by [fs_read] is -1, 0 or [count]: when fewer than
    [count] bytes remain before the end of the file, the bytes delivered
    are fewer than the value returned. *)
Lemma fs_read_result (fd count : Z) (s s' : fs_state D) (r : Z) (out : list Z) :
  fs_read fd count s = Some (r, out, s') ->
  0 <= File.offset (slot s fd) ->
  0 <= count ->
  File.offset (slot s fd) + count < 2 ^ 64 ->
  r = -1 \/ r = 0 \/ r = to_int count.
Proof.
  intros Hread Ho Hcount Hsum. unfold fs_read in Hread.
  destruct (bad_fd s fd); [injection Hread as <- _ _; now left |].
  destruct (find_first _ _) as [i |]; [| injection Hread as <- _ _; now left].
  destruct (Z.geb_spec (File.offset (slot s fd)) (Entry.file_size (entry s i)));
    [injection Hread as <- _ _; now right; left |].
  rewrite size_t_small in Hread by lia.
  destruct (read_loop _ _ _ _ _ _ _ _) as [[[[| r' o'] out'] log'] |] eqn:Hrun;
    try discriminate.
  - injection Hread as <- _ _. now left.
  - injection Hread as <- _ _. right. right.
    apply read_loop_done in Hrun as (-> & _).
    + rewrite Z.sub_0_r, size_t_small by lia. reflexivity.
    + destruct (_ >? _); lia.
    + exact Ho.
    + destruct (Z.gtb_spec (File.offset (slot s fd) + count)
                  (Entry.file_size (entry s i))); lia.
Qed.

(** [fs_open] returns 0 or -1, never another slot index. *)
Lemma fs_open_result (name : option (list Z)) (s : fs_state D) :
  fst (fs_open name s) = 0 \/ fst (fs_open name s) = -1.
Proof.
  unfold fs_open.
  destruct (_ =? _); [now right |].
  destruct name as [n |]; [| now right].
  destruct (find_first (same_name n) _); [| now right].
  destruct (find_first slot_free _); [now left | now right].
Qed.

(** For a usable descriptor, [fs_lseek] succeeds exactly when the offset is
    at most the file_size of the directory entry whose index is [fd]. *)
Lemma fs_lseek_result (fd offset : Z) (s : fs_state D) :
  bad_fd s fd = false ->
  fst (fs_lseek fd offset s) = 0 <-> offset <= Entry.file_size (entry s fd).
Proof.
  intros Hfd. unfold fs_lseek. rewrite Hfd.
  destruct (Z.gtb_spec offset (Entry.file_size (entry s fd))); simpl;
    split; intros; try lia; try reflexivity; discriminate.
Qed.

(** Deleting a file whose first_data_index is 0xFFFF, when no file is
    counted open, indexes the FAT at 65535, outside any FAT the format
    allows (at most 65535 entries). *)
Lemma fs_delete_sentinel (name : list Z) (s : fs_state D) (i : Z) :
  find_first (same_name name) (entries s) = Some i ->
  Files.open (files s) = 0 ->
  Entry.data_index (entry s i) = 65535 ->
  Z.of_nat (length (fat_flat s)) <= 65535 ->
  fs_delete name s = OutOfBounds 65535 (Z.of_nat (length (fat_flat s))).
Proof.
  intros Hfind Hopen Hindex Hlen. unfold fs_delete.
  rewrite Hfind, Hopen, Hindex. simpl.
  destruct (Z.ltb_spec 65535 (Z.of_nat (length (fat_flat s)))); [lia |].
  reflexivity.
Qed.

End Departures.

(** *** C3, C5, C6, C7, C10: scenarios where the code departs from the spec *)

(** C5 (the code departs from the spec).  Scenario S6 on an empty volume:
    create("x") and open("x") succeed, delete("x") fails while the handle is
    open, close succeeds and leaves every slot free -- yet delete("x") fails
    again, because [fs_create] left [files.open] at 1. *)
Theorem delete_after_close_still_fails :
  result (mount_fresh empty_volume) = Some 0
  /\ fst s6_created = 0
  /\ fst s6_opened = 0
  /\ result s6_delete_open = Some (-1)
  /\ fst s6_closed = 0
  /\ forallb slot_free (slots (snd s6_closed)) = true
  /\ Files.open (files (snd s6_closed)) = 1
  /\ result s6_delete_closed = Some (-1).
Proof. vm_compute. repeat split; reflexivity. Qed.

(** C6 (the code departs from the spec).  Two successive opens of "x" both
    return 0, although the second one occupies slot 1. *)
Theorem fs_open_returns_zero_twice :
  fst twice_first = 0
  /\ fst twice_second = 0
  /\ slot_free (slot (snd twice_first) 1) = true
  /\ File.filename (slot (snd twice_second) 1) = strncpy (cstr "x") 16
  /\ find_first slot_free (slots (snd twice_first)) = Some 1.
Proof. vm_compute. repeat split; reflexivity. Qed.

(** C7 (the code departs from the spec).  The handle in slot 0 names "b",
    whose size is 100 as [fs_stat] reports; seeking it to 50 is refused
    because the test reads the size of directory entry 0, the empty "a". *)
Theorem fs_lseek_reads_entry_of_fd :
  fst ab_opened = 0
  /\ File.filename (slot (snd ab_opened) 0) = strncpy (cstr "b") 16
  /\ fs_stat 0 (snd ab_opened) = 100
  /\ Entry.file_size (entry (snd ab_opened) 0) = 0
  /\ fst (fs_lseek 0 50 (snd ab_opened)) = -1.
Proof. vm_compute. repeat split; reflexivity. Qed.

(** C10 (the code departs from the spec).  Deleting the empty file "x",
    whose first_data_index is the sentinel 0xFFFF, stores at index 65535 of
    a FAT array of 4 entries. *)
Theorem fs_delete_empty_file_out_of_bounds :
  result (mount_fresh x_volume) = Some 0
  /\ SuperBlock.data_blocks (super (mounted x_volume)) = 4
  /\ Entry.data_index (entry (mounted x_volume) 0) = 65535
  /\ fs_delete (cstr "x") (mounted x_volume) = OutOfBounds 65535 4.
Proof. vm_compute. repeat split; reflexivity. Qed.

(** C3 (the code departs from the spec).  With offset 0 and file_size 5,
    reading 10 bytes delivers 5 bytes and moves the offset to 5, but the
    value returned is 10. *)
Theorem fs_read_returns_count_past_end :
  fst f_opened = 0
  /\ fs_stat 0 (snd f_opened) = 5
  /\ File.offset (slot (snd f_opened) 0) = 0
  /\ (exists out s',
        fs_read 0 10 (snd f_opened) = Some (10, out, s')
        /\ length out = 5%nat
        /\ File.offset (slot s' 0) = 5).
Proof.
  vm_compute. repeat split; try reflexivity.
  eexists _, _. repeat split; reflexivity.
Qed.

(** ** Further properties of the library *)

(** *** Rejected calls and the shape of the tables *)

Lemma length_decode_entries (n : nat) (b : list Z) :
  length (decode_entries n b) = n.
Proof.
  revert b. induction n as [| n IH]; intros b; simpl; [reflexivity |].
  now rewrite IH.
Qed.

Lemma length_store {A} (l : list A) (i : Z) (x : A) :
  length (store l i x) = length l.
Proof. unfold store. apply length_insert. Qed.

Section Rejections.

Context {D : Type} `{BlockDevice D}.

Lemma fs_create_rejected (name : list Z) (r : Z) (s s' : fs_state D) :
  fs_create name s = (r, s') -> (r = 0 \/ r = -1) /\ (r = -1 -> s' = s).
Proof.
  unfold fs_create. intros Hc.
  destruct (strlen _ >=? _); [injection Hc as <- <-; auto |].
  destruct (_ =? FS_FILE_MAX_COUNT); [injection Hc as <- <-; auto |].
  destruct (find_first (same_name _) _); [injection Hc as <- <-; auto |].
  destruct (find_first entry_free _); injection Hc as <- <-;
    [split; [now left | discriminate] | auto].
Qed.

(** X1.  [fs_create], [fs_open], [fs_close], [fs_lseek] and [fs_delete]
    return 0 or -1 and nothing else, and a call that returns -1 leaves the
    whole state (images, tables, device, log) exactly as it was. *)
Theorem rejected_calls_change_nothing :
  forall s : fs_state D,
    (forall (name : list Z) (r : Z) (s' : fs_state D),
        fs_create name s = (r, s') -> (r = 0 \/ r = -1) /\ (r = -1 -> s' = s))
    /\ (forall (name : option (list Z)) (r : Z) (s' : fs_state D),
          fs_open name s = (r, s') -> (r = 0 \/ r = -1) /\ (r = -1 -> s' = s))
    /\ (forall (fd r : Z) (s' : fs_state D),
          fs_close fd s = (r, s') -> (r = 0 \/ r = -1) /\ (r = -1 -> s' = s))
    /\ (forall (fd offset r : Z) (s' : fs_state D),
          fs_lseek fd offset s = (r, s') ->
          (r = 0 \/ r = -1) /\ (r = -1 -> s' = s))
    /\ (forall (name : list Z) (r : Z) (s' : fs_state D),
          fs_delete name s = Returns r s' ->
          (r = 0 \/ r = -1) /\ (r = -1 -> s' = s)).
Proof.
  intros s. repeat split.
  - unfold fs_create in *.
    destruct (strlen _ >=? _); [injection H0 as <- _; now right |].
    destruct (_ =? FS_FILE_MAX_COUNT); [injection H0 as <- _; now right |].
    destruct (find_first (same_name _) _); [injection H0 as <- _; now right |].
    destruct (find_first entry_free _); injection H0 as <- _;
      [now left | now right].
  - intros ->. unfold fs_create in *.
    destruct (strlen _ >=? _); [now injection H0 |].
    destruct (_ =? FS_FILE_MAX_COUNT); [now injection H0 |].
    destruct (find_first (same_name _) _); [now injection H0 |].
    destruct (find_first entry_free _); [discriminate | now injection H0].
  - unfold fs_open in *.
    destruct (_ =? FS_OPEN_MAX_COUNT); [injection H0 as <- _; now right |].
    destruct name as [n |]; [| injection H0 as <- _; now right].
    destruct (find_first (same_name _) _); [| injection H0 as <- _; now right].
    destruct (find_first slot_free _); injection H0 as <- _;
      [now left | now right].
  - intros ->. unfold fs_open in *.
    destruct (_ =? FS_OPEN_MAX_COUNT); [now injection H0 |].
    destruct name as [n |]; [| now injection H0].
    destruct (find_first (same_name _) _); [| now injection H0].
    destruct (find_first slot_free _); [discriminate | now injection H0].
  - unfold fs_close in *.
    destruct (bad_fd s fd); injection H0 as <- _; [now right | now left].
  - intros ->. unfold fs_close in *.
    destruct (bad_fd s fd); [now injection H0 | discriminate].
  - unfold fs_lseek in *.
    destruct (bad_fd s fd); [injection H0 as <- _; now right |].
    destruct (_ >? _); injection H0 as <- _; [now right | now left].
  - intros ->. unfold fs_lseek in *.
    destruct (bad_fd s fd); [now injection H0 |].
    destruct (_ >? _); [now injection H0 | discriminate].
  - unfold fs_delete in *.
    destruct (find_first _ _); [| injection H0 as <- _; now right].
    destruct (_ =? 0); [| injection H0 as <- _; now right].
    destruct (_ <? _); [injection H0 as <- _; now left | discriminate].
  - intros ->. unfold fs_delete in *.
    destruct (find_first _ _); [| now injection H0].
    destruct (_ =? 0); [| now injection H0].
    destruct (_ <? _); [discriminate | discriminate].
Qed.

(** Every call keeps the lists that stand for the two tables at their
    declared sizes, 128 directory entries and 32 open-file slots. *)
Lemma tables_keep_shape :
  forall (c : call) (s s' : fs_state D),
    tables_shaped s -> perform c s = Some s' -> tables_shaped s'.
Proof.
  intros c s s' [Hroot Hfile] Hrun. unfold tables_shaped.
  destruct c; simpl in Hrun.
  - unfold fs_mount in Hrun.
    destruct (block_disk_open _ _); [| injection Hrun as <-; now split].
    destruct (super_rejected _ _); [injection Hrun as <-; now split |].
    destruct (load_fat _ _ _ _ _) as [[ok words] log].
    destruct ok; cbn [negb] in Hrun; [| injection Hrun as <-; now split].
    destruct (_ !! 0%nat); [| discriminate].
    destruct (negb _); injection Hrun as <-; [now split |].
    simpl. split; [| exact Hfile].
    destruct (block_read _ _); [apply length_decode_entries | exact Hroot].
  - injection Hrun as <-. unfold fs_create.
    destruct (strlen _ >=? _); [now split |].
    destruct (_ =? FS_FILE_MAX_COUNT); [now split |].
    destruct (find_first (same_name _) _); [now split |].
    destruct (find_first entry_free _); [| now split].
    simpl. now rewrite length_store.
  - unfold fs_delete in Hrun.
    destruct (find_first _ _); [| injection Hrun as <-; now split].
    destruct (_ =? 0); [| injection Hrun as <-; now split].
    destruct (_ <? _); [| discriminate].
    injection Hrun as <-. simpl. now rewrite length_store.
  - injection Hrun as <-. unfold fs_open.
    destruct (_ =? FS_OPEN_MAX_COUNT); [now split |].
    destruct filename as [name |]; [| now split].
    destruct (find_first (same_name _) _); [| now split].
    destruct (find_first slot_free _); [| now split].
    simpl. now rewrite length_store.
  - injection Hrun as <-. unfold fs_close.
    destruct (bad_fd s fd); [now split |].
    simpl. now rewrite length_store.
  - injection Hrun as <-. unfold fs_lseek.
    destruct (bad_fd s fd); [now split |].
    destruct (_ >? _); [now split |].
    simpl. now rewrite length_store.
  - unfold fs_write in Hrun.
    destruct (bad_fd s fd); [injection Hrun as <-; now split |].
    destruct (find_first _ _); [| injection Hrun as <-; now split].
    destruct (write_loop _ _ _ _ _ _ _ _) as [[[[| w' o'] d'] log'] |];
      simpl in Hrun; try discriminate; injection Hrun as <-; [now split |].
    destruct (_ >? _); simpl; rewrite !length_store; now split.
  - unfold fs_read in Hrun.
    destruct (bad_fd s fd); [injection Hrun as <-; now split |].
    destruct (find_first _ _); [| injection Hrun as <-; now split].
    destruct (_ >=? _); [injection Hrun as <-; now split |].
    destruct (read_loop _ _ _ _ _ _ _ _) as [[[[| r' o'] out'] log'] |];
      simpl in Hrun; try discriminate; injection Hrun as <-; [now split |].
    simpl. now rewrite length_store.
Qed.

End Rejections.

(** *** The open-file counter never undercounts the handles *)

Lemma count_if_nonneg {A} (p : A -> bool) (l : list A) : 0 <= count_if p l.
Proof. induction l as [| x l IH]; simpl; [lia |]. destruct (p x); lia. Qed.

Lemma count_if_none {A} (p : A -> bool) (l : list A) :
  count_if (fun x => negb (p x)) l = 0 -> forallb p l = true.
Proof.
  induction l as [| x l IH]; simpl; [reflexivity |].
  pose proof (count_if_nonneg (fun x => negb (p x)) l).
  destruct (p x); simpl; [| lia].
  intros Hl. apply IH. lia.
Qed.

(** Storing into a cell changes a count by what the old and the new
    content contribute; outside the array nothing changes. *)
Lemma count_if_store {A} (p : A -> bool) (d : A) (l : list A) (i : Z) (x : A) :
  count_if p (store l i x)
  = if (Z.to_nat i <? length l)%nat
    then count_if p l - (if p (cell d l i) then 1 else 0)
         + (if p x then 1 else 0)
    else count_if p l.
Proof.
  unfold store, cell. destruct (Nat.ltb_spec (Z.to_nat i) (length l)) as [Hin | Hout].
  - destruct (lookup_lt_is_Some_2 _ _ Hin) as [y Hy].
    rewrite (count_if_insert p l _ x y Hy), Hy. reflexivity.
  - now rewrite list_insert_ge.
Qed.

Lemma take_store {A} (n : nat) (l : list A) (i : Z) (x : A) :
  (Z.to_nat i < n)%nat -> take n (store l i x) = store (take n l) i x.
Proof. intros Hi. unfold store. now apply take_insert_lt. Qed.

Lemma cell_take {A} (d : A) (n : nat) (l : list A) (i : Z) :
  (Z.to_nat i < n)%nat -> cell d (take n l) i = cell d l i.
Proof. intros Hi. unfold cell. now rewrite lookup_take_lt. Qed.

Section Handles.

Context {D : Type} `{BlockDevice D}.

(** A usable descriptor lies in [0, 32) and names an occupied slot. *)
Lemma bad_fd_false (s : fs_state D) (fd : Z) :
  bad_fd s fd = false ->
  0 <= fd < 32 /\ slot_free (slot s fd) = false.
Proof.
  unfold bad_fd, FS_OPEN_MAX_COUNT. intros Hfd.
  apply orb_false_iff in Hfd as [Hfd Hfree].
  apply orb_false_iff in Hfd as [Hlo Hhi].
  split; [lia | exact Hfree].
Qed.

(** Updating slot [fd] of the table: the effect on the number of occupied
    slots. *)
Lemma occupied_store (s : fs_state D) (fd : Z) (f : File.t) (n : Z) :
  0 <= fd < 32 ->
  occupied (set_files (Files.mk n (store (Files.file (files s)) fd f)) s)
  = if (Z.to_nat fd <? length (slots s))%nat
    then occupied s - (if slot_free (slot s fd) then 0 else 1)
         + (if slot_free f then 0 else 1)
    else occupied s.
Proof.
  intros Hfd. unfold occupied, slots, slot, FS_OPEN_MAX_COUNT. simpl.
  rewrite take_store by lia.
  rewrite (count_if_store _ File.zero), cell_take by lia.
  destruct (_ <? _)%nat; [| reflexivity].
  destruct (slot_free (cell File.zero (Files.file (files s)) fd));
    destruct (slot_free f); reflexivity.
Qed.

(** One call keeps the counter above the number of occupied slots, and
    raises it by one at most. *)
Lemma perform_keeps_count (c : call) (s s' : fs_state D) :
  perform c s = Some s' ->
  occupied s <= Files.open (files s) ->
  Files.open (files s) < 2 ^ 31 - 1 ->
  occupied s' <= Files.open (files s')
  /\ Files.open (files s') <= Files.open (files s) + 1.
Proof.
  intros Hrun Hinv Hroom.
  pose proof (count_if_nonneg (fun f => negb (slot_free f)) (slots s)) as Hpos.
  fold (occupied s) in Hpos.
  assert (Hsame :
      occupied s <= Files.open (files s)
      /\ Files.open (files s) <= Files.open (files s) + 1) by lia.
  destruct c; simpl in Hrun.
  - unfold fs_mount in Hrun.
    destruct (block_disk_open _ _); [| injection Hrun as <-; exact Hsame].
    destruct (super_rejected _ _); [injection Hrun as <-; exact Hsame |].
    destruct (load_fat _ _ _ _ _) as [[ok words] log].
    destruct ok; cbn [negb] in Hrun; [| injection Hrun as <-; exact Hsame].
    destruct (_ !! 0%nat); [| discriminate].
    destruct (negb _); injection Hrun as <-; exact Hsame.
  - injection Hrun as <-. unfold fs_create.
    destruct (strlen _ >=? _); [exact Hsame |].
    destruct (_ =? FS_FILE_MAX_COUNT); [exact Hsame |].
    destruct (find_first (same_name _) _); [exact Hsame |].
    destruct (find_first entry_free _); [| exact Hsame].
    change (occupied s <= to_int (Files.open (files s) + 1)
            /\ to_int (Files.open (files s) + 1) <= Files.open (files s) + 1).
    rewrite to_int_small by lia. lia.
  - unfold fs_delete in Hrun.
    destruct (find_first _ _); [| injection Hrun as <-; exact Hsame].
    destruct (_ =? 0); [| injection Hrun as <-; exact Hsame].
    destruct (_ <? _); [| discriminate].
    injection Hrun as <-. exact Hsame.
  - injection Hrun as <-. unfold fs_open.
    destruct (_ =? FS_OPEN_MAX_COUNT); [exact Hsame |].
    destruct filename as [name |]; [| exact Hsame].
    destruct (find_first (same_name _) _); [| exact Hsame].
    destruct (find_first slot_free _) as [j |] eqn:Hslot; [| exact Hsame].
    apply find_first_bounds in Hslot.
    assert (Hj : 0 <= j < 32).
    { unfold slots, FS_OPEN_MAX_COUNT in Hslot.
      rewrite length_take in Hslot. lia. }
    cbn [snd]. rewrite occupied_store by exact Hj.
    cbn [files set_files Files.open].
    rewrite to_int_small by lia.
    destruct (_ <? _)%nat; [| lia].
    destruct (slot_free (slot s j)); destruct (slot_free _); lia.
  - injection Hrun as <-. unfold fs_close.
    destruct (bad_fd s fd) eqn:Hfd; [exact Hsame |].
    apply bad_fd_false in Hfd as [Hrange Hused].
    cbn [snd]. rewrite occupied_store by exact Hrange.
    rewrite Hused. cbn [files set_files Files.open].
    change (slot_free File.zero) with true. cbv iota.
    assert (Hin : (Z.to_nat fd <? length (slots s))%nat = true).
    { apply Nat.ltb_lt. unfold slot, cell in Hused.
      unfold slots, FS_OPEN_MAX_COUNT. rewrite length_take.
      destruct (Files.file (files s) !! Z.to_nat fd) eqn:Hlook;
        [| discriminate].
      apply lookup_lt_Some in Hlook. lia. }
    rewrite Hin.
    assert (Hone : 1 <= occupied s).
    { pose proof (occupied_store s fd File.zero 0 Hrange) as Hocc.
      rewrite Hin, Hused in Hocc.
      change (slot_free File.zero) with true in Hocc. cbv iota in Hocc.
      pose proof (count_if_nonneg (fun f => negb (slot_free f))
                    (slots
                       (set_files
                          (Files.mk 0 (store (Files.file (files s)) fd File.zero))
                          s))) as Hge.
      fold (occupied
              (set_files
                 (Files.mk 0 (store (Files.file (files s)) fd File.zero)) s))
        in Hge.
      lia. }
    rewrite to_int_small by lia. lia.
  - injection Hrun as <-. unfold fs_lseek.
    destruct (bad_fd s fd) eqn:Hfd; [exact Hsame |].
    destruct (_ >? _); [exact Hsame |].
    apply bad_fd_false in Hfd as [Hrange Hused].
    cbn [snd]. rewrite occupied_store by exact Hrange.
    change (slot_free (File.set_offset offset (slot s fd)))
      with (slot_free (slot s fd)).
    cbn [files set_files Files.open].
    destruct (_ <? _)%nat; destruct (slot_free (slot s fd)); lia.
  - unfold fs_write in Hrun.
    destruct (bad_fd s fd) eqn:Hfd; [injection Hrun as <-; exact Hsame |].
    destruct (find_first _ _); [| injection Hrun as <-; exact Hsame].
    apply bad_fd_false in Hfd as [Hrange Hused].
    destruct (write_loop _ _ _ _ _ _ _ _) as [[[[| w' o'] d'] log'] |];
      simpl in Hrun; try discriminate; injection Hrun as <-;
      [exact Hsame |].
    pose proof (occupied_store s fd (File.set_offset o' (slot s fd))
                  (Files.open (files s)) Hrange) as Hocc.
    change (slot_free (File.set_offset o' (slot s fd)))
      with (slot_free (slot s fd)) in Hocc.
    destruct (_ >? _);
      change (occupied
                (set_files
                   (Files.mk (Files.open (files s))
                      (store (Files.file (files s)) fd
                         (File.set_offset o' (slot s fd)))) s)
              <= Files.open (files s)
              /\ Files.open (files s) <= Files.open (files s) + 1);
      rewrite Hocc;
      destruct (_ <? _)%nat; destruct (slot_free (slot s fd)); lia.
  - unfold fs_read in Hrun.
    destruct (bad_fd s fd) eqn:Hfd; [injection Hrun as <-; exact Hsame |].
    destruct (find_first _ _); [| injection Hrun as <-; exact Hsame].
    destruct (_ >=? _); [injection Hrun as <-; exact Hsame |].
    apply bad_fd_false in Hfd as [Hrange Hused].
    destruct (read_loop _ _ _ _ _ _ _ _) as [[[[| r' o'] out'] log'] |];
      simpl in Hrun; try discriminate; injection Hrun as <-;
      [exact Hsame |].
    pose proof (occupied_store s fd (File.set_offset o' (slot s fd))
                  (Files.open (files s)) Hrange) as Hocc.
    change (slot_free (File.set_offset o' (slot s fd)))
      with (slot_free (slot s fd)) in Hocc.
    change (occupied
              (set_files
                 (Files.mk (Files.open (files s))
                    (store (Files.file (files s)) fd
                       (File.set_offset o' (slot s fd)))) s)
            <= Files.open (files s)
            /\ Files.open (files s) <= Files.open (files s) + 1).
    rewrite Hocc.
    destruct (_ <? _)%nat; destruct (slot_free (slot s fd)); lia.
Qed.

Lemma perform_all_keeps_count (calls : list call) :
  forall s s' : fs_state D,
    perform_all calls s = Some s' ->
    occupied s <= Files.open (files s) ->
    Files.open (files s) + Z.of_nat (length calls) < 2 ^ 31 ->
    occupied s' <= Files.open (files s').
Proof.
  induction calls as [| c calls IH]; intros s s' Hrun Hinv Hroom;
    simpl in *.
  - injection Hrun as <-. exact Hinv.
  - destruct (perform c s) as [s1 |] eqn:Hstep; [| discriminate].
    destruct (perform_keeps_count c s s1 Hstep Hinv ltac:(lia)) as [Hinv1 Hup].
    apply (IH s1 s' Hrun Hinv1). lia.
Qed.

(** X3.  In a run that starts in a fresh process (fewer than 2^31 calls, so
    that the counter cannot overflow), [fs_delete] succeeds only in a state
    where every slot of the open-file table is free: a file is never
    deleted while a descriptor is open. *)
Theorem delete_needs_every_slot_free :
  forall (d : D) (calls : list call) (s s' : fs_state D) (name : list Z),
    perform_all calls (boot d) = Some s ->
    Z.of_nat (length calls) < 2 ^ 31 ->
    fs_delete name s = Returns 0 s' ->
    forallb slot_free (slots s) = true.
Proof.
  intros d calls s s' name Hrun Hroom Hdel.
  pose proof (perform_all_keeps_count calls (boot d) s Hrun) as Hinv.
  assert (Hopen : Files.open (files s) = 0).
  { unfold fs_delete in Hdel.
    destruct (find_first _ _); [| discriminate].
    destruct (Z.eqb_spec (Files.open (files s)) 0); [assumption | discriminate]. }
  rewrite Hopen in Hinv.
  assert (Hnone : occupied s = 0).
  { pose proof (count_if_nonneg (fun f => negb (slot_free f)) (slots s)).
    unfold occupied in *.
    assert (occupied (boot d) <= Files.open (files (boot d)))
      by (vm_compute; discriminate).
    unfold occupied in *. simpl in Hinv. lia. }
  now apply count_if_none in Hnone.
Qed.

End Handles.

(** *** Searches, names and raw memory *)

Lemma find_from_Some {A} (p : A -> bool) (l : list A) :
  forall i k : Z,
    find_from p l i = Some k ->
    exists x : A, l !! Z.to_nat (k - i) = Some x /\ p x = true.
Proof.
  induction l as [| y l IH]; intros i k Hk; simpl in Hk; [discriminate |].
  destruct (p y) eqn:Hy.
  - injection Hk as <-. exists y. now rewrite Z.sub_diag.
  - pose proof (find_from_bounds _ _ _ _ Hk) as Hb.
    destruct (IH _ _ Hk) as (x & Hx & Hpx). exists x. split; [| exact Hpx].
    replace (Z.to_nat (k - i)) with (S (Z.to_nat (k - (i + 1)))) by lia.
    exact Hx.
Qed.

Lemma find_first_Some {A} (p : A -> bool) (l : list A) (k : Z) :
  find_first p l = Some k ->
  exists x : A, l !! Z.to_nat k = Some x /\ p x = true.
Proof.
  intros Hk. destruct (find_from_Some p l 0 k Hk) as (x & Hx & Hpx).
  exists x. now rewrite Z.sub_0_r in Hx.
Qed.

Lemma find_from_None {A} (p : A -> bool) (l : list A) (i : Z) :
  find_from p l i = None -> count_if p l = 0.
Proof.
  revert i. induction l as [| y l IH]; intros i Hn; simpl in *;
    [reflexivity |].
  destruct (p y); [discriminate |]. rewrite (IH _ Hn). reflexivity.
Qed.

(** A search that found nothing finds a matching element at the place where
    one is stored. *)
Lemma find_from_insert_new {A} (p : A -> bool) (l : list A) (x : A) :
  forall (n : nat) (i : Z),
    find_from p l i = None ->
    (n < length l)%nat ->
    p x = true ->
    find_from p (<[n := x]> l) i = Some (i + Z.of_nat n).
Proof.
  induction l as [| y l IH]; intros n i Hn Hlen Hx; simpl in *; [lia |].
  destruct (p y) eqn:Hy; [discriminate |].
  destruct n as [| n]; simpl.
  - rewrite Hx. f_equal. lia.
  - rewrite Hy, (IH n (i + 1) Hn ltac:(lia) Hx). f_equal. lia.
Qed.

Lemma find_first_store_new {A} (p : A -> bool) (l : list A) (i : Z) (x : A) :
  find_first p l = None ->
  0 <= i < Z.of_nat (length l) ->
  p x = true ->
  find_first p (store l i x) = Some i.
Proof.
  intros Hn Hi Hx. unfold find_first, store.
  rewrite (find_from_insert_new p l x (Z.to_nat i) 0 Hn ltac:(lia) Hx).
  f_equal. lia.
Qed.

Lemma take_app_repeat {A} (x : A) (n : nat) :
  forall (l : list A) (m : nat),
    (n <= m)%nat -> take n (l ++ repeat x m) = take n (l ++ repeat x n).
Proof.
  induction n as [| n IH]; intros l m Hm; [reflexivity |].
  destruct l as [| y l]; simpl.
  - destruct m as [| m]; [lia |]. simpl. f_equal.
    apply (IH [] m). lia.
  - f_equal. rewrite (IH l m) by lia. symmetry. apply (IH l (S n)). lia.
Qed.

Lemma read_bytes_step (a : list Z) (n : nat) :
  read_bytes a (S n) = peek a :: read_bytes (tl a) n.
Proof.
  unfold read_bytes. destruct a as [| x a]; [reflexivity |].
  cbn [peek hd tl app take]. f_equal.
  apply (take_app_repeat 0 n a (S n)). lia.
Qed.

(** [memcmp] over [n] bytes compares the [n]-byte contents of the two
    buffers. *)
Lemma memcmp_read_bytes (n : nat) :
  forall a b : list Z, memcmp a b n = 0 <-> read_bytes a n = read_bytes b n.
Proof.
  induction n as [| n IH]; intros a b.
  - simpl. unfold read_bytes. simpl. tauto.
  - rewrite !read_bytes_step. simpl.
    destruct (Z.eqb_spec (peek a) (peek b)) as [Heq | Hne].
    + rewrite IH, Heq. split; [congruence |]. intros Hc. now injection Hc.
    + split; [lia |]. intros Hc. injection Hc as Hc _. contradiction.
Qed.

Lemma length_strncpy (n : nat) : forall src : list Z, length (strncpy src n) = n.
Proof.
  induction n as [| n IH]; intros [| c r]; try reflexivity.
  - simpl. now rewrite repeat_length.
  - simpl. destruct (c =? 0); simpl; [now rewrite repeat_length |].
    now rewrite IH.
Qed.

Lemma read_bytes_exact (a : list Z) (n : nat) : length a = n -> read_bytes a n = a.
Proof.
  intros <-. unfold read_bytes. rewrite take_app_length. reflexivity.
Qed.

(** The first byte of a copied name is NUL exactly when the name is
    empty. *)
Lemma peek_strncpy (src : list Z) (n : nat) :
  (peek (strncpy src (S n)) =? 0) = (peek src =? 0).
Proof.
  destruct src as [| c r]; [reflexivity |].
  simpl. destruct (c =? 0) eqn:Hc; [reflexivity |].
  simpl. exact Hc.
Qed.

(** *** Creating, opening and closing *)

Section Lifecycle.

Context {D : Type} `{BlockDevice D}.

(** What a successful [fs_create] has found and done. *)
Lemma fs_create_inv (name : list Z) (s s' : fs_state D) :
  fs_create name s = (0, s') ->
  exists i : Z,
    find_first (same_name name) (entries s) = None
    /\ find_first entry_free (entries s) = Some i
    /\ 0 <= i < Z.of_nat (length (entries s))
    /\ entry_free (entry s i) = true
    /\ entries s'
       = store (entries s) i
           (match
              find_first (Z.eqb 0)
                (take (Z.to_nat (SuperBlock.data_blocks (super s))) (fat_flat s))
            with
            | Some _ =>
                Entry.set_data_index 65535
                  (Entry.set_file_size 0
                     (Entry.set_filename (strncpy name 16) (entry s i)))
            | None =>
                Entry.set_file_size 0
                  (Entry.set_filename (strncpy name 16) (entry s i))
            end)
    /\ fat_flat s'
       = match
           find_first (Z.eqb 0)
             (take (Z.to_nat (SuperBlock.data_blocks (super s))) (fat_flat s))
         with
         | Some k => store (fat_flat s) k 65535
         | None => fat_flat s
         end
    /\ super s' = super s /\ disk s' = disk s.
Proof.
  unfold fs_create. intros Hc.
  destruct (strlen name >=? FS_FILENAME_LEN); [discriminate |].
  destruct (Files.open (files s) =? FS_FILE_MAX_COUNT); [discriminate |].
  destruct (find_first (same_name name) (entries s)); [discriminate |].
  destruct (find_first entry_free (entries s)) as [i |] eqn:Hfree;
    [| discriminate].
  injection Hc as <-. exists i.
  pose proof (find_first_bounds _ _ _ Hfree) as Hi.
  destruct (find_first_Some _ _ _ Hfree) as (x & Hx & Hpx).
  assert (Hi' : (Z.to_nat i < Z.to_nat FS_FILE_MAX_COUNT)%nat).
  { unfold entries in Hi. rewrite length_take in Hi. lia. }
  repeat split; try reflexivity; try lia.
  - unfold entry. rewrite <- (cell_take _ (Z.to_nat FS_FILE_MAX_COUNT)) by lia.
    fold (entries s). now rewrite (cell_lookup _ _ _ x Hx).
  - unfold entries at 1. cbn [root_entry set_files set_fat_flat set_root_entry].
    rewrite take_store by lia. fold (entries s).
    destruct (find_first (Z.eqb 0) _); reflexivity.
Qed.

(** X4.  A successful [fs_create] uses up the lowest free FAT entry while
    one is left (the count printed by [fs_info] drops by one and does not go
    below zero), although the new file gets no data block; and it uses one
    directory slot unless the name is empty, in which case the slot stays
    free. *)
Theorem fs_create_accounting :
  forall (name : list Z) (s s' : fs_state D),
    fs_create name s = (0, s') ->
    fat_free s' = Z.max 0 (fat_free s - 1)
    /\ rdir_free s' = rdir_free s - (if peek name =? 0 then 0 else 1).
Proof.
  intros name s s' Hc.
  destruct (fs_create_inv name s s' Hc)
    as (i & _ & Hfree & Hi & Hwas & Hentries & Hfat & Hsuper & _).
  split.
  - unfold fat_free. rewrite Hsuper, Hfat.
    destruct (find_first (Z.eqb 0) _) as [k |] eqn:Hscan.
    + pose proof (find_first_bounds _ _ _ Hscan) as Hk.
      destruct (find_first_Some _ _ _ Hscan) as (x & Hx & Hpx).
      rewrite take_store by (rewrite length_take in Hk; lia).
      rewrite (count_if_store _ 0), (cell_lookup _ _ _ x Hx), Hpx.
      destruct (Nat.ltb_spec (Z.to_nat k)
                  (length
                     (take (Z.to_nat (SuperBlock.data_blocks (super s)))
                        (fat_flat s)))); [| lia].
      change (0 =? 65535) with false. cbv iota.
      pose proof (count_if_nonneg (Z.eqb 0)
                    (<[Z.to_nat k := 65535]>
                       (take (Z.to_nat (SuperBlock.data_blocks (super s)))
                          (fat_flat s)))) as Hge.
      rewrite (count_if_insert _ _ _ 65535 x Hx), Hpx in Hge.
      change (0 =? 65535) with false in Hge. cbv iota in Hge. lia.
    + rewrite (find_from_None _ _ _ Hscan). reflexivity.
  - unfold rdir_free. rewrite Hentries.
    rewrite (count_if_store _ Entry.zero).
    destruct (Nat.ltb_spec (Z.to_nat i) (length (entries s))); [| lia].
    fold (entry s i).
    assert (Hcell : cell Entry.zero (entries s) i = entry s i).
    { unfold entries, entry. apply cell_take.
      unfold entries in Hi. rewrite length_take in Hi. lia. }
    rewrite Hcell, Hwas.
    assert (Hnew : forall e : Entry.t,
               entry_free
                 (Entry.set_file_size 0 (Entry.set_filename (strncpy name 16) e))
               = (peek name =? 0)).
    { intros e. unfold entry_free. cbn [Entry.filename Entry.set_file_size
                                          Entry.set_filename].
      apply (peek_strncpy name 15). }
    destruct (find_first (Z.eqb 0) _);
      [change (entry_free (Entry.set_data_index 65535 ?e))
         with (entry_free e) |];
      rewrite Hnew; destruct (peek name =? 0); lia.
Qed.

(** X5.  After a successful [fs_create] with a name buffer that is clean
    (NULs only after the terminator), the name is in the directory: a
    second [fs_create] of it is rejected and changes nothing, and
    [fs_open] of it returns 0 exactly when the counter is not 32 and a slot
    is free. *)
Theorem created_name_is_found :
  forall (name : list Z) (s s1 : fs_state D),
    fs_create name s = (0, s1) ->
    clean_name name ->
    fs_create name s1 = (-1, s1)
    /\ (fst (fs_open (Some name) s1) = 0
        <-> Files.open (files s1) <> FS_OPEN_MAX_COUNT
            /\ find_first slot_free (slots s1) <> None).
Proof.
  intros name s s1 Hc Hclean.
  destruct (fs_create_inv name s s1 Hc)
    as (i & Hnone & Hfree & Hi & _ & Hentries & _).
  assert (Hfound : find_first (same_name name) (entries s1) = Some i).
  { rewrite Hentries. apply find_first_store_new; [exact Hnone | exact Hi |].
    assert (Hsame : forall e : Entry.t,
               same_name name
                 (Entry.set_file_size 0
                    (Entry.set_filename (strncpy name 16) e)) = true).
    { intros e. unfold same_name.
      cbn [Entry.filename Entry.set_file_size Entry.set_filename].
      apply Z.eqb_eq. apply memcmp_read_bytes.
      change (Z.to_nat FS_FILENAME_LEN) with 16%nat.
      rewrite (read_bytes_exact (strncpy name 16)) by apply length_strncpy.
      symmetry. exact Hclean. }
    destruct (find_first (Z.eqb 0) _);
      [change (same_name name (Entry.set_data_index 65535 ?e))
         with (same_name name e) |]; apply Hsame. }
  split.
  - unfold fs_create in *.
    destruct (strlen name >=? FS_FILENAME_LEN); [discriminate |].
    destruct (Files.open (files s1) =? FS_FILE_MAX_COUNT); [reflexivity |].
    now rewrite Hfound.
  - unfold fs_open.
    destruct (Z.eqb_spec (Files.open (files s1)) FS_OPEN_MAX_COUNT).
    { simpl. split; [discriminate | tauto]. }
    rewrite Hfound.
    destruct (find_first slot_free (slots s1)); simpl.
    + split; [now split | reflexivity].
    + split; [discriminate | tauto].
Qed.

(** X6.  Opening a file with a non-empty name and then closing the slot it
    occupied gives back the state before the open, when that slot was
    zeroed (as [fs_close] and the initial state leave a slot) and the
    counter does not overflow.  The slot is the lowest free one; the value
    [fs_open] returned is 0 whichever slot that is. *)
Theorem open_then_close_restores :
  forall (name : list Z) (s s1 : fs_state D) (j : Z),
    fs_open (Some name) s = (0, s1) ->
    find_first slot_free (slots s) = Some j ->
    peek name <> 0 ->
    slot s j = File.zero ->
    - 2 ^ 31 <= Files.open (files s) < 2 ^ 31 - 1 ->
    fs_close j s1 = (0, s).
Proof.
  intros name s s1 j Hopen Hslot Hname Hzero Hrange.
  pose proof (find_first_bounds _ _ _ Hslot) as Hj.
  unfold slots, FS_OPEN_MAX_COUNT in Hj. rewrite length_take in Hj.
  unfold fs_open in Hopen.
  destruct (_ =? FS_OPEN_MAX_COUNT); [discriminate |].
  destruct (find_first (same_name name) _); [| discriminate].
  rewrite Hslot in Hopen. injection Hopen as <-.
  unfold fs_close.
  assert (Hnew :
      slot
        (set_files
           (Files.mk (to_int (Files.open (files s) + 1))
              (store (Files.file (files s)) j
                 (File.mk (strncpy name (Z.to_nat FS_FILENAME_LEN)) 0))) s) j
      = File.mk (strncpy name (Z.to_nat FS_FILENAME_LEN)) 0).
  { unfold slot. cbn [files set_files Files.file]. apply cell_store. lia. }
  unfold bad_fd. rewrite Hnew. unfold slot_free at 1.
  cbn [File.filename]. change (Z.to_nat FS_FILENAME_LEN) with 16%nat.
  rewrite (peek_strncpy name 15).
  destruct (Z.eqb_spec (peek name) 0); [contradiction |].
  unfold FS_OPEN_MAX_COUNT.
  destruct (Z.ltb_spec j 0); [lia |]. destruct (Z.geb_spec j 32); [lia |].
  cbn [orb]. f_equal.
  cbn [files set_files Files.open Files.file].
  unfold store. rewrite list_insert_insert_eq.
  rewrite !to_int_small by (rewrite ?to_int_small; lia).
  replace (Files.open (files s) + 1 - 1) with (Files.open (files s)) by lia.
  rewrite list_insert_id.
  - destruct s as [sb fat root [cnt file] d log]. reflexivity.
  - unfold slot, cell in Hzero.
    destruct (Files.file (files s) !! Z.to_nat j) as [f |] eqn:Hf.
    + simpl in Hzero. now rewrite Hzero.
    + apply lookup_ge_None in Hf. lia.
Qed.

End Lifecycle.

(** *** Bytes of a block *)

Lemma same_block (offset j : Z) :
  0 <= j ->
  offset mod BLOCK_SIZE + j < BLOCK_SIZE ->
  (offset + j) / BLOCK_SIZE = offset / BLOCK_SIZE
  /\ (offset + j) mod BLOCK_SIZE = offset mod BLOCK_SIZE + j.
Proof.
  unfold BLOCK_SIZE. intros Hj Hfit.
  pose proof (Z.div_mod offset 4096 ltac:(lia)) as Hdiv.
  pose proof (Z.mod_pos_bound offset 4096 ltac:(lia)) as Hmod.
  assert (Hq : (offset + j) / 4096 = offset / 4096).
  { symmetry. apply (Z.div_unique _ _ _ (offset mod 4096 + j)); lia. }
  split; [exact Hq |].
  pose proof (Z.div_mod (offset + j) 4096 ltac:(lia)) as Hdiv'.
  rewrite Hq in Hdiv'. lia.
Qed.

Lemma lookup_repeat {A} (x : A) (n : nat) :
  forall i : nat, (i < n)%nat -> repeat x n !! i = Some x.
Proof.
  induction n as [| n IH]; intros [| i] Hi; simpl; try lia; [reflexivity |].
  apply IH. lia.
Qed.

Lemma read_bytes_lookup (m : list Z) (n j : nat) :
  (j < n)%nat -> read_bytes m n !! j = Some (nth j m 0).
Proof.
  intros Hj. unfold read_bytes. rewrite lookup_take_lt by exact Hj.
  rewrite nth_lookup.
  destruct (Nat.lt_ge_cases j (length m)) as [Hin | Hout].
  - rewrite lookup_app_l by exact Hin.
    destruct (lookup_lt_is_Some_2 _ _ Hin) as [x ->]. reflexivity.
  - rewrite lookup_app_r by exact Hout.
    rewrite (lookup_ge_None_2 m j) by exact Hout. simpl.
    apply lookup_repeat. lia.
Qed.

(** *** What a read delivers *)

Section Reading.

Context {D : Type} `{BlockDevice D}.

Variables (d : D) (sdi edi : Z).

(** When every block of the range reads, the loop runs to its end and the
    bytes it appends are the bytes of the file at the positions read. *)
Lemma read_loop_delivers (fuel : nat) :
  forall (reading offset : Z) (out : list Z) (log : list io_event),
    (Z.to_nat reading < fuel)%nat ->
    0 <= offset -> 0 <= reading -> offset + reading < 2 ^ 64 ->
    readable d sdi edi offset reading ->
    exists (out2 : list Z) (log' : list io_event),
      read_loop fuel sdi edi reading offset d out log
      = Some (LoopDone 0 (offset + reading), out ++ out2, log')
      /\ length out2 = Z.to_nat reading
      /\ forall j : Z,
          0 <= j < reading ->
          out2 !! Z.to_nat j = Some (file_byte d sdi edi (offset + j)).
Proof.
  induction fuel as [| fuel IH];
    intros reading offset out log Hfuel Ho Hr Hsum Hread; [lia |].
  simpl. destruct (Z.gtb_spec reading 0) as [Hpos | Hzero].
  - pose proof (chunk_bounds reading offset Hpos) as [Hc Hfit].
    pose proof (Z.mod_pos_bound offset BLOCK_SIZE ltac:(unfold BLOCK_SIZE; lia))
      as Hbo.
    destruct (Hread offset ltac:(lia)) as [buffer Hbuf].
    rewrite Hbuf, size_t_small by lia.
    destruct (IH (reading - chunk reading offset)
                (offset + chunk reading offset)
                (out ++ read_bytes (drop (Z.to_nat (offset mod BLOCK_SIZE)) buffer)
                          (Z.to_nat (chunk reading offset)))
                (log ++ [EvRead (block_of sdi edi offset)]))
      as (out2 & log' & Hrun & Hlen & Hbytes); try lia.
    { intros pos Hp. apply Hread. lia. }
    exists (read_bytes (drop (Z.to_nat (offset mod BLOCK_SIZE)) buffer)
              (Z.to_nat (chunk reading offset)) ++ out2), log'.
    split; [| split].
    + rewrite Hrun, <- app_assoc.
      replace (offset + chunk reading offset + (reading - chunk reading offset))
        with (offset + reading) by lia.
      reflexivity.
    + rewrite length_app, length_read_bytes, Hlen. lia.
    + intros j Hj.
      destruct (Z_lt_le_dec j (chunk reading offset)) as [Hin | Hafter].
      * rewrite lookup_app_l by (rewrite length_read_bytes; lia).
        rewrite read_bytes_lookup by lia.
        destruct (same_block offset j ltac:(lia) ltac:(lia)) as [Hq Hm].
        unfold file_byte, block_of. rewrite Hq.
        fold (block_of sdi edi offset). rewrite Hbuf, Hm.
        rewrite !nth_lookup, lookup_drop. do 3 f_equal. lia.
      * rewrite lookup_app_r by (rewrite length_read_bytes; lia).
        rewrite length_read_bytes.
        replace (Z.to_nat j - Z.to_nat (chunk reading offset))%nat
          with (Z.to_nat (j - chunk reading offset)) by lia.
        rewrite Hbytes by lia. do 2 f_equal. lia.
  - assert (reading = 0) as -> by lia.
    exists [], log. rewrite app_nil_r, Z.add_0_r.
    split; [reflexivity |]. split; [reflexivity |]. intros j Hj. lia.
Qed.

End Reading.

(** *** C2: the blocks that a read and a write transfer *)

(** Every position of a range lies in one of the blocks that the range
    touches. *)
Lemma position_in_span (o n pos : Z) :
  0 <= o -> o <= pos < o + n ->
  exists q : nat,
    pos / BLOCK_SIZE = o / BLOCK_SIZE + Z.of_nat q /\ Z.of_nat q < span n o.
Proof.
  intros Ho Hpos. unfold span. destruct (Z.gtb_spec n 0); [| lia].
  pose proof (Z.div_le_mono o pos BLOCK_SIZE ltac:(unfold BLOCK_SIZE; lia)
                ltac:(lia)) as Hlow.
  pose proof (Z.div_le_mono pos (o + n - 1) BLOCK_SIZE
                ltac:(unfold BLOCK_SIZE; lia) ltac:(lia)) as Hhigh.
  exists (Z.to_nat (pos / BLOCK_SIZE - o / BLOCK_SIZE)). lia.
Qed.

Section ReadRun.

Context {D : Type} `{BlockDevice D}.

Variables (d : D) (sdi edi : Z).

(** A read loop that runs to its end has read the block of every chain
    position that the bytes touch, in order; one that fails has read the
    blocks before the first one that does not read, and stopped there. *)
Lemma read_loop_run (fuel : nat) :
  forall (reading offset : Z) (out : list Z) (log : list io_event)
         (ex : loop_exit) (out' : list Z) (log' : list io_event),
    read_loop fuel sdi edi reading offset d out log = Some (ex, out', log') ->
    0 <= offset -> offset + reading < 2 ^ 64 ->
    match ex with
    | LoopDone _ _ =>
        exists k : nat,
          Z.of_nat k = span reading offset
          /\ (forall q : nat,
                (q < k)%nat ->
                is_Some
                  (block_read
                     (block_at sdi edi (offset / BLOCK_SIZE + Z.of_nat q)) d))
          /\ log' = log ++ reads sdi edi (offset / BLOCK_SIZE) k
    | LoopFail =>
        exists k : nat,
          Z.of_nat k < span reading offset
          /\ (forall q : nat,
                (q < k)%nat ->
                is_Some
                  (block_read
                     (block_at sdi edi (offset / BLOCK_SIZE + Z.of_nat q)) d))
          /\ block_read
               (block_at sdi edi (offset / BLOCK_SIZE + Z.of_nat k)) d
             = None
          /\ log' = log ++ reads sdi edi (offset / BLOCK_SIZE) (S k)
    end.
Proof.
  induction fuel as [| fuel IH];
    intros reading offset out log ex out' log' Hrun Ho Hsum;
    [discriminate |].
  simpl in Hrun. destruct (Z.gtb_spec reading 0) as [Hpos | Hzero].
  - pose proof (span_pos reading offset Hpos) as Hspan.
    destruct (block_read (block_of sdi edi offset) d) as [buffer |] eqn:Hr.
    + pose proof (chunk_bounds reading offset Hpos) as [Hc _].
      rewrite size_t_small in Hrun by lia.
      apply IH in Hrun; try lia.
      assert (Hstep :
          forall k : nat,
            (forall q : nat,
                (q < k)%nat ->
                is_Some
                  (block_read
                     (block_at sdi edi (offset / BLOCK_SIZE + 1 + Z.of_nat q))
                     d)) ->
            forall q : nat,
              (q < S k)%nat ->
              is_Some
                (block_read
                   (block_at sdi edi (offset / BLOCK_SIZE + Z.of_nat q)) d)).
      { intros k Hk [| q] Hq.
        - rewrite Z.add_0_r. unfold block_of in Hr. rewrite Hr. eauto.
        - replace (offset / BLOCK_SIZE + Z.of_nat (S q))
            with (offset / BLOCK_SIZE + 1 + Z.of_nat q) by lia.
          apply Hk. lia. }
      destruct (Z.eq_dec (chunk reading offset) reading) as [Hall | Hless].
      * rewrite span_none in Hrun by lia.
        destruct ex as [| r' o'].
        -- destruct Hrun as (k & Hk & _). lia.
        -- destruct Hrun as (k & Hk & _ & Hlog).
           assert (k = 0%nat) as -> by lia.
           exists 1%nat. rewrite (span_last _ _ Hpos Hall).
           split; [reflexivity |]. split.
           ++ apply (Hstep 0%nat). intros q Hq. lia.
           ++ unfold reads, block_of in *. simpl in *.
              rewrite app_nil_r in Hlog. exact Hlog.
      * assert (Hlt : chunk reading offset < reading) by lia.
        rewrite (next_block _ _ Hpos Hlt) in Hrun.
        rewrite (span_next _ _ Hpos Hlt).
        destruct ex as [| r' o'].
        -- destruct Hrun as (k & Hk & Hok & Hfail & ->).
           exists (S k). split; [lia |]. split; [now apply Hstep |].
           replace (offset / BLOCK_SIZE + Z.of_nat (S k))
             with (offset / BLOCK_SIZE + 1 + Z.of_nat k) by lia.
           split; [exact Hfail |].
           unfold reads, block_of. simpl. now rewrite <- !app_assoc.
        -- destruct Hrun as (k & Hk & Hok & ->).
           exists (S k). split; [lia |]. split; [now apply Hstep |].
           unfold reads, block_of. simpl. now rewrite <- !app_assoc.
    + injection Hrun as <- _ <-. exists 0%nat.
      split; [lia |]. split; [intros q Hq; lia |].
      rewrite Z.add_0_r. split; [exact Hr |].
      unfold reads, block_of. simpl. reflexivity.
  - injection Hrun as <- _ <-. exists 0%nat.
    rewrite span_none by lia. split; [reflexivity |].
    split; [intros q Hq; lia |]. unfold reads. simpl. now rewrite app_nil_r.
Qed.

End ReadRun.

Section Consecutive.

Context {D : Type} `{BlockDevice D}.

(** Neither call looks at the FAT: with another FAT image in memory the
    result is the same, FAT apart. *)
Lemma fs_read_ignores_fat (fd count : Z) (f : list Z) (s : fs_state D) :
  fs_read fd count (set_fat_flat f s)
  = option_map (fun x => (fst x, set_fat_flat f (snd x))) (fs_read fd count s).
Proof.
  destruct s as [sb fat root fl dsk lg].
  unfold fs_read, bad_fd, slot, entry, entries, set_fat_flat, set_files,
    set_io_log.
  cbn [super fat_flat root_entry files disk io_log].
  destruct (_ || _); [reflexivity |].
  destruct (find_first _ _) as [i |]; [| reflexivity].
  destruct (_ >=? _); [reflexivity |].
  destruct (read_loop _ _ _ _ _ _ _ _) as [[[[| r' o'] out'] log'] |];
    reflexivity.
Qed.

Lemma fs_write_ignores_fat (fd : Z) (buf : list Z) (count : Z) (f : list Z)
    (s : fs_state D) :
  fs_write fd buf count (set_fat_flat f s)
  = option_map (fun x => (fst x, set_fat_flat f (snd x)))
      (fs_write fd buf count s).
Proof.
  destruct s as [sb fat root fl dsk lg].
  unfold fs_write, bad_fd, slot, entry, entries, set_fat_flat, set_files,
    set_io_log, set_disk, set_root_entry.
  cbn [super fat_flat root_entry files disk io_log].
  destruct (_ || _); [reflexivity |].
  destruct (find_first _ _) as [i |]; [| reflexivity].
  destruct (write_loop _ _ _ _ _ _ _ _) as [[[[| w' o'] d'] log'] |];
    [reflexivity | | reflexivity].
  destruct (o' >? _); reflexivity.
Qed.

(** C2, as the code has it.  Let the open handle [fd] name directory entry
    [i] and stand at offset [o]; chain position [p] is block
    data_index + (first_data_index + p) of the volume (in [size_t]
    arithmetic), whatever the FAT says.

    A read before the end of the file, of n = min(count, file_size - o)
    bytes, reads the blocks of the positions o / 4096, o / 4096 + 1, ...
    that the bytes touch, one [block_read] each: either all of them read,
    and the byte delivered for position b is the byte at b mod 4096 of the
    block of position b / 4096, or the call stops at the first block that
    does not read and returns -1.

    A write reads the blocks of the positions that its [count] bytes
    touch and writes each back with the caller's bytes for the positions
    b of that block put at b mod 4096, in order, a [block_read] and a
    [block_write] each, and stops with -1 at the first call that fails.

    With another FAT in memory both calls do the same. *)
Theorem io_blocks_are_consecutive :
  forall (fd count : Z) (s : fs_state D) (i : Z),
    bad_fd s fd = false ->
    find_first (same_name (File.filename (slot s fd))) (entries s) = Some i ->
    0 <= File.offset (slot s fd) ->
    0 <= count ->
    File.offset (slot s fd) + count < 2 ^ 64 ->
    let sdi := SuperBlock.data_index (super s) in
    let edi := Entry.data_index (entry s i) in
    let o := File.offset (slot s fd) in
    let p := o / BLOCK_SIZE in
    let n := Z.min count (Entry.file_size (entry s i) - o) in
    (o < Entry.file_size (entry s i) ->
     exists (r : Z) (out : list Z) (s' : fs_state D),
       fs_read fd count s = Some (r, out, s')
       /\ ((r = to_int count
            /\ io_log s' = io_log s ++ reads sdi edi p (Z.to_nat (span n o))
            /\ length out = Z.to_nat n
            /\ forall j : Z,
                0 <= j < n ->
                exists b : list Z,
                  block_read (block_at sdi edi ((o + j) / BLOCK_SIZE)) (disk s)
                  = Some b
                  /\ out !! Z.to_nat j
                     = Some (nth (Z.to_nat ((o + j) mod BLOCK_SIZE)) b 0))
           \/ (r = -1
               /\ exists k : nat,
                   Z.of_nat k < span n o
                   /\ (forall q : nat,
                         (q < k)%nat ->
                         is_Some
                           (block_read (block_at sdi edi (p + Z.of_nat q))
                              (disk s)))
                   /\ block_read (block_at sdi edi (p + Z.of_nat k)) (disk s)
                      = None
                   /\ io_log s' = io_log s ++ reads sdi edi p (S k))))
    /\ (forall buf : list Z,
        exists (r : Z) (s' : fs_state D),
          fs_write fd buf count s = Some (r, s')
          /\ ((r = to_int count
               /\ rewritten (patch_of o count buf) sdi edi p
                    (Z.to_nat (span count o)) (disk s) (disk s')
               /\ io_log s'
                  = io_log s ++ updates sdi edi p (Z.to_nat (span count o)))
              \/ (r = -1
                  /\ exists k : nat,
                      Z.of_nat k < span count o
                      /\ rewritten (patch_of o count buf) sdi edi p k
                           (disk s) (disk s')
                      /\ ((block_read (block_at sdi edi (p + Z.of_nat k))
                             (disk s')
                           = None
                           /\ io_log s'
                              = io_log s ++ updates sdi edi p k
                                  ++ [EvRead
                                        (block_at sdi edi (p + Z.of_nat k))])
                          \/ (exists old : list Z,
                                block_read
                                  (block_at sdi edi (p + Z.of_nat k)) (disk s')
                                = Some old
                                /\ block_write
                                     (block_at sdi edi (p + Z.of_nat k))
                                     (patch_of o count buf (p + Z.of_nat k) old)
                                     (disk s')
                                   = None
                                /\ io_log s'
                                   = io_log s ++ updates sdi edi p (S k))))))
    /\ (forall f : list Z,
          fs_read fd count (set_fat_flat f s)
          = option_map (fun x => (fst x, set_fat_flat f (snd x)))
              (fs_read fd count s)
          /\ forall buf : list Z,
              fs_write fd buf count (set_fat_flat f s)
              = option_map (fun x => (fst x, set_fat_flat f (snd x)))
                  (fs_write fd buf count s)).
Proof.
  intros fd count s i Hfd Hfind Ho Hcount Hsum sdi edi o p n.
  split; [| split].
  - intros Hlt. unfold fs_read. rewrite Hfd, Hfind.
    fold o. fold edi. fold sdi.
    destruct (Z.geb_spec o (Entry.file_size (entry s i))); [lia |].
    rewrite size_t_small by (unfold o; lia).
    assert (Hn :
        (if o + count >? Entry.file_size (entry s i)
         then Entry.file_size (entry s i) - o else count) = n).
    { unfold n.
      destruct (Z.gtb_spec (o + count) (Entry.file_size (entry s i))); lia. }
    rewrite Hn.
    assert (Hn0 : 0 <= n <= count) by (unfold n; lia).
    destruct
      (read_loop_returns sdi edi (S (Z.to_nat n)) n o (disk s) []
         (io_log s) ltac:(lia)) as [[[ex out'] log'] Hrun].
    rewrite Hrun.
    pose proof (read_loop_run (disk s) sdi edi _ _ _ _ _ _ _ _ Hrun Ho
                  ltac:(unfold o; lia)) as Hcase.
    destruct ex as [| r' o'].
    + destruct Hcase as (k & Hk & Hok & Hfail & Hlog).
      eexists _, _, _. split; [reflexivity |]. right.
      split; [reflexivity |]. exists k.
      split; [exact Hk |]. split; [exact Hok |]. split; [exact Hfail |].
      exact Hlog.
    + destruct Hcase as (k & Hk & Hok & Hlog).
      assert (Hreadable : readable (disk s) sdi edi o n).
      { intros pos Hpos.
        destruct (position_in_span o n pos Ho Hpos) as (q & Hq & Hq').
        unfold block_of. rewrite Hq. apply Hok. lia. }
      destruct
        (read_loop_delivers (disk s) sdi edi (S (Z.to_nat n)) n o []
           (io_log s) ltac:(lia) Ho ltac:(lia) ltac:(unfold o; lia) Hreadable)
        as (out2 & log2 & Hrun2 & Hlen & Hbytes).
      rewrite Hrun in Hrun2. injection Hrun2 as -> -> -> ->.
      eexists _, _, _. split; [reflexivity |]. left.
      split; [now rewrite Z.sub_0_r, size_t_small by lia |].
      split.
      { cbn [io_log set_io_log set_files]. rewrite <- Hk, Nat2Z.id.
        exact Hlog. }
      split; [exact Hlen |].
      intros j Hj. specialize (Hbytes j Hj). unfold file_byte in Hbytes.
      destruct (Hreadable (o + j) ltac:(lia)) as [b Hb].
      rewrite Hb in Hbytes. exists b. split; [exact Hb | exact Hbytes].
  - intros buf. unfold fs_write. rewrite Hfd, Hfind.
    fold o. fold edi. fold sdi.
    destruct
      (write_loop_returns sdi edi (S (Z.to_nat count)) count o buf (disk s)
         (io_log s) ltac:(lia)) as [[[ex d'] log'] Hrun].
    rewrite Hrun.
    pose proof (write_loop_run sdi edi _ _ _ _ _ _ _ _ _ Hrun Ho
                  ltac:(unfold o; lia)) as Hcase.
    destruct ex as [| w' o'].
    + destruct Hcase as (k & Hk & Hrw & Hlast).
      eexists _, _. split; [reflexivity |]. right.
      split; [reflexivity |]. exists k.
      split; [exact Hk |]. split; [exact Hrw |]. exact Hlast.
    + destruct Hcase as (k & Hk & Hrw & Hlog).
      eexists _, _. split; [reflexivity |]. left.
      split; [reflexivity |]. rewrite <- Hk, Nat2Z.id.
      destruct (o' >? Entry.file_size (entry s i));
        (split; [exact Hrw | exact Hlog]).
  - intros f. split; [apply fs_read_ignores_fat |].
    intros buf. apply fs_write_ignores_fat.
Qed.

End Consecutive.

(** On the volume of "g" and "h": one byte read at offset 4096 is one
    transfer, of chain position 1 at block 3 + (1 + 1) = 5, and it
    succeeds. *)
Lemma io_blocks_are_consecutive_witness :
  exists (out : list Z) (s' : fs_state RamDisk),
    fs_read 0 1 (snd gh_seeked) = Some (1, out, s')
    /\ io_log s' = io_log (snd gh_seeked) ++ [EvRead 5].
Proof.
  destruct (io_blocks_are_consecutive 0 1 (snd gh_seeked) 0)
    as (Hread & _ & _).
  - vm_compute. reflexivity.
  - vm_compute. reflexivity.
  - vm_compute. discriminate.
  - lia.
  - vm_compute. reflexivity.
  - destruct Hread
      as (r & out & s' & Hrun
          & [(Hr & Hlog & _) | (_ & k & Hk & _ & Hfail & _)]).
    + vm_compute. reflexivity.
    + exists out, s'. rewrite Hrun, Hr. split; [reflexivity | exact Hlog].
    + exfalso. change (Z.of_nat k < 1) in Hk.
      assert (k = 0%nat) as -> by lia.
      vm_compute in Hfail. discriminate.
Defined.



Section ReadTheorems.

Context {D : Type} `{BlockDevice D}.

(** The run of a read that starts before the end of the file: result,
    bytes delivered and the state it leaves. *)
Lemma fs_read_run :
  forall (fd count : Z) (s : fs_state D) (i : Z),
    bad_fd s fd = false ->
    find_first (same_name (File.filename (slot s fd))) (entries s) = Some i ->
    0 <= File.offset (slot s fd) < Entry.file_size (entry s i) ->
    0 <= count ->
    File.offset (slot s fd) + count < 2 ^ 64 ->
    readable (disk s) (SuperBlock.data_index (super s))
      (Entry.data_index (entry s i)) (File.offset (slot s fd))
      (Z.min count (Entry.file_size (entry s i) - File.offset (slot s fd))) ->
    exists (out : list Z) (s' : fs_state D),
      fs_read fd count s = Some (to_int count, out, s')
      /\ length out
         = Z.to_nat
             (Z.min count (Entry.file_size (entry s i) - File.offset (slot s fd)))
      /\ (forall j : Z,
            0 <= j < Z.min count
                       (Entry.file_size (entry s i) - File.offset (slot s fd)) ->
            out !! Z.to_nat j
            = Some
                (file_byte (disk s) (SuperBlock.data_index (super s))
                   (Entry.data_index (entry s i))
                   (File.offset (slot s fd) + j)))
      /\ files s'
         = Files.mk (Files.open (files s))
             (store (Files.file (files s)) fd
                (File.set_offset
                   (File.offset (slot s fd)
                    + Z.min count
                        (Entry.file_size (entry s i) - File.offset (slot s fd)))
                   (slot s fd)))
      /\ super s' = super s /\ fat_flat s' = fat_flat s
      /\ root_entry s' = root_entry s /\ disk s' = disk s.
Proof.
  intros fd count s i Hfd Hfind Ho Hcount Hsum Hread.
  unfold fs_read. rewrite Hfd, Hfind.
  destruct (Z.geb_spec (File.offset (slot s fd)) (Entry.file_size (entry s i)));
    [lia |].
  rewrite size_t_small by lia.
  set (n := Z.min count (Entry.file_size (entry s i) - File.offset (slot s fd)))
    in *.
  assert (Hn :
      (if File.offset (slot s fd) + count >? Entry.file_size (entry s i)
       then Entry.file_size (entry s i) - File.offset (slot s fd)
       else count) = n).
  { unfold n.
    destruct (Z.gtb_spec (File.offset (slot s fd) + count)
                (Entry.file_size (entry s i))); lia. }
  rewrite Hn.
  destruct (read_loop_delivers (disk s) (SuperBlock.data_index (super s))
              (Entry.data_index (entry s i)) (S (Z.to_nat n)) n
              (File.offset (slot s fd)) [] (io_log s))
    as (out & log' & Hrun & Hlen & Hbytes); try lia; [exact Hread |].
  rewrite Hrun. cbn [app]. eexists out, _.
  rewrite Z.sub_0_r, size_t_small by lia.
  split; [reflexivity |]. split; [exact Hlen |]. split; [exact Hbytes |].
  repeat split.
Qed.


(** X7.  Let the handle [fd] name directory entry [i] and stand at offset
    [o] before the end of the file.  When the blocks holding the next
    n = min(count, file_size - o) bytes read, [fs_read] delivers exactly
    those [n] bytes, in order, and moves the offset to [o + n].  The
    open-file table is otherwise as before (the counter, the handle's
    name and every other slot), and so are the superblock, the FAT, the
    root directory and the device: only the log grows.  The value
    returned is [count], not [n]. *)
Theorem fs_read_delivers :
  forall (fd count : Z) (s : fs_state D) (i : Z),
    bad_fd s fd = false ->
    find_first (same_name (File.filename (slot s fd))) (entries s) = Some i ->
    0 <= File.offset (slot s fd) < Entry.file_size (entry s i) ->
    0 <= count ->
    File.offset (slot s fd) + count < 2 ^ 64 ->
    readable (disk s) (SuperBlock.data_index (super s))
      (Entry.data_index (entry s i)) (File.offset (slot s fd))
      (Z.min count (Entry.file_size (entry s i) - File.offset (slot s fd))) ->
    exists (out : list Z) (s' : fs_state D),
      fs_read fd count s = Some (to_int count, out, s')
      /\ length out
         = Z.to_nat
             (Z.min count (Entry.file_size (entry s i) - File.offset (slot s fd)))
      /\ (forall j : Z,
            0 <= j < Z.min count
                       (Entry.file_size (entry s i) - File.offset (slot s fd)) ->
            out !! Z.to_nat j
            = Some
                (file_byte (disk s) (SuperBlock.data_index (super s))
                   (Entry.data_index (entry s i))
                   (File.offset (slot s fd) + j)))
      /\ File.offset (slot s' fd)
         = File.offset (slot s fd)
           + Z.min count (Entry.file_size (entry s i) - File.offset (slot s fd))
      /\ files s'
         = Files.mk (Files.open (files s))
             (store (Files.file (files s)) fd
                (File.set_offset
                   (File.offset (slot s fd)
                    + Z.min count
                        (Entry.file_size (entry s i) - File.offset (slot s fd)))
                   (slot s fd)))
      /\ super s' = super s /\ fat_flat s' = fat_flat s
      /\ root_entry s' = root_entry s /\ disk s' = disk s.
Proof.
  intros fd count s i Hfd Hfind Ho Hcount Hsum Hread.
  destruct (fs_read_run fd count s i Hfd Hfind Ho Hcount Hsum Hread)
    as (out & s' & Hrun & Hlen & Hbytes & Hfiles & Hrest).
  exists out, s'.
  split; [exact Hrun |]. split; [exact Hlen |]. split; [exact Hbytes |].
  split; [| split; [exact Hfiles | exact Hrest]].
  apply bad_fd_false in Hfd as [Hrange Hused].
  unfold slot at 1. rewrite Hfiles. cbn [Files.file].
  rewrite cell_store; [reflexivity |].
  unfold slot, cell in Hused.
  destruct (Files.file (files s) !! Z.to_nat fd) eqn:Hlook; [| discriminate].
  now apply lookup_lt_Some in Hlook.
Qed.

Lemma cell_store_other {A} (dflt : A) (l : list A) (i j : Z) (x : A) :
  0 <= i -> 0 <= j -> i <> j -> cell dflt (store l i x) j = cell dflt l j.
Proof.
  intros Hi Hj Hne. unfold cell, store.
  rewrite list_lookup_insert_ne by lia. reflexivity.
Qed.

(** X8.  Handles are independent: [fs_lseek], [fs_read], [fs_write] and
    [fs_close] on descriptor [fd] leave the name and the offset of every
    other slot as they were. *)
Theorem other_handles_untouched :
  forall (fd fd' : Z) (s : fs_state D),
    fd' <> fd ->
    0 <= fd' ->
    (forall offset : Z, slot (snd (fs_lseek fd offset s)) fd' = slot s fd')
    /\ (forall (count r : Z) (out : list Z) (s' : fs_state D),
          fs_read fd count s = Some (r, out, s') -> slot s' fd' = slot s fd')
    /\ (forall (buf : list Z) (count r : Z) (s' : fs_state D),
          fs_write fd buf count s = Some (r, s') -> slot s' fd' = slot s fd')
    /\ slot (snd (fs_close fd s)) fd' = slot s fd'.
Proof.
  intros fd fd' s Hne Hfd'.
  assert (Hother : forall (n : Z) (f : File.t),
             0 <= fd ->
             slot (set_files (Files.mk n (store (Files.file (files s)) fd f)) s)
               fd'
             = slot s fd').
  { intros n f Hfd. unfold slot. cbn [files set_files Files.file].
    apply cell_store_other; lia. }
  assert (Hpos : bad_fd s fd = false -> 0 <= fd).
  { intros Hfd. apply bad_fd_false in Hfd. lia. }
  repeat split.
  - intros offset. unfold fs_lseek.
    destruct (bad_fd s fd); [reflexivity |].
    destruct (_ >? _); [reflexivity |]. apply Hother. now apply Hpos.
  - intros count r out s' Hread. unfold fs_read in Hread.
    destruct (bad_fd s fd); [now injection Hread as _ _ <- |].
    destruct (find_first _ _); [| now injection Hread as _ _ <-].
    destruct (_ >=? _); [now injection Hread as _ _ <- |].
    destruct (read_loop _ _ _ _ _ _ _ _) as [[[[| r' o'] out'] log'] |];
      try discriminate; injection Hread as _ _ <-; [reflexivity |].
    apply Hother. now apply Hpos.
  - intros buf count r s' Hwrite. unfold fs_write in Hwrite.
    destruct (bad_fd s fd); [now injection Hwrite as _ <- |].
    destruct (find_first _ _); [| now injection Hwrite as _ <-].
    destruct (write_loop _ _ _ _ _ _ _ _) as [[[[| w' o'] d'] log'] |];
      try discriminate; injection Hwrite as _ <-; [reflexivity |].
    destruct (_ >? _); apply Hother; now apply Hpos.
  - unfold fs_close.
    destruct (bad_fd s fd); [reflexivity |]. apply Hother. now apply Hpos.
Qed.

End ReadTheorems.

(** *** What a write stores *)

Lemma length_memcpy_at (dst src : list Z) (off n : Z) :
  0 <= off -> 0 <= n -> off + n <= Z.of_nat (length dst) ->
  length (memcpy_at dst off src n) = length dst.
Proof.
  intros Hoff Hn Hfit. unfold memcpy_at.
  rewrite !length_app, length_take, length_read_bytes, length_drop. lia.
Qed.

(** The bytes of a block after [memcpy(buffer + off, src, n)]. *)
Lemma memcpy_at_nth (dst src : list Z) (off n : Z) (k : nat) :
  0 <= off -> 0 <= n -> off + n <= Z.of_nat (length dst) ->
  nth k (memcpy_at dst off src n) 0
  = if (off <=? Z.of_nat k) && (Z.of_nat k <? off + n)
    then nth (k - Z.to_nat off) src 0
    else nth k dst 0.
Proof.
  intros Hoff Hn Hfit. unfold memcpy_at. rewrite !nth_lookup.
  destruct (Z.leb_spec off (Z.of_nat k)) as [Hge | Hlt]; simpl.
  - rewrite lookup_app_r by (rewrite length_take; lia).
    rewrite length_take.
    replace (k - Z.to_nat off `min` length dst)%nat
      with (k - Z.to_nat off)%nat by lia.
    destruct (Z.ltb_spec (Z.of_nat k) (off + n)) as [Hin | Hpast].
    + rewrite lookup_app_l by (rewrite length_read_bytes; lia).
      rewrite read_bytes_lookup by lia. simpl. now rewrite nth_lookup.
    + rewrite lookup_app_r by (rewrite length_read_bytes; lia).
      rewrite length_read_bytes, lookup_drop. do 2 f_equal. lia.
  - rewrite lookup_app_l by (rewrite length_take; lia).
    rewrite lookup_take_lt by lia. reflexivity.
Qed.

Lemma block_at_inj (sdi edi p q : Z) :
  0 <= sdi -> 0 <= edi -> 0 <= p -> 0 <= q ->
  sdi + edi + p < 2 ^ 64 -> sdi + edi + q < 2 ^ 64 ->
  block_at sdi edi p = block_at sdi edi q -> p = q.
Proof.
  intros Hs He Hp Hq Hpb Hqb. unfold block_at.
  rewrite !size_t_small by (rewrite ?size_t_small; lia). lia.
Qed.

Section Writing.

Context {D : Type} `{StoreLaws D}.

Variables sdi edi : Z.

Hypothesis sdi_pos : 0 <= sdi.
Hypothesis edi_pos : 0 <= edi.

(** A write loop that runs to its end on a sound device has stored the
    caller's bytes at the positions written, has kept every other byte, and
    leaves the blocks it touched readable. *)
Lemma write_loop_stores (fuel : nat) :
  forall (writing offset : Z) (buf : list Z) (d : D) (log : list io_event)
         (w' o' : Z) (d' : D) (log' : list io_event),
    write_loop fuel sdi edi writing offset buf d log
    = Some (LoopDone w' o', d', log') ->
    0 <= offset -> 0 <= writing ->
    sdi + edi + (offset + writing) / BLOCK_SIZE < 2 ^ 64 ->
    offset + writing < 2 ^ 64 ->
    dev_sound d ->
    dev_sound d'
    /\ (forall j : Z,
          0 <= j < writing ->
          file_byte d' sdi edi (offset + j) = nth (Z.to_nat j) buf 0)
    /\ (forall pos : Z,
          0 <= pos ->
          sdi + edi + pos / BLOCK_SIZE < 2 ^ 64 ->
          ~ (offset <= pos < offset + writing) ->
          file_byte d' sdi edi pos = file_byte d sdi edi pos)
    /\ (forall blk : Z,
          is_Some (block_read blk d) -> is_Some (block_read blk d'))
    /\ readable d' sdi edi offset writing.
Proof.
  induction fuel as [| fuel IH];
    intros writing offset buf d log w' o' d' log' Hrun Ho Hw Hblk Hsum Hd;
    [discriminate |].
  simpl in Hrun. destruct (Z.gtb_spec writing 0) as [Hpos | Hzero].
  2: { injection Hrun as _ _ <- _. assert (writing = 0) as -> by lia.
       repeat split; auto; intros; try lia. intros pos Hp. lia. }
  pose proof (chunk_bounds writing offset Hpos) as [Hc Hfit].
  pose proof (Z.mod_pos_bound offset BLOCK_SIZE ltac:(unfold BLOCK_SIZE; lia))
    as Hbo.
  destruct (block_read (block_of sdi edi offset) d) as [buffer |] eqn:Hbuf;
    [| discriminate].
  destruct (block_write (block_of sdi edi offset) _ d) as [d1 |] eqn:Hput;
    [| discriminate].
  rewrite size_t_small in Hrun by lia.
  pose proof (read_length d _ buffer Hd Hbuf) as Hlen.
  set (c := chunk writing offset) in *.
  set (bo := offset mod BLOCK_SIZE) in *.
  assert (Hlen' : length (memcpy_at buffer bo buf c) = 4096%nat).
  { rewrite length_memcpy_at; unfold BLOCK_SIZE in *; lia. }
  pose proof (write_sound d d1 _ _ Hd Hlen' Hput) as Hd1.
  pose proof (read_written d d1 _ _ Hput) as Hback.
  assert (Hmono : forall pos : Z,
             pos <= offset + writing ->
             pos / BLOCK_SIZE <= (offset + writing) / BLOCK_SIZE).
  { intros pos Hp. apply Z.div_le_mono; unfold BLOCK_SIZE; lia. }
  apply IH in Hrun as (Hd' & Hdata & Hframe & Hkeep & Hreadable);
    try lia; [| replace (offset + c + (writing - c)) with (offset + writing) by lia;
                exact Hblk | exact Hd1].
  (* bytes of the first round, as seen after the whole loop *)
  assert (Hfirst : forall pos : Z,
             0 <= pos ->
             pos / BLOCK_SIZE = offset / BLOCK_SIZE ->
             ~ (offset + c <= pos < offset + c + (writing - c)) ->
             file_byte d' sdi edi pos
             = nth (Z.to_nat (pos mod BLOCK_SIZE)) (memcpy_at buffer bo buf c) 0).
  { intros pos Hp Hq Hout.
    rewrite Hframe; [| exact Hp | rewrite Hq; specialize (Hmono offset); lia
                     | exact Hout].
    unfold file_byte, block_of. rewrite Hq.
    fold (block_of sdi edi offset). now rewrite Hback. }
  split; [exact Hd' |]. split; [| split; [| split]].
  - intros j Hj. destruct (Z_lt_le_dec j c) as [Hin | Hafter].
    + destruct (same_block offset j ltac:(lia) ltac:(fold bo; lia)) as [Hq Hm].
      rewrite Hfirst by lia. rewrite Hm. fold bo.
      rewrite memcpy_at_nth by (unfold BLOCK_SIZE in *; lia).
      destruct (Z.leb_spec bo (Z.of_nat (Z.to_nat (bo + j)))); [| lia].
      destruct (Z.ltb_spec (Z.of_nat (Z.to_nat (bo + j))) (bo + c)); [| lia].
      simpl. f_equal. lia.
    + replace (offset + j) with (offset + c + (j - c)) by lia.
      rewrite Hdata by lia. rewrite !nth_lookup, lookup_drop.
      do 2 f_equal. lia.
  - intros pos Hp Hbound Hout.
    destruct (Z.eq_dec (pos / BLOCK_SIZE) (offset / BLOCK_SIZE)) as [Hq | Hq].
    + rewrite Hfirst by lia.
      pose proof (Z.div_mod pos BLOCK_SIZE ltac:(unfold BLOCK_SIZE; lia)) as Hdp.
      pose proof (Z.div_mod offset BLOCK_SIZE ltac:(unfold BLOCK_SIZE; lia))
        as Hdo.
      pose proof (Z.mod_pos_bound pos BLOCK_SIZE ltac:(unfold BLOCK_SIZE; lia))
        as Hmp.
      rewrite Hq in Hdp. fold bo in Hdo.
      rewrite memcpy_at_nth by (unfold BLOCK_SIZE in *; lia).
      rewrite Z2Nat.id by lia.
      destruct (Z.leb_spec bo (pos mod BLOCK_SIZE));
        destruct (Z.ltb_spec (pos mod BLOCK_SIZE) (bo + c)); simpl;
        try lia;
        unfold file_byte, block_of; rewrite Hq;
        fold (block_of sdi edi offset); now rewrite Hbuf.
    + rewrite Hframe by lia.
      unfold file_byte.
      rewrite (read_other d d1 (block_of sdi edi offset) _ _ Hput);
        [reflexivity |].
      unfold block_of. intros Heq. apply Hq.
      apply (block_at_inj sdi edi); try lia.
      * apply Z.div_pos; unfold BLOCK_SIZE; lia.
      * apply Z.div_pos; unfold BLOCK_SIZE; lia.
      * specialize (Hmono offset). lia.
  - intros blk Hsome. apply Hkeep.
    destruct (Z.eq_dec blk (block_of sdi edi offset)) as [-> | Hne].
    + rewrite Hback. eauto.
    + now rewrite (read_other d d1 _ _ _ Hput Hne).
  - intros pos Hp. destruct (Z_lt_le_dec pos (offset + c)) as [Hin | Hafter].
    + destruct (same_block offset (pos - offset) ltac:(lia) ltac:(fold bo; lia))
        as [Hq _].
      replace (offset + (pos - offset)) with pos in Hq by lia.
      unfold block_of. rewrite Hq. fold (block_of sdi edi offset).
      apply Hkeep. rewrite Hback. eauto.
    + apply Hreadable. lia.
Qed.

End Writing.

Lemma find_from_insert_same {A} (p : A -> bool) (l : list A) (x : A) :
  forall (n : nat) (i : Z),
    (forall y : A, l !! n = Some y -> p x = p y) ->
    find_from p (<[n := x]> l) i = find_from p l i.
Proof.
  induction l as [| y l IH]; intros n i Hsame; [reflexivity |].
  destruct n as [| n]; simpl.
  - now rewrite (Hsame y eq_refl).
  - destruct (p y); [reflexivity |]. apply IH. exact Hsame.
Qed.

Section WriteTheorems.

Context {D : Type} `{StoreLaws D}.

(** What a write that did not fail has done to the state. *)
Lemma fs_write_inv (fd : Z) (buf : list Z) (count r : Z) (s s' : fs_state D) :
  fs_write fd buf count s = Some (r, s') ->
  r <> -1 ->
  exists (i w' o' : Z) (d' : D) (log' : list io_event),
    bad_fd s fd = false
    /\ find_first (same_name (File.filename (slot s fd))) (entries s) = Some i
    /\ write_loop (S (Z.to_nat count)) (SuperBlock.data_index (super s))
         (Entry.data_index (entry s i)) count (File.offset (slot s fd)) buf
         (disk s) (io_log s)
       = Some (LoopDone w' o', d', log')
    /\ r = to_int count
    /\ super s' = super s /\ fat_flat s' = fat_flat s /\ disk s' = d'
    /\ files s'
       = Files.mk (Files.open (files s))
           (store (Files.file (files s)) fd (File.set_offset o' (slot s fd)))
    /\ root_entry s'
       = (if o' >? Entry.file_size (entry s i)
          then store (root_entry s) i
                 (Entry.set_file_size (uint32_t o') (entry s i))
          else root_entry s).
Proof.
  intros Hwrite Hr. unfold fs_write in Hwrite.
  destruct (bad_fd s fd); [injection Hwrite as <- _; contradiction |].
  destruct (find_first _ _) as [i |]; [| injection Hwrite as <- _; contradiction].
  destruct (write_loop _ _ _ _ _ _ _ _) as [[[[| w' o'] d'] log'] |] eqn:Hrun;
    try discriminate; [injection Hwrite as <- _; contradiction |].
  injection Hwrite as <- <-.
  exists i, w', o', d', log'.
  destruct (o' >? Entry.file_size (entry s i));
    repeat split; try reflexivity; exact Hrun.
Qed.

(** X9.  A write of fewer than 2^31 bytes that does not fail, on a sound
    device and without overflow of the block arithmetic, returns [count];
    afterwards the file's bytes at positions o .. o + count - 1 are the
    caller's bytes, every other byte of the file region is what it was
    (the read-modify-write of partial blocks keeps the rest of the block),
    and the handle's offset is [o + count]. *)
Theorem fs_write_stores :
  forall (fd : Z) (buf : list Z) (count : Z) (s : fs_state D) (i r : Z)
         (s' : fs_state D),
    dev_sound (disk s) ->
    find_first (same_name (File.filename (slot s fd))) (entries s) = Some i ->
    0 <= File.offset (slot s fd) ->
    0 <= count < 2 ^ 31 ->
    0 <= SuperBlock.data_index (super s) ->
    0 <= Entry.data_index (entry s i) ->
    SuperBlock.data_index (super s) + Entry.data_index (entry s i)
    + (File.offset (slot s fd) + count) / BLOCK_SIZE < 2 ^ 64 ->
    File.offset (slot s fd) + count < 2 ^ 64 ->
    fs_write fd buf count s = Some (r, s') ->
    r <> -1 ->
    r = count
    /\ dev_sound (disk s')
    /\ (forall j : Z,
          0 <= j < count ->
          file_byte (disk s') (SuperBlock.data_index (super s))
            (Entry.data_index (entry s i)) (File.offset (slot s fd) + j)
          = nth (Z.to_nat j) buf 0)
    /\ (forall pos : Z,
          0 <= pos ->
          SuperBlock.data_index (super s) + Entry.data_index (entry s i)
          + pos / BLOCK_SIZE < 2 ^ 64 ->
          ~ (File.offset (slot s fd) <= pos < File.offset (slot s fd) + count) ->
          file_byte (disk s') (SuperBlock.data_index (super s))
            (Entry.data_index (entry s i)) pos
          = file_byte (disk s) (SuperBlock.data_index (super s))
              (Entry.data_index (entry s i)) pos)
    /\ File.offset (slot s' fd) = File.offset (slot s fd) + count.
Proof.
  intros fd buf count s i r s' Hd Hfind Ho Hcount Hsdi Hedi Hblk Hsum Hwrite Hr.
  destruct (fs_write_inv fd buf count r s s' Hwrite Hr)
    as (i' & w' & o' & d' & log' & Hfd & Hfind' & Hrun & -> & _ & _ & Hdisk
        & Hfiles & _).
  rewrite Hfind in Hfind'. injection Hfind' as <-.
  destruct (write_loop_done _ _ _ _ _ _ _ _ _ _ _ _ Hrun) as [_ ->]; try lia.
  destruct (write_loop_stores _ _ Hsdi Hedi _ _ _ _ _ _ _ _ _ _ Hrun)
    as (Hd' & Hdata & Hframe & _ & _); try lia; [exact Hd |].
  rewrite Hdisk.
  split; [apply to_int_small; lia |]. split; [exact Hd' |].
  split; [exact Hdata |]. split; [exact Hframe |].
  unfold slot at 1. rewrite Hfiles. cbn [Files.file].
  rewrite cell_store; [reflexivity |].
  apply bad_fd_false in Hfd as [_ Hused].
  unfold slot, cell in Hused.
  destruct (Files.file (files s) !! Z.to_nat fd) eqn:Hlook; [| discriminate].
  now apply lookup_lt_Some in Hlook.
Qed.

End WriteTheorems.

Section RoundTrip.

Context {D : Type} `{StoreLaws D}.

Lemma fs_lseek_inv (fd offset : Z) (s s' : fs_state D) :
  fs_lseek fd offset s = (0, s') ->
  bad_fd s fd = false
  /\ s' = set_files
            (Files.mk (Files.open (files s))
               (store (Files.file (files s)) fd
                  (File.set_offset offset (slot s fd)))) s.
Proof.
  unfold fs_lseek. intros Hseek.
  destruct (bad_fd s fd); [discriminate |].
  destruct (_ >? _); [discriminate |].
  injection Hseek as <-. now split.
Qed.

(** A usable descriptor indexes a cell of the table. *)
Lemma fd_in_table (s : fs_state D) (fd : Z) :
  bad_fd s fd = false -> (Z.to_nat fd < length (Files.file (files s)))%nat.
Proof.
  intros Hfd. apply bad_fd_false in Hfd as [_ Hused].
  unfold slot, cell in Hused.
  destruct (Files.file (files s) !! Z.to_nat fd) eqn:Hlook; [| discriminate].
  now apply lookup_lt_Some in Hlook.
Qed.

(** X10.  Read after write: on a sound device, a write of [count] bytes at
    offset [o] that does not fail, followed by a successful seek back to
    [o], makes a read of [count] bytes return [count] and deliver exactly
    the bytes written (sizes below 2^32 and 2^31, no overflow of the block
    arithmetic). *)
Theorem write_then_read_back :
  forall (fd : Z) (buf : list Z) (count : Z) (s : fs_state D) (i r : Z)
         (s1 s2 : fs_state D),
    dev_sound (disk s) ->
    find_first (same_name (File.filename (slot s fd))) (entries s) = Some i ->
    0 <= File.offset (slot s fd) ->
    0 <= count < 2 ^ 31 ->
    length buf = Z.to_nat count ->
    0 <= SuperBlock.data_index (super s) ->
    0 <= Entry.data_index (entry s i) ->
    SuperBlock.data_index (super s) + Entry.data_index (entry s i)
    + (File.offset (slot s fd) + count) / BLOCK_SIZE < 2 ^ 64 ->
    File.offset (slot s fd) + count < 2 ^ 32 ->
    fs_write fd buf count s = Some (r, s1) ->
    r <> -1 ->
    fs_lseek fd (File.offset (slot s fd)) s1 = (0, s2) ->
    exists s3 : fs_state D, fs_read fd count s2 = Some (count, buf, s3).
Proof.
  intros fd buf count s i r s1 s2 Hd Hfind Ho Hcount Hbuf Hsdi Hedi Hblk Hsum
    Hwrite Hr Hseek.
  destruct (fs_write_inv fd buf count r s s1 Hwrite Hr)
    as (i' & w' & o' & d' & log' & Hfd & Hfind' & Hrun & -> & Hsuper1 & _
        & Hdisk1 & Hfiles1 & Hroot1).
  rewrite Hfind in Hfind'. injection Hfind' as <-.
  destruct (write_loop_done _ _ _ _ _ _ _ _ _ _ _ _ Hrun) as [_ ->]; try lia.
  destruct (write_loop_stores _ _ Hsdi Hedi _ _ _ _ _ _ _ _ _ _ Hrun)
    as (_ & Hdata & _ & _ & Hreadable); try lia; [exact Hd |].
  destruct (fs_lseek_inv _ _ _ _ Hseek) as [Hfd1 ->].
  remember (File.offset (slot s fd)) as o eqn:Eo in *.
  pose proof (fd_in_table s fd Hfd) as Hin.
  pose proof (bad_fd_false s fd Hfd) as [Hrange Hused].
  pose proof (find_first_bounds _ _ _ Hfind) as Hi.
  destruct (find_first_Some _ _ _ Hfind) as (y & Hy & _).
  assert (Hi' : (Z.to_nat i < 128)%nat).
  { unfold entries, FS_FILE_MAX_COUNT in Hi. rewrite length_take in Hi. lia. }
  assert (Hentry : entry s i = y).
  { unfold entry. rewrite <- (cell_take _ 128) by lia.
    now apply cell_lookup. }
  (* the handle after the seek *)
  assert (Hslot1 : slot s1 fd = File.set_offset (o + count) (slot s fd)).
  { unfold slot at 1. rewrite Hfiles1. cbn [Files.file].
    now apply cell_store. }
  set (s2 :=
         set_files
           (Files.mk (Files.open (files s1))
              (store (Files.file (files s1)) fd
                 (File.set_offset o (slot s1 fd)))) s1) in *.
  assert (Hslot2 : slot s2 fd = File.mk (File.filename (slot s fd)) o).
  { unfold slot at 1, s2. cbn [files set_files Files.file].
    rewrite cell_store.
    - rewrite Hslot1. reflexivity.
    - rewrite Hfiles1. cbn [Files.file]. now rewrite length_store. }
  assert (Hfd2 : bad_fd s2 fd = false).
  { unfold bad_fd. rewrite Hslot2. unfold FS_OPEN_MAX_COUNT.
    destruct (Z.ltb_spec fd 0); [lia |]. destruct (Z.geb_spec fd 32); [lia |].
    exact Hused. }
  (* the directory after the write *)
  remember (Entry.file_size (entry s i)) as size eqn:Esize in *.
  assert (Hentries2 :
      entries s2
      = if o + count >? size
        then store (entries s) i
               (Entry.set_file_size (uint32_t (o + count)) (entry s i))
        else entries s).
  { unfold entries at 1, s2. cbn [root_entry set_files]. rewrite Hroot1.
    destruct (o + count >? size); [| reflexivity].
    now rewrite take_store by (unfold FS_FILE_MAX_COUNT; lia). }
  assert (Hfind2 :
      find_first (same_name (File.filename (slot s2 fd))) (entries s2) = Some i).
  { rewrite Hslot2, Hentries2. cbn [File.filename].
    destruct (o + count >? size); [| exact Hfind].
    unfold find_first, store. rewrite find_from_insert_same; [exact Hfind |].
    intros y' Hy'. rewrite Hy in Hy'. injection Hy' as <-.
    now rewrite Hentry. }
  assert (Hentry2 :
      entry s2 i
      = if o + count >? size
        then Entry.set_file_size (uint32_t (o + count)) (entry s i)
        else entry s i).
  { unfold entry at 1. rewrite <- (cell_take _ 128) by lia.
    change (take 128 (root_entry s2)) with (entries s2). rewrite Hentries2.
    destruct (o + count >? size).
    - apply cell_store. lia.
    - unfold entries, FS_FILE_MAX_COUNT. rewrite cell_take by lia.
      reflexivity. }
  assert (Hedi2 : Entry.data_index (entry s2 i) = Entry.data_index (entry s i)).
  { rewrite Hentry2. now destruct (o + count >? size). }
  assert (Hsize2 : Entry.file_size (entry s2 i) = Z.max size (o + count)).
  { rewrite Hentry2.
    destruct (Z.gtb_spec (o + count) size); cbn [Entry.file_size Entry.set_file_size].
    - unfold uint32_t. rewrite Z.mod_small; lia.
    - rewrite <- Esize. lia. }
  assert (Hoff2 : File.offset (slot s2 fd) = o) by now rewrite Hslot2.
  destruct (Z.eq_dec count 0) as [-> | Hsome].
  - (* nothing written, nothing to read *)
    destruct buf; [| discriminate].
    unfold fs_read. rewrite Hfd2, Hfind2, Hoff2, Hsize2.
    destruct (Z.geb_spec o (Z.max size (o + 0))); [eauto |].
    rewrite size_t_small by lia.
    destruct (Z.gtb_spec (o + 0) (Z.max size (o + 0))); [lia |].
    simpl. rewrite Z.sub_0_r. eauto.
  - destruct (fs_read_run fd count s2 i Hfd2 Hfind2)
      as (out & s3 & Hread & Hlen & Hbytes & _).
    + rewrite Hoff2, Hsize2. lia.
    + lia.
    + rewrite Hoff2. lia.
    + rewrite Hoff2, Hsize2, Hedi2.
      replace (Z.min count (Z.max size (o + count) - o)) with count by lia.
      change (disk s2) with (disk s1). rewrite Hdisk1.
      change (super s2) with (super s1). rewrite Hsuper1.
      exact Hreadable.
    + rewrite Hoff2, Hsize2 in Hlen, Hbytes.
      replace (Z.min count (Z.max size (o + count) - o)) with count
        in Hlen, Hbytes by lia.
      exists s3. rewrite Hread, to_int_small by lia.
      do 3 f_equal. apply list_eq. intros k.
      destruct (Nat.lt_ge_cases k (Z.to_nat count)) as [Hk | Hk].
      * specialize (Hbytes (Z.of_nat k) ltac:(lia)).
        rewrite Nat2Z.id in Hbytes. rewrite Hbytes.
        rewrite Hedi2. change (disk s2) with (disk s1). rewrite Hdisk1.
        change (super s2) with (super s1). rewrite Hsuper1.
        rewrite Hdata by lia. rewrite Nat2Z.id, nth_lookup.
        destruct (lookup_lt_is_Some_2 buf k ltac:(lia)) as [x ->].
        reflexivity.
      * rewrite !lookup_ge_None_2 by lia. reflexivity.
Qed.

End RoundTrip.

(** *** Encoding and decoding the images *)

Lemma length_le_bytes (n : nat) : forall z : Z, length (le_bytes n z) = n.
Proof. induction n as [| n IH]; intros z; simpl; [| rewrite IH]; reflexivity. Qed.

Lemma le_uint_le_bytes (n : nat) :
  forall z : Z, 0 <= z < 256 ^ Z.of_nat n -> le_uint (le_bytes n z) = z.
Proof.
  induction n as [| n IH]; intros z Hz.
  - simpl in *. lia.
  - cbn [le_bytes le_uint].
    rewrite Nat2Z.inj_succ, Z.pow_succ_r in Hz by lia.
    rewrite IH.
    + pose proof (Z.div_mod z 256 ltac:(lia)). lia.
    + split; [apply Z.div_pos; lia | apply Z.div_lt_upper_bound; lia].
Qed.

Lemma read_bytes_app_exact (x y : list Z) (n : nat) :
  length x = n -> read_bytes (x ++ y) n = x.
Proof.
  intros Hx. unfold read_bytes. rewrite <- app_assoc.
  now apply take_app_length'.
Qed.

Lemma drop_app_exact {A} (x y : list A) (n : nat) :
  length x = n -> drop n (x ++ y) = y.
Proof. intros Hx. now apply drop_app_length'. Qed.

Lemma length_entry_encode (e : Entry.t) : length (Entry.encode e) = 32%nat.
Proof.
  unfold Entry.encode.
  now rewrite !length_app, !length_read_bytes, !length_le_bytes.
Qed.

Lemma length_super_encode (sb : SuperBlock.t) :
  length (SuperBlock.encode sb) = 4096%nat.
Proof.
  unfold SuperBlock.encode.
  now rewrite !length_app, !length_read_bytes, !length_le_bytes.
Qed.

(** The packed layouts lose nothing: an entry that fits its struct is read
    back from its 32 bytes, whatever follows them. *)
Lemma entry_decode_encode (e : Entry.t) (rest : list Z) :
  entry_fits e -> Entry.decode (Entry.encode e ++ rest) = e.
Proof.
  destruct e as [fn sz di pad]. intros (Hfn & Hsz & Hdi & Hpad).
  cbn [Entry.filename Entry.file_size Entry.data_index Entry.unused_padding]
    in *.
  unfold Entry.decode, Entry.encode.
  cbn [Entry.filename Entry.file_size Entry.data_index Entry.unused_padding].
  rewrite (read_bytes_exact fn 16 Hfn), (read_bytes_exact pad 10 Hpad).
  rewrite <- !app_assoc.
  rewrite (read_bytes_app_exact fn _ 16 Hfn).
  rewrite (drop_app_exact fn _ 16 Hfn).
  rewrite (read_bytes_app_exact (le_bytes 4 sz) _ 4 (length_le_bytes 4 sz)).
  replace (drop 20 (fn ++ le_bytes 4 sz ++ le_bytes 2 di ++ pad ++ rest))
    with (le_bytes 2 di ++ pad ++ rest).
  2: { rewrite (app_assoc fn). symmetry. apply drop_app_exact.
       now rewrite length_app, Hfn, length_le_bytes. }
  replace (drop 22 (fn ++ le_bytes 4 sz ++ le_bytes 2 di ++ pad ++ rest))
    with (pad ++ rest).
  2: { rewrite (app_assoc (le_bytes 4 sz)), (app_assoc fn). symmetry.
       apply drop_app_exact.
       now rewrite !length_app, Hfn, !length_le_bytes. }
  rewrite (read_bytes_app_exact (le_bytes 2 di) _ 2 (length_le_bytes 2 di)).
  rewrite (read_bytes_app_exact pad rest 10 Hpad).
  rewrite !le_uint_le_bytes by (simpl; lia).
  reflexivity.
Qed.

Lemma decode_entries_encode (es : list Entry.t) (rest : list Z) :
  Forall entry_fits es ->
  decode_entries (length es) (concat (map Entry.encode es) ++ rest) = es.
Proof.
  induction 1 as [| e es He Hes IH]; [reflexivity |].
  cbn [length map concat decode_entries]. rewrite <- app_assoc.
  rewrite (entry_decode_encode e _ He). f_equal.
  rewrite (drop_app_exact (Entry.encode e) _ 32 (length_entry_encode e)).
  exact IH.
Qed.

Lemma super_decode_encode (sb : SuperBlock.t) :
  super_fits sb -> SuperBlock.decode (SuperBlock.encode sb) = sb.
Proof.
  destruct sb as [sig tb ri di db fb pad].
  intros (Hsig & Htb & Hri & Hdi & Hdb & Hfb & Hpad).
  cbn [SuperBlock.signature SuperBlock.total_blocks SuperBlock.root_index
       SuperBlock.data_index SuperBlock.data_blocks SuperBlock.fat_blocks
       SuperBlock.unused_padding] in *.
  unfold SuperBlock.decode, SuperBlock.encode.
  cbn [SuperBlock.signature SuperBlock.total_blocks SuperBlock.root_index
       SuperBlock.data_index SuperBlock.data_blocks SuperBlock.fat_blocks
       SuperBlock.unused_padding].
  rewrite (read_bytes_exact sig 8 Hsig), (read_bytes_exact pad 4079 Hpad).
  set (t1 := le_bytes 2 tb). set (t2 := le_bytes 2 ri).
  set (t3 := le_bytes 2 di). set (t4 := le_bytes 2 db).
  set (t5 := le_bytes 1 fb).
  assert (H1 : length t1 = 2%nat) by apply length_le_bytes.
  assert (H2 : length t2 = 2%nat) by apply length_le_bytes.
  assert (H3 : length t3 = 2%nat) by apply length_le_bytes.
  assert (H4 : length t4 = 2%nat) by apply length_le_bytes.
  assert (H5 : length t5 = 1%nat) by apply length_le_bytes.
  rewrite (read_bytes_app_exact sig _ 8 Hsig).
  rewrite (drop_app_exact sig _ 8 Hsig).
  rewrite (read_bytes_app_exact t1 _ 2 H1).
  replace (drop 10 (sig ++ t1 ++ t2 ++ t3 ++ t4 ++ t5 ++ pad))
    with (t2 ++ t3 ++ t4 ++ t5 ++ pad).
  2: { rewrite (app_assoc sig). symmetry. apply drop_app_exact.
       now rewrite length_app, Hsig, H1. }
  replace (drop 12 (sig ++ t1 ++ t2 ++ t3 ++ t4 ++ t5 ++ pad))
    with (t3 ++ t4 ++ t5 ++ pad).
  2: { rewrite (app_assoc t1), (app_assoc sig). symmetry.
       apply drop_app_exact. now rewrite !length_app, Hsig, H1, H2. }
  replace (drop 14 (sig ++ t1 ++ t2 ++ t3 ++ t4 ++ t5 ++ pad))
    with (t4 ++ t5 ++ pad).
  2: { rewrite (app_assoc t2), (app_assoc t1), (app_assoc sig). symmetry.
       apply drop_app_exact. now rewrite !length_app, Hsig, H1, H2, H3. }
  replace (drop 16 (sig ++ t1 ++ t2 ++ t3 ++ t4 ++ t5 ++ pad))
    with (t5 ++ pad).
  2: { rewrite (app_assoc t3), (app_assoc t2), (app_assoc t1), (app_assoc sig).
       symmetry. apply drop_app_exact.
       now rewrite !length_app, Hsig, H1, H2, H3, H4. }
  replace (drop 17 (sig ++ t1 ++ t2 ++ t3 ++ t4 ++ t5 ++ pad)) with pad.
  2: { rewrite (app_assoc t4), (app_assoc t3), (app_assoc t2),
         (app_assoc t1), (app_assoc sig).
       symmetry. apply drop_app_exact.
       now rewrite !length_app, Hsig, H1, H2, H3, H4, H5. }
  rewrite (read_bytes_app_exact t2 _ 2 H2), (read_bytes_app_exact t3 _ 2 H3),
    (read_bytes_app_exact t4 _ 2 H4), (read_bytes_app_exact t5 _ 1 H5).
  rewrite (read_bytes_exact pad 4079 Hpad).
  subst t1 t2 t3 t4 t5.
  rewrite !le_uint_le_bytes by (simpl; lia).
  reflexivity.
Qed.

Lemma read_bytes_lookup_ge (m : list Z) (n j : nat) :
  (n <= j)%nat -> read_bytes m n !! j = None.
Proof. intros Hj. apply lookup_ge_None. now rewrite length_read_bytes. Qed.

Lemma read_bytes_read_bytes (m : list Z) (k n : nat) :
  (k <= n)%nat -> read_bytes (read_bytes m n) k = read_bytes m k.
Proof.
  intros Hk. apply list_eq. intros j.
  destruct (Nat.lt_ge_cases j k) as [Hj | Hj].
  - rewrite !read_bytes_lookup by lia. f_equal.
    rewrite (nth_lookup (read_bytes m n)), read_bytes_lookup by lia.
    reflexivity.
  - now rewrite !read_bytes_lookup_ge.
Qed.

Lemma drop_read_bytes (m : list Z) (k n : nat) :
  (k <= n)%nat -> drop k (read_bytes m n) = read_bytes (drop k m) (n - k).
Proof.
  intros Hk. apply list_eq. intros j. rewrite lookup_drop.
  destruct (Nat.lt_ge_cases j (n - k)) as [Hj | Hj].
  - rewrite !read_bytes_lookup by lia. f_equal.
    rewrite !nth_lookup, lookup_drop. reflexivity.
  - rewrite !read_bytes_lookup_ge by lia. reflexivity.
Qed.

(** Decoding words from a block reads the same as decoding them from the
    memory the block was copied from. *)
Lemma decode_words_read_bytes (n : nat) :
  forall (m : list Z) (size : nat),
    (2 * n <= size)%nat ->
    decode_words n (read_bytes m size) = decode_words n m.
Proof.
  induction n as [| n IH]; intros m size Hn; [reflexivity |].
  cbn [decode_words].
  rewrite read_bytes_read_bytes by lia.
  rewrite drop_read_bytes by lia.
  rewrite IH by lia. reflexivity.
Qed.

Lemma decode_words_app (a : nat) :
  forall (b : nat) (m : list Z),
    decode_words (a + b) m
    = decode_words a m ++ decode_words b (drop (2 * a) m).
Proof.
  induction a as [| a IH]; intros b m; [reflexivity |].
  cbn [Nat.add decode_words app]. f_equal.
  rewrite IH, drop_drop. do 3 f_equal. lia.
Qed.

Lemma take_decode_words (a : nat) :
  forall (n : nat) (m : list Z),
    (a <= n)%nat -> take a (decode_words n m) = decode_words a m.
Proof.
  induction a as [| a IH]; intros n m Ha; [reflexivity |].
  destruct n as [| n]; [lia |].
  cbn [decode_words take]. f_equal. apply IH. lia.
Qed.

Lemma decode_words_encode (ws : list Z) (rest : list Z) :
  Forall (fun w => 0 <= w < 2 ^ 16) ws ->
  decode_words (length ws) (concat (map (le_bytes 2) ws) ++ rest) = ws.
Proof.
  induction 1 as [| w ws Hw Hws IH]; [reflexivity |].
  cbn [length map concat decode_words]. rewrite <- app_assoc.
  rewrite (read_bytes_app_exact (le_bytes 2 w) _ 2 (length_le_bytes 2 w)).
  rewrite (drop_app_exact (le_bytes 2 w) _ 2 (length_le_bytes 2 w)).
  rewrite le_uint_le_bytes by (simpl; lia).
  now rewrite IH.
Qed.

(** The words of [n] consecutive 4096-byte blocks of a memory region are
    the first [2048 * n] words of the region. *)
Lemma decode_blocks (m : list Z) (n : nat) :
  forall i : Z,
    0 <= i ->
    concat
      (map
         (fun k =>
            decode_words 2048
              (read_bytes (drop (Z.to_nat (k * BLOCK_SIZE)) m) 4096))
         (consecutive i n))
    = decode_words (2048 * n) (drop (Z.to_nat (i * BLOCK_SIZE)) m).
Proof.
  induction n as [| n IH]; intros i Hi.
  - now rewrite Nat.mul_0_r.
  - cbn [consecutive map concat].
    rewrite decode_words_read_bytes by lia.
    rewrite IH by lia.
    replace (2048 * S n)%nat with (2048 + 2048 * n)%nat by lia.
    rewrite decode_words_app, drop_drop. do 3 f_equal.
    unfold BLOCK_SIZE. lia.
Qed.

(** *** Unmounting *)

Section LoadAll.

Context {D : Type} `{BlockDevice D}.

(** When the FAT blocks read, the loop loads their words in order. *)
Lemma load_fat_reads (image : Z -> list Z) (d : D) (n : nat) :
  forall (i : Z) (words : list Z) (log : list io_event),
    (forall k : Z, i <= k < i + Z.of_nat n ->
                   block_read (k + 1) d = Some (image k)) ->
    exists log' : list io_event,
      load_fat n i d words log
      = (true,
         words
           ++ concat (map (fun k => decode_words 2048 (image k)) (consecutive i n)),
         log').
Proof.
  induction n as [| n IH]; intros i words log Hread; cbn [load_fat].
  - exists log. cbn [consecutive map concat]. now rewrite app_nil_r.
  - rewrite (Hread i) by lia.
    destruct (IH (i + 1) (words ++ decode_words 2048 (image i))
                (log ++ [EvRead (i + 1)])) as [log' ->].
    { intros k Hk. apply Hread. lia. }
    exists log'. cbn [consecutive map concat]. now rewrite <- app_assoc.
Qed.

End LoadAll.

Section Unmounting.

Context {D : Type} `{StoreLaws D} `{!DiskClose D} `{!ReopenLaws D}.

Lemma Returns_inj (r r' : Z) (s s' : fs_state D) :
  Returns r s = Returns r' s' -> s = s'.
Proof. intros Heq. now injection Heq. Qed.

(** The FAT loop of [fs_umount], when it succeeds, has put its images in
    blocks [i + 1 .. i + n] and touched no other block. *)
Lemma store_fat_stores (image : Z -> list Z) (n : nat) :
  forall (i : Z) (d d' : D) (log log' : list io_event),
    store_fat n i image d log = (true, d', log') ->
    (forall k : Z, i <= k < i + Z.of_nat n ->
                   block_read (k + 1) d' = Some (image k))
    /\ (forall j : Z, ~ (i + 1 <= j <= i + Z.of_nat n) ->
                      block_read j d' = block_read j d).
Proof.
  induction n as [| n IH]; intros i d d' log log' Hrun; cbn [store_fat] in Hrun.
  - injection Hrun as <- _. split; [intros k Hk; lia | reflexivity].
  - destruct (block_write (i + 1) (image i) d) as [d1 |] eqn:Hput;
      [| discriminate].
    destruct (IH _ _ _ _ _ Hrun) as [Hnew Hold]. split.
    + intros k Hk. destruct (Z.eq_dec k i) as [-> | Hne].
      * rewrite Hold by lia. exact (read_written d d1 _ _ Hput).
      * apply Hnew. lia.
    + intros j Hj. rewrite Hold by lia.
      apply (read_other d d1 _ _ _ Hput). lia.
Qed.

(** What a successful [fs_umount] has written and closed. *)
Lemma fs_umount_inv (beyond : list Z) (s s1 : fs_state D) :
  fs_umount beyond s = (0, s1) ->
  exists (d0 d1 d2 : D) (log1 : list io_event),
    block_write 0 (super_image s) (disk s) = Some d0
    /\ store_fat (Z.to_nat (SuperBlock.fat_blocks (super s))) 0
         (fat_block beyond s) d0 (io_log s ++ [EvWrite 0])
       = (true, d1, log1)
    /\ block_write (SuperBlock.root_index (super s)) (root_image s) d1 = Some d2
    /\ block_disk_close d2 = Some (disk s1).
Proof.
  unfold fs_umount. intros Hu.
  destruct (block_write 0 _ _) as [d0 |]; [| discriminate].
  destruct (store_fat _ _ _ _ _) as [[[|] d1] log1] eqn:Hfat; [| discriminate].
  destruct (block_write (SuperBlock.root_index _) _ _) as [d2 |] eqn:Hroot;
    [| discriminate].
  destruct (block_disk_close d2) as [d3 |] eqn:Hclose; [| discriminate].
  injection Hu as <-. exists d0, d1, d2, log1.
  split; [reflexivity |]. split; [exact Hfat |]. split; [exact Hroot |].
  exact Hclose.
Qed.

(** X11.  What [fs_umount] wrote, a fresh process mounts back: when the
    images fit their structs and the superblock is a valid one, a
    successful [fs_umount] followed by a successful [fs_mount] in a fresh
    process yields the same superblock, the same FAT entries and the same
    root directory, whatever lies after the FAT array in memory. *)
Theorem umount_then_mount_restores_images :
  forall (beyond : list Z) (name : string) (s s1 s2 : fs_state D),
    images_fit s ->
    super_valid (super s) (disk s) ->
    fs_umount beyond s = (0, s1) ->
    fs_mount name (boot (disk s1)) = Returns 0 s2 ->
    super s2 = super s
    /\ fat_flat s2 = fat_flat s
    /\ root_entry s2 = root_entry s.
Proof.
  intros beyond name s s1 s2 (Hsb & Hfat & Hfatlen & Hrootlen & Hroot)
    (_ & _ & _ & (Hri & _) & Hfb) Hu Hm.
  destruct (fs_umount_inv beyond s s1 Hu)
    as (d0 & d1 & d2 & log1 & Hput0 & Hputfat & Hputroot & Hclose).
  destruct (store_fat_stores _ _ _ _ _ _ _ Hputfat) as [Hfatnew Hfatold].
  pose proof Hsb as (_ & _ & _ & _ & Hdb & Hfbr & _).
  set (fb := SuperBlock.fat_blocks (super s)) in *.
  (* the blocks of the device when it was closed *)
  assert (Hb0 : block_read 0 d2 = Some (super_image s)).
  { rewrite (read_other d1 d2 _ 0 _ Hputroot) by lia.
    rewrite Hfatold by lia. exact (read_written _ _ _ _ Hput0). }
  assert (Hbfat : forall k : Z, 0 <= k < 0 + Z.of_nat (Z.to_nat fb) ->
                                block_read (k + 1) d2
                                = Some (fat_block beyond s k)).
  { intros k Hk. rewrite (read_other d1 d2 _ (k + 1) _ Hputroot) by lia.
    now apply Hfatnew. }
  assert (Hbroot : block_read (SuperBlock.root_index (super s)) d2
                   = Some (root_image s))
    by exact (read_written _ _ _ _ Hputroot).
  unfold fs_mount in Hm. cbn [disk boot] in Hm.
  destruct (block_disk_open name (disk s1)) as [d |] eqn:Hopen;
    [| discriminate].
  assert (Hsame : forall j : Z, block_read j d = block_read j d2).
  { intros j. exact (reopen_same d2 (disk s1) d name j Hclose Hopen). }
  rewrite Hsame, Hb0 in Hm. unfold super_image in Hm.
  rewrite (super_decode_encode _ Hsb) in Hm.
  destruct (super_rejected (super s) d); [discriminate |].
  destruct (load_fat_reads (fat_block beyond s) d (Z.to_nat fb) 0 []
              (io_log
                 (set_io_log (io_log (boot (disk s1)) ++ [EvRead 0])
                    (set_super (super s) (set_disk d (boot (disk s1)))))))
    as [log' Hload].
  { intros k Hk. rewrite Hsame. now apply Hbfat. }
  fold fb in Hm. rewrite Hload in Hm. cbn [negb app] in Hm.
  destruct (_ !! 0%nat); [| discriminate].
  destruct (negb _); [discriminate |].
  apply Returns_inj in Hm. rewrite <- Hm. clear Hm.
  split; [reflexivity |]. split.
  - change (fat_flat (set_io_log ?l (set_root_entry ?r ?x)))
      with (fat_flat x).
    change (fat_flat (set_io_log ?l (set_fat_flat ?f ?x))) with f.
    unfold fat_block, fat_memory.
    rewrite (decode_blocks _ (Z.to_nat fb) 0 ltac:(lia)).
    change (Z.to_nat (0 * BLOCK_SIZE)) with 0%nat. rewrite drop_0.
    rewrite take_decode_words.
    + rewrite <- Hfatlen. now apply decode_words_encode.
    + unfold BLOCK_SIZE in Hfb.
      pose proof (Z.div_mod (SuperBlock.data_blocks (super s) * 2 + (4096 - 1))
                    4096 ltac:(lia)) as Hdiv.
      pose proof (Z.mod_pos_bound
                    (SuperBlock.data_blocks (super s) * 2 + (4096 - 1)) 4096
                    ltac:(lia)) as Hmod.
      fold fb in Hfb. lia.
  - change (root_entry (set_io_log ?l (set_root_entry ?r ?x))) with r.
    rewrite Hsame, Hbroot. unfold decode_root, root_image, root_memory.
    assert (Hentries : entries s = root_entry s).
    { unfold entries, FS_FILE_MAX_COUNT. apply take_ge. lia. }
    rewrite Hentries.
    assert (Hlen : length (concat (map Entry.encode (root_entry s))) = 4096%nat).
    { clear - Hrootlen.
      assert (Hgen : forall es : list Entry.t,
                 length (concat (map Entry.encode es)) = (32 * length es)%nat).
      { induction es as [| e es IH]; [reflexivity |].
        cbn [map concat length]. rewrite length_app, length_entry_encode, IH.
        lia. }
      rewrite Hgen, Hrootlen. reflexivity. }
    rewrite (read_bytes_exact _ 4096 Hlen).
    rewrite <- (app_nil_r (concat _)).
    change 128%nat with (length (repeat Entry.zero 128)).
    rewrite repeat_length, <- Hrootlen.
    now apply decode_entries_encode.
Qed.

End Unmounting.

Section UnmountEffects.

Context {D : Type} `{BlockDevice D} `{DiskClose D}.

Lemma take_app_all {A} (l k : list A) (n : nat) :
  (n <= length l)%nat -> take n (l ++ k) = take n l.
Proof. intros Hn. rewrite take_app. replace (n - length l)%nat with 0%nat by lia.
       rewrite take_0. apply app_nil_r. Qed.

Lemma length_consecutive (k : nat) : forall p : Z, length (consecutive p k) = k.
Proof.
  induction k as [| k IH]; intros p; [reflexivity |].
  cbn [consecutive length]. now rewrite IH.
Qed.

(** Writing a list in two parts. *)
Lemma write_each_app (a b : list (Z * list Z)) :
  forall d : D,
    write_each (a ++ b) d
    = match write_each a d with
      | (n, d', true) =>
          match write_each b d' with
          | (m, d'', ok) => ((n + m)%nat, d'', ok)
          end
      | (n, d', false) => (n, d', false)
      end.
Proof.
  induction a as [| [i blk] a IH]; intros d; cbn [app write_each].
  - destruct (write_each b d) as [[m d''] ok]. reflexivity.
  - destruct (block_write i blk d) as [d1 |]; [| reflexivity].
    rewrite IH. destruct (write_each a d1) as [[n d'] [|]]; [| reflexivity].
    destruct (write_each b d') as [[m d''] ok]. reflexivity.
Qed.

(** The number of calls made is at most the number of images, and is that
    number when every write succeeded. *)
Lemma write_each_count (ws : list (Z * list Z)) :
  forall (d d' : D) (n : nat) (ok : bool),
    write_each ws d = (n, d', ok) ->
    (n <= length ws)%nat /\ (ok = true -> n = length ws).
Proof.
  induction ws as [| [i blk] ws IH]; intros d d' n ok Hrun;
    cbn [write_each] in Hrun.
  - injection Hrun as <- _ <-. split; [reflexivity | reflexivity].
  - destruct (block_write i blk d) as [d1 |].
    + destruct (write_each ws d1) as [[m d''] ok'] eqn:Hrest.
      injection Hrun as <- _ <-.
      destruct (IH _ _ _ _ Hrest) as [Hle Hall]. cbn [length].
      split; [lia |]. intros Hok. now rewrite (Hall Hok).
    + injection Hrun as <- _ <-. cbn [length].
      split; [lia | discriminate].
Qed.

(** The loop over the FAT blocks writes their images in order, up to the
    first write that fails. *)
Lemma store_fat_each (image : Z -> list Z) (n : nat) :
  forall (i : Z) (d : D) (log : list io_event),
    store_fat n i image d log
    = match
        write_each (map (fun k => (k + 1, image k)) (consecutive i n)) d
      with
      | (m, d', ok) =>
          (ok, d',
           log ++ map (fun k => EvWrite (k + 1)) (take m (consecutive i n)))
      end.
Proof.
  induction n as [| n IH]; intros i d log;
    cbn [store_fat consecutive map write_each].
  - cbn [take map]. now rewrite app_nil_r.
  - destruct (block_write (i + 1) (image i) d) as [d1 |].
    + rewrite IH.
      destruct (write_each _ d1) as [[m d'] ok].
      cbn [take map]. now rewrite <- app_assoc.
    + cbn [take map]. now rewrite take_0.
Qed.

(** X12.  [fs_umount] writes the superblock to block 0, then the FAT
    blocks 1, 2, ... in order, then the root directory to the root block,
    and stops at the first write that fails, returning -1; when every
    write succeeds it returns what closing the device gives, 0 or -1.  It
    changes none of the in-memory images: the superblock, the FAT, the
    root directory and also the open-file table with its counter stay as
    they were, so handles open before the call are still open after it. *)
Theorem fs_umount_effects :
  forall (beyond : list Z) (s : fs_state D) (r : Z) (s1 : fs_state D),
    fs_umount beyond s = (r, s1) ->
    (r = 0 \/ r = -1)
    /\ super s1 = super s /\ fat_flat s1 = fat_flat s
    /\ root_entry s1 = root_entry s /\ files s1 = files s
    /\ exists (k : nat) (d' : D) (ok : bool),
        write_each (umount_images beyond s) (disk s) = (k, d', ok)
        /\ io_log s1 = io_log s ++ take k (umount_writes (super s))
        /\ (1 <= k <= length (umount_writes (super s)))%nat
        /\ (r = 0 -> k = length (umount_writes (super s)))
        /\ match ok, block_disk_close d' with
           | true, Some d3 => r = 0 /\ disk s1 = d3
           | _, _ => r = -1 /\ disk s1 = d'
           end.
Proof.
  intros beyond s r s1 Hu. unfold fs_umount in Hu.
  unfold umount_writes, umount_images.
  set (n := Z.to_nat (SuperBlock.fat_blocks (super s))) in *.
  set (ri := SuperBlock.root_index (super s)) in *.
  set (fats := map (fun k => (k + 1, fat_block beyond s k)) (consecutive 0 n)).
  set (fatw := map (fun j => EvWrite (j + 1)) (consecutive 0 n)).
  assert (Hfatw : length fatw = n)
    by (unfold fatw; now rewrite length_map, length_consecutive).
  assert (Hfats : length fats = n)
    by (unfold fats; now rewrite length_map, length_consecutive).
  cbn [write_each].
  destruct (block_write 0 (super_image s) (disk s)) as [d0 |].
  2: { injection Hu as <- <-. split; [now right |].
       do 4 (split; [reflexivity |]).
       exists 1%nat, (disk s), false. split; [reflexivity |].
       cbn [take]. rewrite take_0. split; [reflexivity |].
       split; [cbn [length]; lia |]. split; [discriminate |].
       split; reflexivity. }
  rewrite store_fat_each in Hu. fold fats in Hu.
  rewrite write_each_app.
  destruct (write_each fats d0) as [[m dF] okF] eqn:Hfat.
  destruct (write_each_count _ _ _ _ _ Hfat) as [Hm Hall].
  rewrite Hfats in Hm, Hall.
  assert (Hprefix :
      map (fun k => EvWrite (k + 1)) (take m (consecutive 0 n)) = take m fatw).
  { unfold fatw. change (map ?f ?l) with (f <$> l). now rewrite fmap_take. }
  rewrite Hprefix in Hu.
  destruct okF.
  - specialize (Hall eq_refl). subst m.
    rewrite <- Hfatw, firstn_all in Hu. cbn [write_each].
    destruct (block_write ri (root_image s) dF) as [d2 |].
    + assert (Hlog :
          ((io_log s ++ [EvWrite 0]) ++ fatw) ++ [EvWrite ri]
          = io_log s
              ++ take (S (n + 1)) (EvWrite 0 :: fatw ++ [EvWrite ri])).
      { cbn [take]. rewrite firstn_all2 by (rewrite length_app; simpl; lia).
        now rewrite <- !app_assoc. }
      destruct (block_disk_close d2) as [d3 |] eqn:Hclose;
        injection Hu as <- <-.
      * split; [now left |]. do 4 (split; [reflexivity |]).
        exists (S (n + 1)), d2, true. split; [reflexivity |].
        split; [exact Hlog |].
        split; [cbn [length]; rewrite length_app; simpl; lia |].
        split; [intros _; cbn [length]; rewrite length_app; simpl; lia |].
        rewrite Hclose. split; reflexivity.
      * split; [now right |]. do 4 (split; [reflexivity |]).
        exists (S (n + 1)), d2, true. split; [reflexivity |].
        split; [exact Hlog |].
        split; [cbn [length]; rewrite length_app; simpl; lia |].
        split; [discriminate |].
        rewrite Hclose. split; reflexivity.
    + injection Hu as <- <-. split; [now right |].
      do 4 (split; [reflexivity |]).
      exists (S (n + 1)), dF, false. split; [reflexivity |].
      split.
      { cbn [take io_log set_io_log set_disk].
        rewrite firstn_all2 by (rewrite length_app; simpl; lia).
        now rewrite <- !app_assoc. }
      split; [cbn [length]; rewrite length_app; simpl; lia |].
      split; [discriminate |]. split; reflexivity.
  - injection Hu as <- <-. split; [now right |].
    do 4 (split; [reflexivity |]).
    exists (S m), dF, false. split; [reflexivity |].
    split.
    { cbn [take io_log set_io_log set_disk].
      rewrite take_app_all by lia. now rewrite <- app_assoc. }
    split; [cbn [length]; rewrite length_app; simpl; lia |].
    split; [discriminate |]. split; reflexivity.
Qed.

End UnmountEffects.

(** *** What a successful mount establishes *)

Lemma length_decode_words (n : nat) : forall b : list Z, length (decode_words n b) = n.
Proof.
  induction n as [| n IH]; intros b; [reflexivity |].
  cbn [decode_words length]. now rewrite IH.
Qed.

Section MountSuccess.

Context {D : Type} `{BlockDevice D}.

Lemma load_fat_length (n : nat) :
  forall (i : Z) (d : D) (words words' : list Z) (log log' : list io_event),
    load_fat n i d words log = (true, words', log') ->
    length words' = (length words + 2048 * n)%nat.
Proof.
  induction n as [| n IH]; intros i d words words' log log' Hrun;
    cbn [load_fat] in Hrun.
  - injection Hrun as <- _. lia.
  - destruct (block_read (i + 1) d) as [buffer |]; [| discriminate].
    rewrite (IH _ _ _ _ _ _ Hrun), length_app, length_decode_words. lia.
Qed.

(** X13.  After a successful [fs_mount] the superblock image passes the
    five tests against the device now open, FAT entry 0 is 0xFFFF, and
    (for a block count that fits 16 bits) the FAT has exactly
    [data_blocks] entries.  The open-file table is not reset: slots and
    counter are those of before the call. *)
Theorem fs_mount_establishes :
  forall (name : string) (s s' : fs_state D),
    fs_mount name s = Returns 0 s' ->
    super_rejected (super s') (disk s') = false
    /\ fat_flat s' !! 0%nat = Some 65535
    /\ files s' = files s
    /\ (0 <= SuperBlock.data_blocks (super s') < 2 ^ 16 ->
        length (fat_flat s') = Z.to_nat (SuperBlock.data_blocks (super s'))).
Proof.
  intros name s s' Hm. unfold fs_mount in Hm.
  destruct (block_disk_open name (disk s)) as [d |]; [| discriminate].
  remember (match block_read 0 d with
            | Some b => SuperBlock.decode b
            | None => super s
            end) as sb eqn:Esb.
  destruct (super_rejected sb d) eqn:Hrej; [discriminate |].
  destruct (load_fat _ _ _ _ _) as [[ok words] log] eqn:Hload.
  destruct ok; cbn [negb] in Hm; [| discriminate].
  change (fat_flat (set_io_log log (set_fat_flat ?f ?x))) with f in Hm.
  destruct (take (Z.to_nat (SuperBlock.data_blocks sb)) words !! 0%nat)
    as [v |] eqn:Hfirst; [| discriminate].
  destruct (Z.eqb_spec v 65535) as [-> | Hne]; cbn [negb] in Hm;
    [| discriminate].
  injection Hm as <-.
  change (super (set_io_log ?l (set_root_entry ?r (set_io_log ?l' (set_fat_flat ?f
            (set_io_log ?l'' (set_super ?b ?x))))))) with b.
  change (disk (set_io_log ?l (set_root_entry ?r (set_io_log ?l' (set_fat_flat ?f
            (set_io_log ?l'' (set_super ?b (set_disk ?dd ?x)))))))) with dd.
  change (fat_flat (set_io_log ?l (set_root_entry ?r (set_io_log ?l' (set_fat_flat ?f ?x)))))
    with f.
  split; [exact Hrej |]. split; [exact Hfirst |]. split; [reflexivity |].
  intros Hdb. rewrite length_take.
  rewrite (load_fat_length _ _ _ _ _ _ _ Hload). cbn [length].
  unfold super_rejected in Hrej.
  rewrite !orb_false_iff, !negb_false_iff in Hrej.
  destruct Hrej as (_ & Hfb). apply Z.eqb_eq in Hfb.
  unfold uint8_t, BLOCK_SIZE in Hfb.
  assert (Hceil : 0 <= (SuperBlock.data_blocks sb * 2 + 4096 - 1) / 4096 < 2 ^ 8).
  { split; [apply Z.div_pos; lia | apply Z.div_lt_upper_bound; lia]. }
  rewrite Z.mod_small in Hfb by exact Hceil.
  pose proof (Z.div_mod (SuperBlock.data_blocks sb * 2 + 4096 - 1) 4096
                ltac:(lia)) as Hdiv.
  pose proof (Z.mod_pos_bound (SuperBlock.data_blocks sb * 2 + 4096 - 1) 4096
                ltac:(lia)) as Hmod.
  lia.
Qed.

End MountSuccess.

(** *** Listing the directory *)

Lemma strlen_length (x : list Z) : 0 <= strlen x <= Z.of_nat (length x).
Proof.
  induction x as [| c x IH]; simpl; [lia |]. destruct (c =? 0); lia.
Qed.

Lemma strlen_app_nul (x y : list Z) : In 0 x -> strlen (x ++ y) = strlen x.
Proof.
  induction x as [| c x IH]; intros Hin; [destruct Hin |].
  simpl. destruct (Z.eqb_spec c 0) as [-> | Hc]; [reflexivity |].
  destruct Hin as [-> | Hin]; [contradiction |]. now rewrite IH.
Qed.

Lemma c_string_app_nul (x y : list Z) : In 0 x -> c_string (x ++ y) = c_string x.
Proof.
  intros Hin. unfold c_string. rewrite (strlen_app_nul x y Hin).
  apply take_app_all. pose proof (strlen_length x). lia.
Qed.

Section Listing.

Context {D : Type} `{BlockDevice D} `{DiskClose D}.

Lemma ls_lines_count (es : list Entry.t) :
  Z.of_nat (length (ls_lines es)) = Z.of_nat (length es) - count_if entry_free es.
Proof.
  induction es as [| e es IH]; [reflexivity |].
  cbn [ls_lines count_if length]. destruct (entry_free e); cbn [length]; lia.
Qed.

Lemma ls_lines_names (es : list Entry.t) :
  Forall (fun e => length (Entry.filename e) = 16%nat /\ In 0 (Entry.filename e))
    es ->
  ls_lines es
  = map (fun e => (c_string (Entry.filename e), Entry.file_size e,
                   Entry.data_index e))
      (List.filter (fun e => negb (entry_free e)) es).
Proof.
  induction 1 as [| e es [Hlen Hnul] Hes IH]; [reflexivity |].
  cbn [ls_lines List.filter]. destruct (entry_free e); cbn [negb];
    [exact IH |].
  cbn [map]. rewrite IH. do 3 f_equal.
  unfold root_memory. cbn [map concat]. unfold Entry.encode.
  rewrite (read_bytes_exact _ 16 Hlen), <- !app_assoc.
  now apply c_string_app_nul.
Qed.

(** X14.  [fs_ls] prints one line for each directory entry whose name does
    not start with NUL and none for the others: the number of lines and the
    number of free slots that [fs_info] prints add up to the size of the
    directory.  When every name field holds a terminated name, the lines
    are, in slot order, the name up to its terminator, the size and the
    first data block of the entries in use. *)
Theorem fs_ls_lists_files :
  forall s : fs_state D,
    Z.of_nat (length (fs_ls s)) + rdir_free s = Z.of_nat (length (entries s))
    /\ (Forall
          (fun e => length (Entry.filename e) = 16%nat
                    /\ In 0 (Entry.filename e))
          (entries s) ->
        fs_ls s
        = map (fun e => (c_string (Entry.filename e), Entry.file_size e,
                         Entry.data_index e))
            (List.filter (fun e => negb (entry_free e)) (entries s))).
Proof.
  intros s. unfold fs_ls, rdir_free. split.
  - pose proof (ls_lines_count (entries s)). lia.
  - apply ls_lines_names.
Qed.

End Listing.

(** *** Names stay unique *)

Lemma find_from_None_lookup {A} (p : A -> bool) (l : list A) :
  forall (i : Z) (j : nat) (x : A),
    find_from p l i = None -> l !! j = Some x -> p x = false.
Proof.
  induction l as [| y l IH]; intros i j x Hn Hx; [discriminate |].
  simpl in Hn. destruct (p y) eqn:Hy; [discriminate |].
  destruct j as [| j]; [injection Hx as <-; exact Hy |].
  exact (IH _ _ _ Hn Hx).
Qed.

Lemma find_from_all_false {A} (p : A -> bool) (l : list A) :
  forall i : Z,
    (forall (j : nat) (x : A), l !! j = Some x -> p x = false) ->
    find_from p l i = None.
Proof.
  induction l as [| y l IH]; intros i Hall; [reflexivity |].
  simpl. rewrite (Hall 0%nat y eq_refl). apply IH.
  intros j x Hx. exact (Hall (S j) x Hx).
Qed.

Lemma peek_read_bytes (m : list Z) (n : nat) : peek (read_bytes m (S n)) = peek m.
Proof. now rewrite read_bytes_step. Qed.

Section Names.

Context {D : Type} `{BlockDevice D}.

Lemma same_name_spec (name : list Z) (e : Entry.t) :
  same_name name e = true
  <-> read_bytes (Entry.filename e) 16 = read_bytes name 16.
Proof.
  unfold same_name. change (Z.to_nat FS_FILENAME_LEN) with 16%nat.
  rewrite Z.eqb_eq. apply memcmp_read_bytes.
Qed.

Lemma free_differs (e e' : Entry.t) :
  entry_free e = false -> entry_free e' = true ->
  read_bytes (Entry.filename e) 16 <> read_bytes (Entry.filename e') 16.
Proof.
  unfold entry_free. intros He He' Heq.
  apply (f_equal peek) in Heq. rewrite !(peek_read_bytes _ 15) in Heq.
  rewrite Heq, He' in He. discriminate.
Qed.

(** Uniqueness only looks at the name fields. *)
Lemma names_unique_ext (s s' : fs_state D) :
  map Entry.filename (entries s') = map Entry.filename (entries s) ->
  names_unique s -> names_unique s'.
Proof.
  intros Hmap Hu i j ei ej Hi Hj Hne Hfree.
  assert (Hget : forall (k : nat) (e : Entry.t),
             entries s' !! k = Some e ->
             exists e0 : Entry.t,
               entries s !! k = Some e0
               /\ Entry.filename e0 = Entry.filename e).
  { intros k e Hk.
    assert (Hk' : map Entry.filename (entries s') !! k
                  = Some (Entry.filename e)).
    { change (map Entry.filename) with (fmap (M:=list) Entry.filename).
      now rewrite list_lookup_fmap, Hk. }
    rewrite Hmap in Hk'.
    change (map Entry.filename) with (fmap (M:=list) Entry.filename) in Hk'.
    rewrite list_lookup_fmap in Hk'.
    destruct (entries s !! k) as [e0 |]; [| discriminate].
    injection Hk' as Hk'. now exists e0. }
  destruct (Hget i ei Hi) as (ei0 & Hi0 & Hfi).
  destruct (Hget j ej Hj) as (ej0 & Hj0 & Hfj).
  rewrite <- Hfi, <- Hfj. apply (Hu i j ei0 ej0 Hi0 Hj0 Hne).
  unfold entry_free in *. now rewrite Hfi.
Qed.

(** Storing an entry keeps the names unique when the entry, if in use,
    differs from every other one. *)
Lemma names_unique_store (s s' : fs_state D) (i : Z) (e : Entry.t) :
  names_unique s ->
  entries s' = store (entries s) i e ->
  (entry_free e = false ->
   forall (j : nat) (ej : Entry.t),
     j <> Z.to_nat i -> entries s !! j = Some ej ->
     read_bytes (Entry.filename e) 16 <> read_bytes (Entry.filename ej) 16) ->
  names_unique s'.
Proof.
  intros Hu Hentries Hnew a b ea eb Ha Hb Hne Hfree.
  rewrite Hentries in Ha, Hb. unfold store in Ha, Hb.
  destruct (Nat.eq_dec a (Z.to_nat i)) as [-> | Hai].
  - rewrite list_lookup_insert_ne in Hb by congruence.
    apply list_lookup_insert_Some in Ha as [(_ & <- & _) | (Hc & _)];
      [| congruence].
    apply (Hnew Hfree b eb); [congruence | exact Hb].
  - rewrite list_lookup_insert_ne in Ha by congruence.
    destruct (Nat.eq_dec b (Z.to_nat i)) as [-> | Hbi].
    + apply list_lookup_insert_Some in Hb as [(_ & <- & _) | (Hc & _)];
        [| congruence].
      destruct (entry_free e) eqn:He.
      * now apply free_differs.
      * intros Heq. symmetry in Heq. revert Heq.
        apply (Hnew eq_refl a ea); [congruence | exact Ha].
    + rewrite list_lookup_insert_ne in Hb by congruence.
      exact (Hu a b ea eb Ha Hb Hne Hfree).
Qed.

(** X15.  Unique names are kept by every call other than [fs_mount] (which
    loads a new directory), provided the names given to [fs_create] are
    clean: [fs_create] then never makes a second entry for a name, and the
    other calls rewrite no name field except to clear it. *)
Theorem names_stay_unique :
  forall (c : call) (s s' : fs_state D),
    names_unique s ->
    match c with
    | CallMount _ => False
    | CallCreate name => clean_name name
    | _ => True
    end ->
    perform c s = Some s' ->
    names_unique s'.
Proof.
  intros c s s' Hu Hc Hrun.
  destruct c; cbn [perform] in Hrun; [contradiction | | | | | | |].
  - injection Hrun as <-.
    destruct (fs_create filename s) as [r s1] eqn:Hcreate. cbn [snd].
    destruct (fs_create_rejected filename r s s1 Hcreate)
      as [[-> | ->] Hsame]; [| now rewrite Hsame].
    destruct (fs_create_inv filename s s1 Hcreate)
      as (i & Hnone & _ & Hi & _ & Hentries & _).
    apply (names_unique_store s s1 i _ Hu Hentries).
    intros _ j ej _ Hj.
    assert (Hname : forall e : Entry.t,
               read_bytes
                 (Entry.filename
                    (Entry.set_file_size 0
                       (Entry.set_filename (strncpy filename 16) e))) 16
               = read_bytes filename 16).
    { intros e. cbn [Entry.filename Entry.set_file_size Entry.set_filename].
      rewrite read_bytes_exact by apply length_strncpy. symmetry. exact Hc. }
    assert (Hdiff : read_bytes filename 16 <> read_bytes (Entry.filename ej) 16).
    { intros Heq.
      pose proof (find_from_None_lookup _ _ _ _ _ Hnone Hj) as Hno.
      assert (Hyes : same_name filename ej = true)
        by now apply same_name_spec.
      congruence. }
    destruct (find_first (Z.eqb 0) _);
      [change (Entry.filename (Entry.set_data_index 65535 ?e))
         with (Entry.filename e) |];
      now rewrite Hname.
  - unfold fs_delete in Hrun.
    destruct (find_first _ _) as [i |] eqn:Hfind;
      [| injection Hrun as <-; exact Hu].
    destruct (_ =? 0); [| injection Hrun as <-; exact Hu].
    destruct (_ <? _); [| discriminate].
    injection Hrun as <-.
    pose proof (find_first_bounds _ _ _ Hfind) as Hi.
    apply (names_unique_store s _ i Entry.zero Hu).
    + unfold entries at 1. cbn [root_entry set_root_entry set_fat_flat].
      apply take_store. unfold entries in Hi. rewrite length_take in Hi. lia.
    + discriminate.
  - injection Hrun as <-. apply (names_unique_ext s); [| exact Hu].
    unfold fs_open.
    destruct (_ =? FS_OPEN_MAX_COUNT); [reflexivity |].
    destruct filename as [name |]; [| reflexivity].
    destruct (find_first (same_name _) _); [| reflexivity].
    destruct (find_first slot_free _); reflexivity.
  - injection Hrun as <-. apply (names_unique_ext s); [| exact Hu].
    unfold fs_close. destruct (bad_fd s fd); reflexivity.
  - injection Hrun as <-. apply (names_unique_ext s); [| exact Hu].
    unfold fs_lseek. destruct (bad_fd s fd); [reflexivity |].
    destruct (_ >? _); reflexivity.
  - apply (names_unique_ext s); [| exact Hu].
    unfold fs_write in Hrun.
    destruct (bad_fd s fd); [now injection Hrun as <- |].
    destruct (find_first _ _) as [i |]; [| now injection Hrun as <-].
    destruct (write_loop _ _ _ _ _ _ _ _) as [[[[| w' o'] d'] log'] |];
      simpl in Hrun; try discriminate; injection Hrun as <-; [reflexivity |].
    destruct (_ >? _); [| reflexivity].
    unfold entries. cbn [root_entry set_root_entry].
    change (map Entry.filename) with (fmap (M:=list) Entry.filename).
    rewrite !fmap_take. f_equal.
    apply (map_store_same Entry.filename
             (Entry.set_file_size (uint32_t o')) Entry.zero).
    reflexivity.
  - apply (names_unique_ext s); [| exact Hu].
    unfold fs_read in Hrun.
    destruct (bad_fd s fd); [now injection Hrun as <- |].
    destruct (find_first _ _) as [i |]; [| now injection Hrun as <-].
    destruct (_ >=? _); [now injection Hrun as <- |].
    destruct (read_loop _ _ _ _ _ _ _ _) as [[[[| r' o'] out'] log'] |];
      simpl in Hrun; try discriminate; injection Hrun as <-; reflexivity.
Qed.

(** X16.  With unique names, a successful [fs_delete] of a non-empty name
    removes it from the directory: no entry matches the name any more,
    [fs_open] of it returns -1, and one more directory slot is free. *)
Theorem deleted_name_is_gone :
  forall (name : list Z) (s s' : fs_state D),
    names_unique s ->
    peek name <> 0 ->
    fs_delete name s = Returns 0 s' ->
    find_first (same_name name) (entries s') = None
    /\ fst (fs_open (Some name) s') = -1
    /\ rdir_free s' = rdir_free s + 1.
Proof.
  intros name s s' Hu Hname Hdel. unfold fs_delete in Hdel.
  destruct (find_first _ _) as [i |] eqn:Hfind; [| discriminate].
  destruct (_ =? 0); [| discriminate].
  destruct (_ <? _); [| discriminate].
  injection Hdel as <-.
  pose proof (find_first_bounds _ _ _ Hfind) as Hi.
  destruct (find_first_Some _ _ _ Hfind) as (ei & Hei & Hmatch).
  apply same_name_spec in Hmatch.
  assert (Hused : entry_free ei = false).
  { unfold entry_free. apply (f_equal peek) in Hmatch.
    rewrite !(peek_read_bytes _ 15) in Hmatch. rewrite Hmatch.
    now apply Z.eqb_neq. }
  assert (Hentries :
      entries
        (set_root_entry (store (root_entry s) i Entry.zero)
           (set_fat_flat
              (store (fat_flat s) (Entry.data_index (entry s i)) 0) s))
      = store (entries s) i Entry.zero).
  { unfold entries at 1. cbn [root_entry set_root_entry set_fat_flat].
    apply take_store. unfold entries in Hi. rewrite length_take in Hi. lia. }
  assert (Hgone :
      find_first (same_name name) (store (entries s) i Entry.zero) = None).
  { apply find_from_all_false. intros j x Hx. unfold store in Hx.
    destruct (same_name name x) eqn:Hsame; [| reflexivity].
    apply same_name_spec in Hsame.
    destruct (Nat.eq_dec j (Z.to_nat i)) as [-> | Hne].
    - apply list_lookup_insert_Some in Hx as [(_ & <- & _) | (Hc & _)];
        [| congruence].
      apply (f_equal peek) in Hsame.
      rewrite !(peek_read_bytes _ 15) in Hsame.
      simpl in Hsame. congruence.
    - rewrite list_lookup_insert_ne in Hx by congruence.
      exfalso. apply (Hu (Z.to_nat i) j ei x Hei Hx ltac:(congruence) Hused).
      congruence. }
  rewrite Hentries. split; [exact Hgone |]. split.
  - unfold fs_open. destruct (_ =? FS_OPEN_MAX_COUNT); [reflexivity |].
    rewrite Hentries, Hgone. reflexivity.
  - unfold rdir_free. rewrite Hentries.
    rewrite (count_if_store _ Entry.zero).
    destruct (Nat.ltb_spec (Z.to_nat i) (length (entries s))); [| lia].
    rewrite (cell_lookup _ _ _ ei Hei), Hused.
    change (entry_free Entry.zero) with true. cbv iota. lia.
Qed.

End Names.

Lemma forallb_lookup {A} (p : A -> bool) (l : list A) :
  forall (k : nat) (x : A),
    forallb p l = true -> l !! k = Some x -> p x = true.
Proof.
  induction l as [| y l IH]; intros k x Hall Hx; [discriminate |].
  simpl in Hall. apply andb_prop in Hall as [Hy Hl].
  destruct k as [| k]; [injection Hx as <-; exact Hy |].
  exact (IH k x Hl Hx).
Qed.

Lemma names_unique_first_only {D : Type} `{BlockDevice D} (s : fs_state D) :
  forallb entry_free (drop 1 (entries s)) = true -> names_unique s.
Proof.
  intros Hfree.
  assert (Hrest : forall (k : nat) (e : Entry.t),
             entries s !! S k = Some e -> entry_free e = true).
  { intros k e Hk. apply (forallb_lookup _ _ k e Hfree).
    now rewrite lookup_drop. }
  intros i j ei ej Hi Hj Hne Hused.
  destruct i as [| i]; [| rewrite (Hrest i ei Hi) in Hused; discriminate].
  destruct j as [| j]; [congruence |].
  apply free_differs; [exact Hused | exact (Hrest j ej Hj)].
Qed.

(** ** The device in memory keeps the contract *)

Lemma ram_usable_insert (i j : Z) (b : list Z) (d : RamDisk) :
  ram_usable j (mk_ram (rd_open d) (<[Z.to_nat i := b]> (rd_blocks d)) (rd_bad d))
  = ram_usable j d.
Proof. unfold ram_usable. cbn [rd_open rd_blocks rd_bad]. now rewrite length_insert. Qed.

Lemma ram_usable_range (i : Z) (d : RamDisk) :
  ram_usable i d = true -> 0 <= i < Z.of_nat (length (rd_blocks d)).
Proof.
  unfold ram_usable. intros Hu.
  apply andb_prop in Hu as [Hu _]. apply andb_prop in Hu as [Hu Hhi].
  apply andb_prop in Hu as [_ Hlo]. lia.
Qed.

Lemma ram_read_length (d : RamDisk) (i : Z) (b : list Z) :
  ram_sound d -> block_read i d = Some b -> length b = 4096%nat.
Proof.
  unfold ram_sound. cbn [block_read RamDisk_device]. intros Hs Hr.
  destruct (ram_usable i d); [| discriminate].
  exact (Forall_lookup_1 _ _ _ _ Hs Hr).
Qed.

Lemma ram_write_sound (d d' : RamDisk) (i : Z) (b : list Z) :
  ram_sound d -> length b = 4096%nat -> block_write i b d = Some d' ->
  ram_sound d'.
Proof.
  unfold ram_sound. cbn [block_write RamDisk_device]. intros Hs Hb Hw.
  destruct (ram_usable i d); [| discriminate]. injection Hw as <-.
  cbn [rd_blocks]. now apply Forall_insert.
Qed.

Lemma ram_read_written (d d' : RamDisk) (i : Z) (b : list Z) :
  block_write i b d = Some d' -> block_read i d' = Some b.
Proof.
  cbn [block_write block_read RamDisk_device]. intros Hw.
  destruct (ram_usable i d) eqn:Hu; [| discriminate]. injection Hw as <-.
  rewrite ram_usable_insert, Hu. cbn [rd_blocks].
  apply list_lookup_insert_eq. apply ram_usable_range in Hu. lia.
Qed.

Lemma ram_read_other (d d' : RamDisk) (i j : Z) (b : list Z) :
  block_write i b d = Some d' -> j <> i -> block_read j d' = block_read j d.
Proof.
  cbn [block_write block_read RamDisk_device]. intros Hw Hne.
  destruct (ram_usable i d) eqn:Hu; [| discriminate]. injection Hw as <-.
  rewrite ram_usable_insert. destruct (ram_usable j d) eqn:Hj; [| reflexivity].
  cbn [rd_blocks]. apply list_lookup_insert_ne.
  apply ram_usable_range in Hu. apply ram_usable_range in Hj. lia.
Qed.

Lemma ram_reopen_same (d d' d'' : RamDisk) (name : string) (i : Z) :
  block_disk_close d = Some d' ->
  block_disk_open name d' = Some d'' ->
  block_read i d'' = block_read i d.
Proof.
  cbn [block_disk_close RamDisk_close block_disk_open block_read RamDisk_device].
  intros Hc Ho. destruct (rd_open d) eqn:Hopen; [| discriminate].
  injection Hc as <-. cbn [rd_open rd_blocks rd_bad] in Ho.
  injection Ho as <-. unfold ram_usable. cbn [rd_open rd_blocks rd_bad].
  now rewrite Hopen.
Qed.

#[export] Instance RamDisk_laws : StoreLaws RamDisk := {
  dev_sound := ram_sound;
  read_length := ram_read_length;
  write_sound := ram_write_sound;
  read_written := ram_read_written;
  read_other := ram_read_other
}.

#[export] Instance RamDisk_reopen : ReopenLaws RamDisk := {
  reopen_same := ram_reopen_same
}.

(** ** The properties at work on the volumes above *)

Lemma Forall_checked {A} (P : A -> Prop) (p : A -> bool) (l : list A) :
  (forall x : A, p x = true -> P x) -> forallb p l = true -> Forall P l.
Proof.
  intros Hp. induction l as [| x l IH]; intros Hall; [constructor |].
  simpl in Hall. apply andb_prop in Hall as [Hx Hl].
  constructor; [exact (Hp x Hx) | exact (IH Hl)].
Qed.

Ltac evaluate :=
  vm_compute;
  repeat first
    [ apply Forall_nil | apply Forall_cons | split | reflexivity
    | discriminate | left; reflexivity | right ].

Lemma rejected_calls_change_nothing_witness :
  snd (fs_close 5 (mounted empty_volume)) = mounted empty_volume.
Proof.
  destruct (rejected_calls_change_nothing (mounted empty_volume))
    as (_ & _ & Hclose & _).
  apply (Hclose 5 (-1)); evaluate.
Defined.

Lemma delete_needs_every_slot_free_witness :
  forallb slot_free (slots (mounted chained_volume)) = true.
Proof.
  apply (delete_needs_every_slot_free chained_volume
           [CallMount "disk"] (mounted chained_volume)
           (after chained_deleted (mounted chained_volume)) (cstr "f"));
    evaluate.
Defined.

Lemma fs_create_accounting_witness :
  fat_free (snd s6_created) = Z.max 0 (fat_free (mounted empty_volume) - 1)
  /\ rdir_free (snd s6_created) = rdir_free (mounted empty_volume) - 1.
Proof.
  apply (fs_create_accounting (cstr "x") (mounted empty_volume)
           (snd s6_created)).
  evaluate.
Defined.

Lemma created_name_is_found_witness :
  fs_create (cstr "x") (snd s6_created) = (-1, snd s6_created).
Proof.
  apply (created_name_is_found (cstr "x") (mounted empty_volume)
           (snd s6_created)); evaluate.
Defined.

Lemma open_then_close_restores_witness :
  fs_close 0 (snd s6_opened) = (0, snd s6_created).
Proof.
  apply (open_then_close_restores (cstr "x") (snd s6_created)
           (snd s6_opened) 0); evaluate.
Defined.

Lemma fs_read_delivers_witness :
  exists (out : list Z) (s' : fs_state RamDisk),
    fs_read 0 10 (snd f_opened) = Some (10, out, s')
    /\ length out = 5%nat
    /\ File.offset (slot s' 0) = 5.
Proof.
  destruct (fs_read_delivers 0 10 (snd f_opened) 0)
    as (out & s' & Hread & Hlen & _ & Hoff & _).
  - evaluate.
  - evaluate.
  - evaluate.
  - evaluate.
  - evaluate.
  - intros pos Hpos.
    change (0 <= pos < 0 + 5) in Hpos.
    assert (Hlt : 0 <= pos < 4096) by lia.
    unfold block_of, BLOCK_SIZE. rewrite (Z.div_small pos 4096 Hlt).
    vm_compute. eexists. reflexivity.
  - exists out, s'. split; [exact Hread |]. split; [exact Hlen | exact Hoff].
Defined.

Lemma other_handles_untouched_witness :
  slot (snd (fs_close 0 (snd ab_opened))) 1 = slot (snd ab_opened) 1.
Proof.
  apply (other_handles_untouched 0 1 (snd ab_opened)); lia.
Defined.

Lemma fs_write_stores_witness :
  file_byte (disk hello_stored) 3 1 4 = 111
  /\ File.offset (slot hello_stored 0) = 5.
Proof.
  destruct (fs_write_stores 0 [72; 101; 108; 108; 111] 5 (snd owner_opened)
              0 5 hello_stored)
    as (_ & _ & Hbytes & _ & Hoff); [evaluate .. |].
  split; [exact (Hbytes 4 ltac:(lia)) | exact Hoff].
Defined.

Lemma write_then_read_back_witness :
  exists s3 : fs_state RamDisk,
    fs_read 0 5 (snd hello_seeked) = Some (5, [72; 101; 108; 108; 111], s3).
Proof.
  apply (write_then_read_back 0 [72; 101; 108; 108; 111] 5 (snd owner_opened)
           0 5 hello_stored (snd hello_seeked)); evaluate.
Defined.

Lemma umount_then_mount_restores_images_witness :
  super (after x_remounted (boot empty_volume)) = super (snd s6_created)
  /\ fat_flat (after x_remounted (boot empty_volume))
     = fat_flat (snd s6_created)
  /\ root_entry (after x_remounted (boot empty_volume))
     = root_entry (snd s6_created).
Proof.
  apply (umount_then_mount_restores_images [] "disk" (snd s6_created)
           (snd x_unmounted)).
  - split; [evaluate |]. split; [| split; [evaluate |]; split; [evaluate |]].
    + apply (Forall_checked _ (fun w => (0 <=? w) && (w <? 2 ^ 16)));
        [intros w Hw; lia | evaluate].
    + apply (Forall_checked _
               (fun e =>
                  (length (Entry.filename e) =? 16)%nat
                  && (0 <=? Entry.file_size e)
                  && (Entry.file_size e <? 2 ^ 32)
                  && (0 <=? Entry.data_index e)
                  && (Entry.data_index e <? 2 ^ 16)
                  && (length (Entry.unused_padding e) =? 10)%nat));
        [| evaluate].
      intros e He. unfold entry_fits.
      repeat (apply andb_prop in He as [He ?]).
      repeat split; try lia; now apply Nat.eqb_eq.
  - evaluate.
  - evaluate.
  - evaluate.
Defined.

Lemma fs_umount_effects_witness :
  files (snd x_unmounted) = files (snd s6_created)
  /\ calls_since (snd s6_created) (snd x_unmounted)
     = [EvWrite 0; EvWrite 1; EvWrite 2].
Proof.
  destruct (fs_umount_effects [] (snd s6_created) 0 (snd x_unmounted))
    as (_ & _ & _ & _ & Hfiles & _); [evaluate |].
  split; [exact Hfiles | evaluate].
Defined.

Lemma fs_mount_establishes_witness :
  fat_flat (mounted empty_volume) !! 0%nat = Some 65535
  /\ length (fat_flat (mounted empty_volume)) = 4%nat.
Proof.
  destruct (fs_mount_establishes "disk" (boot empty_volume)
              (mounted empty_volume))
    as (_ & Hfirst & _ & Hlen); [evaluate |].
  split; [exact Hfirst |]. rewrite Hlen; evaluate.
Defined.

Lemma fs_ls_lists_files_witness :
  fs_ls (mounted gh_volume) = [(cstr "g", 8192, 1); (cstr "h", 10, 2)].
Proof.
  rewrite (proj2 (fs_ls_lists_files (mounted gh_volume))); evaluate.
Defined.

Lemma names_stay_unique_witness : names_unique (snd s6_created).
Proof.
  apply (names_stay_unique (CallCreate (cstr "x")) (mounted empty_volume)).
  - apply names_unique_first_only. evaluate.
  - evaluate.
  - evaluate.
Defined.

Lemma deleted_name_is_gone_witness :
  fst (fs_open (Some (cstr "f"))
         (after chained_deleted (mounted chained_volume))) = -1.
Proof.
  apply (deleted_name_is_gone (cstr "f") (mounted chained_volume)
           (after chained_deleted (mounted chained_volume))).
  - apply names_unique_first_only. evaluate.
  - evaluate.
  - evaluate.
Defined.

(** *** The size that fs_stat reports *)

Section Stat.

Context {D : Type} `{BlockDevice D}.

(** X17.  [fs_stat] reports the size recorded in the directory entry that
    carries the handle's name.  After a write that does not fail it reports
    the larger of the old size and the position where the write ended: a
    write past the end extends the file, a write inside it leaves the size
    alone (sizes and positions below 2^31, the range of the returned
    [int]). *)
Theorem fs_stat_after_write :
  forall (fd : Z) (buf : list Z) (count : Z) (s : fs_state D) (i r : Z)
         (s' : fs_state D),
    find_first (same_name (File.filename (slot s fd))) (entries s) = Some i ->
    0 <= File.offset (slot s fd) ->
    0 <= count ->
    File.offset (slot s fd) + count < 2 ^ 31 ->
    0 <= Entry.file_size (entry s i) < 2 ^ 31 ->
    fs_write fd buf count s = Some (r, s') ->
    r <> -1 ->
    fs_stat fd s = Entry.file_size (entry s i)
    /\ fs_stat fd s'
       = Z.max (Entry.file_size (entry s i)) (File.offset (slot s fd) + count).
Proof.
  intros fd buf count s i r s' Hfind Ho Hcount Hsum Hsize Hwrite Hr.
  destruct (fs_write_inv fd buf count r s s' Hwrite Hr)
    as (i' & w' & o' & d' & log' & Hfd & Hfind' & Hrun & _ & _ & _ & _
        & Hfiles1 & Hroot1).
  rewrite Hfind in Hfind'. injection Hfind' as <-.
  destruct (write_loop_done _ _ _ _ _ _ _ _ _ _ _ _ Hrun) as [_ ->]; try lia.
  remember (File.offset (slot s fd)) as o eqn:Eo in *.
  remember (Entry.file_size (entry s i)) as size eqn:Esize in *.
  pose proof (fd_in_table s fd Hfd) as Hin.
  pose proof (bad_fd_false s fd Hfd) as [Hrange Hused].
  pose proof (find_first_bounds _ _ _ Hfind) as Hi.
  destruct (find_first_Some _ _ _ Hfind) as (y & Hy & _).
  assert (Hi' : (Z.to_nat i < 128)%nat).
  { unfold entries, FS_FILE_MAX_COUNT in Hi. rewrite length_take in Hi. lia. }
  assert (Hentry : entry s i = y).
  { unfold entry. rewrite <- (cell_take _ 128) by lia.
    now apply cell_lookup. }
  split.
  - unfold fs_stat. rewrite Hfd, Hfind, <- Esize. apply to_int_small. lia.
  - assert (Hslot1 : slot s' fd = File.set_offset (o + count) (slot s fd)).
    { unfold slot at 1. rewrite Hfiles1. cbn [Files.file].
      now apply cell_store. }
    assert (Hfd1 : bad_fd s' fd = false).
    { unfold bad_fd. rewrite Hslot1. unfold FS_OPEN_MAX_COUNT.
      destruct (Z.ltb_spec fd 0); [lia |].
      destruct (Z.geb_spec fd 32); [lia |]. exact Hused. }
    assert (Hentries1 :
        entries s'
        = if o + count >? size
          then store (entries s) i
                 (Entry.set_file_size (uint32_t (o + count)) (entry s i))
          else entries s).
    { unfold entries at 1. rewrite Hroot1.
      destruct (o + count >? size); [| reflexivity].
      now rewrite take_store by (unfold FS_FILE_MAX_COUNT; lia). }
    assert (Hfind1 :
        find_first (same_name (File.filename (slot s' fd))) (entries s')
        = Some i).
    { rewrite Hslot1, Hentries1. cbn [File.filename File.set_offset].
      destruct (o + count >? size); [| exact Hfind].
      unfold find_first, store. rewrite find_from_insert_same; [exact Hfind |].
      intros y' Hy'. rewrite Hy in Hy'. injection Hy' as <-.
      now rewrite Hentry. }
    assert (Hentry1 :
        entry s' i
        = if o + count >? size
          then Entry.set_file_size (uint32_t (o + count)) (entry s i)
          else entry s i).
    { unfold entry at 1. rewrite <- (cell_take _ 128) by lia.
      change (take 128 (root_entry s')) with (entries s'). rewrite Hentries1.
      destruct (o + count >? size).
      - apply cell_store. lia.
      - unfold entries, FS_FILE_MAX_COUNT. rewrite cell_take by lia.
        reflexivity. }
    unfold fs_stat. rewrite Hfd1, Hfind1, Hentry1.
    destruct (Z.gtb_spec (o + count) size);
      cbn [Entry.file_size Entry.set_file_size].
    + unfold uint32_t. rewrite Z.mod_small by lia.
      rewrite Z.max_r by lia. apply to_int_small. lia.
    + rewrite <- Esize, Z.max_l by lia. apply to_int_small. lia.
Qed.

End Stat.

Lemma fs_stat_after_write_witness :
  fs_stat 0 (snd owner_opened) = 0 /\ fs_stat 0 hello_stored = 5.
Proof.
  apply (fs_stat_after_write 0 [72; 101; 108; 108; 111] 5 (snd owner_opened)
           0 5 hello_stored); evaluate.
Defined.
